(** * cordova-android: project scaffolding and plugin orchestration

    A shallow embedding of [bin/lib/create.js] and
    [bin/templates/cordova/Api.js], with the properties of the
    specification stated over it.

    Conventions.  A JavaScript string is a [string]; one [ascii] stands
    for one UTF-16 code unit below 256.  A promise that has settled is a
    value of [promise]; code that reads and writes the disk is a function
    in the [M] monad over the [world] record. *)

From Stdlib Require Import ZArith QArith Ascii String List Bool Lia DecimalString DecimalNat.
From stdpp Require Import base option list gmap strings.

Close Scope Q_scope.
Local Open Scope string_scope.

(** ** Lists of characters *)

Fixpoint take_while {A} (p : A -> bool) (l : list A) : list A :=
  match l with
  | [] => []
  | x :: l' => if p x then x :: take_while p l' else []
  end.

Fixpoint drop_while {A} (p : A -> bool) (l : list A) : list A :=
  match l with
  | [] => []
  | x :: l' => if p x then drop_while p l' else l
  end.

(** ** Regular expressions of the source

    The source tests, searches and rewrites strings with RegExp literals.
    A literal is written here as a term of [re]; [step] is the
    backtracking matcher of the language (leftmost alternative first,
    greedy quantifiers), and [exec], [test], [matchAll] and [replace] are
    the library calls built on it. *)
Module Regex.

Inductive citem :=
| One (c : ascii)                (* a single character *)
| Range (lo hi : ascii)          (* lo-hi *)
| ClsW                           (* \w *)
| ClsD                           (* \d *)
| ClsS.                          (* \s *)

Inductive re :=
| Lit (c : ascii)                (* a literal character *)
| Dot                            (* .  : anything but a line terminator *)
| Cls (neg : bool) (items : list citem)   (* [...] and [^...] *)
| Eps
| Seq (r1 r2 : re)
| Alt (r1 r2 : re)
| Star (r : re)                  (* r*  (greedy) *)
| Group (n : nat) (r : re)       (* the n-th capturing group *)
| Bol                            (* ^ *)
| Eol                            (* $ *)
| WordB.                         (* \b *)

Record flags := Flags { fl_m : bool; fl_g : bool }.

Definition code (c : ascii) : nat := nat_of_ascii c.

Definition in_range (lo hi c : ascii) : bool :=
  (code lo <=? code c)%nat && (code c <=? code hi)%nat.

Definition is_digit (c : ascii) : bool := in_range "0" "9" c.

Definition is_alpha (c : ascii) : bool :=
  in_range "a" "z" c || in_range "A" "Z" c.

(** \w is [A-Za-z0-9_]. *)
Definition is_word (c : ascii) : bool :=
  is_alpha c || is_digit c || Ascii.eqb c "_".

(** Line terminators below 256: LF and CR. *)
Definition is_lineterm (c : ascii) : bool :=
  (code c =? 10)%nat || (code c =? 13)%nat.

(** \s below 256: TAB, LF, VT, FF, CR, SP and NBSP. *)
Definition is_space (c : ascii) : bool :=
  ((9 <=? code c)%nat && (code c <=? 13)%nat)
  || (code c =? 32)%nat || (code c =? 160)%nat.

Definition citem_mem (i : citem) (c : ascii) : bool :=
  match i with
  | One a => Ascii.eqb a c
  | Range lo hi => in_range lo hi c
  | ClsW => is_word c
  | ClsD => is_digit c
  | ClsS => is_space c
  end.

Definition cls_mem (neg : bool) (items : list citem) (c : ascii) : bool :=
  xorb neg (existsb (fun i => citem_mem i c) items).

(** r+ *)
Definition Plus (r : re) : re := Seq r (Star r).

Definition seqs (rs : list re) : re := foldr Seq Eps rs.

(** A run of literal characters. *)
Definition Str (s : string) : re := seqs (map Lit (list_ascii_of_string s)).

(** The matcher walks a state: the characters already passed (nearest
    first), the characters still ahead, and the captures made so far. *)
Record state := St {
  st_pre : list ascii;
  st_rest : list ascii;
  st_caps : gmap nat (list ascii)
}.

Definition at_bol (fl : flags) (pre : list ascii) : bool :=
  match pre with
  | [] => true
  | c :: _ => fl_m fl && is_lineterm c
  end.

Definition at_eol (fl : flags) (rest : list ascii) : bool :=
  match rest with
  | [] => true
  | c :: _ => fl_m fl && is_lineterm c
  end.

Definition word_side (l : list ascii) : bool :=
  match l with
  | [] => false
  | c :: _ => is_word c
  end.

Definition at_wordb (pre rest : list ascii) : bool :=
  xorb (word_side pre) (word_side rest).

Definition eat (p : ascii -> bool) (st : state) (k : state -> option state)
  : option state :=
  match st_rest st with
  | c :: rest' =>
      if p c then k (St (c :: st_pre st) rest' (st_caps st)) else None
  | [] => None
  end.

Definition consumed (before after : list ascii) : list ascii :=
  take (length before - length after) before.

(** The loop of a greedy star: one more round of [body] as long as the
    round moves forward, else the continuation. *)
Fixpoint star_loop (body : state -> (state -> option state) -> option state)
    (k : state -> option state) (fuel : nat) (st0 : state) {struct fuel}
  : option state :=
  match fuel with
  | O => k st0
  | S fuel' =>
      match body st0 (fun st' =>
              if (length (st_rest st') <? length (st_rest st0))%nat
              then star_loop body k fuel' st' else None) with
      | Some x => Some x
      | None => k st0
      end
  end.

Fixpoint step (fl : flags) (r : re) (st : state)
    (k : state -> option state) {struct r} : option state :=
  match r with
  | Lit c => eat (Ascii.eqb c) st k
  | Dot => eat (fun c => negb (is_lineterm c)) st k
  | Cls neg items => eat (cls_mem neg items) st k
  | Eps => k st
  | Seq r1 r2 => step fl r1 st (fun st' => step fl r2 st' k)
  | Alt r1 r2 =>
      match step fl r1 st k with
      | Some x => Some x
      | None => step fl r2 st k
      end
  | Star r' => star_loop (step fl r') k (S (length (st_rest st))) st
  | Group n r' =>
      step fl r' st (fun st' =>
        k (St (st_pre st') (st_rest st')
              (<[n := consumed (st_rest st) (st_rest st')]> (st_caps st'))))
  | Bol => if at_bol fl (st_pre st) then k st else None
  | Eol => if at_eol fl (st_rest st) then k st else None
  | WordB => if at_wordb (st_pre st) (st_rest st) then k st else None
  end.

(** What an expression matches, said without the matcher: [den fl r pre
    w post] when [r] matches the text [w] standing between [pre] (read
    backwards) and [post]. *)
Inductive den (fl : flags) : re -> list ascii -> list ascii -> list ascii -> Prop :=
| den_lit c pre post : den fl (Lit c) pre [c] post
| den_dot c pre post : is_lineterm c = false -> den fl Dot pre [c] post
| den_cls neg items c pre post :
    cls_mem neg items c = true -> den fl (Cls neg items) pre [c] post
| den_eps pre post : den fl Eps pre [] post
| den_seq r1 r2 pre w1 w2 post :
    den fl r1 pre w1 (w2 ++ post) ->
    den fl r2 (rev w1 ++ pre) w2 post ->
    den fl (Seq r1 r2) pre (w1 ++ w2) post
| den_alt_l r1 r2 pre w post : den fl r1 pre w post -> den fl (Alt r1 r2) pre w post
| den_alt_r r1 r2 pre w post : den fl r2 pre w post -> den fl (Alt r1 r2) pre w post
| den_star_nil r pre post : den fl (Star r) pre [] post
| den_star_cons r pre w1 w2 post :
    w1 <> [] ->
    den fl r pre w1 (w2 ++ post) ->
    den fl (Star r) (rev w1 ++ pre) w2 post ->
    den fl (Star r) pre (w1 ++ w2) post
| den_group n r pre w post : den fl r pre w post -> den fl (Group n r) pre w post
| den_bol pre post : at_bol fl pre = true -> den fl Bol pre [] post
| den_eol pre post : at_eol fl post = true -> den fl Eol pre [] post
| den_wordb pre post : at_wordb pre post = true -> den fl WordB pre [] post.

(** A match: where it starts, its text, what follows it, its groups. *)
Record rmatch := Match {
  m_before : list ascii;     (* characters before the match, nearest first *)
  m_text : list ascii;
  m_after : list ascii;
  m_groups : gmap nat (list ascii)
}.

Definition match_here (fl : flags) (r : re) (pre rest : list ascii)
  : option rmatch :=
  match step fl r (St pre rest ∅) Some with
  | Some st' =>
      Some (Match pre (consumed rest (st_rest st')) (st_rest st') (st_caps st'))
  | None => None
  end.

(** The leftmost match at or after the current position. *)
Fixpoint search (fl : flags) (r : re) (pre rest : list ascii)
  : option rmatch :=
  match match_here fl r pre rest with
  | Some m => Some m
  | None =>
      match rest with
      | [] => None
      | c :: rest' => search fl r (c :: pre) rest'
      end
  end.

(** [RegExp.prototype.exec] from index 0. *)
Definition exec (fl : flags) (r : re) (s : string) : option rmatch :=
  search fl r [] (list_ascii_of_string s).

(** [RegExp.prototype.test] from index 0. *)
Definition test (fl : flags) (r : re) (s : string) : bool :=
  bool_decide (is_Some (exec fl r s)).

(** The successive matches of a global expression, as the loop
    [while ((m = r.exec(data)))] sees them: each search resumes where the
    last match ended.  None of the expressions of the source matches the
    empty string; should one do so the walk moves on by one character. *)
Fixpoint matches_from (fl : flags) (r : re) (fuel : nat)
    (pre rest : list ascii) : list rmatch :=
  match fuel with
  | O => []
  | S fuel' =>
      match search fl r pre rest with
      | None => []
      | Some m =>
          match m_text m, m_after m with
          | [], [] => [m]
          | [], c :: rest' =>
              m :: matches_from fl r fuel' (c :: m_before m) rest'
          | _ :: _, _ =>
              m :: matches_from fl r fuel'
                     (rev (m_text m) ++ m_before m) (m_after m)
          end
      end
  end.

Definition matchAll (fl : flags) (r : re) (s : string) : list rmatch :=
  let l := list_ascii_of_string s in
  matches_from fl r (S (length l)) [] l.

(** The number of capturing groups of an expression. *)
Fixpoint max_group (r : re) : nat :=
  match r with
  | Group n r' => Nat.max n (max_group r')
  | Seq r1 r2 | Alt r1 r2 => Nat.max (max_group r1) (max_group r2)
  | Star r' => max_group r'
  | _ => O
  end.

Definition capture (m : rmatch) (n : nat) : list ascii :=
  default [] (m_groups m !! n).

Definition digit_of (c : ascii) : option nat :=
  if is_digit c then Some (code c - 48)%nat else None.

(** What a replacement text stands for at a match (GetSubstitution):
    $$ is a dollar, $& the match, $` the text before it, $' the text
    after it, $n and $nn the n-th group when the expression has that
    many groups; any other dollar stands for itself. *)
Fixpoint substitution (groups : nat) (m : rmatch) (by_ : list ascii)
  : list ascii :=
  match by_ with
  | [] => []
  | c :: tl =>
      if negb (Ascii.eqb c "$") then c :: substitution groups m tl
      else
        match tl with
        | [] => [c]
        | x :: tl' =>
            if Ascii.eqb x "$" then "$"%char :: substitution groups m tl'
            else if Ascii.eqb x "&" then (m_text m ++ substitution groups m tl')%list
            else if Ascii.eqb x "`" then (rev (m_before m) ++ substitution groups m tl')%list
            else if Ascii.eqb x "'" then (m_after m ++ substitution groups m tl')%list
            else
              match digit_of x with
              | None => c :: substitution groups m tl
              | Some d1 =>
                  let one :=
                    if (1 <=? d1)%nat && (d1 <=? groups)%nat
                    then (capture m d1 ++ substitution groups m tl')%list
                    else c :: substitution groups m tl in
                  match tl' with
                  | y :: tl'' =>
                      match digit_of y with
                      | Some d2 =>
                          let nn := (10 * d1 + d2)%nat in
                          if (1 <=? nn)%nat && (nn <=? groups)%nat
                          then (capture m nn ++ substitution groups m tl'')%list
                          else one
                      | None => one
                      end
                  | [] => one
                  end
              end
        end
  end.

(** [String.prototype.replace(r, by)]: the first match only, or every
    match when the expression is global. *)
Fixpoint splice (from : nat) (ms : list rmatch) (by_ : rmatch -> list ascii)
    (whole : list ascii) : list ascii :=
  match ms with
  | [] => drop from whole
  | m :: ms' =>
      let start := length (m_before m) in
      take (start - from) (drop from whole)
        ++ by_ m ++ splice (start + length (m_text m)) ms' by_ whole
  end.

Definition replace (fl : flags) (r : re) (by_ : string) (s : string) : string :=
  let l := list_ascii_of_string s in
  let ms := if fl_g fl then matches_from fl r (S (length l)) [] l
            else match search fl r [] l with Some m => [m] | None => [] end in
  string_of_list_ascii
    (splice 0 ms (fun m => substitution (max_group r) m (list_ascii_of_string by_)) l).

(** Two continuations that succeed at the same positions, whatever
    the captures. *)
Definition sim (k k' : state -> option state) : Prop :=
  forall p s c c', is_Some (k (St p s c)) <-> is_Some (k' (St p s c')).

(** A continuation succeeds at a position under some captures. *)
Definition accepts (k : state -> option state) (p s : list ascii) : Prop :=
  exists c, is_Some (k (St p s c)).

(** The matcher agrees with the denotation on an expression. *)
Definition step_ok (fl : flags) (r : re) : Prop :=
  forall k, sim k k -> forall p s c,
    is_Some (step fl r (St p s c) k) <->
    exists w post, s = (w ++ post)%list /\ den fl r p w post
                   /\ accepts k (rev w ++ p)%list post.

End Regex.


(** ** Values of the language *)
Module Js.

(** What a [throw] carries.  [ProcessExit] is no exception of the
    language: it stands for process.exit(code), which ends the program
    where it is called; no handler and no promise sees it. *)
Inductive error :=
| CordovaError (msg : string)
| TypeError (msg : string)
| IoError (msg : string)
| ProcessExit (code : Z).

Definition is_exit (e : error) : bool :=
  match e with ProcessExit _ => true | _ => false end.

(** A settled promise. *)
Inductive promise (A : Type) :=
| Resolved (a : A)
| Rejected (e : error).
Arguments Resolved {A} a.
Arguments Rejected {A} e.

Definition is_resolved {A} (p : promise A) : bool :=
  match p with Resolved _ => true | Rejected _ => false end.

Definition is_rejected {A} (p : promise A) : bool :=
  match p with Resolved _ => false | Rejected _ => true end.

(** Numbers: the result of [Number(text)].  A finite number is a
    double, kept as the rational it is equal to. *)
Inductive jsnum :=
| NaN
| Fin (q : Q)
| Inf (negative : bool).

(** The integer nearest to a/b for a positive b; of two that are
    equally near, the even one. *)
Definition round_half_even (a b : Z) : Z :=
  let fl := (a / b)%Z in
  match (2 * (a mod b) ?= b)%Z with
  | Lt => fl
  | Gt => (fl + 1)%Z
  | Eq => if Z.even fl then fl else (fl + 1)%Z
  end.

(** n/d divided by 2^e, as a fraction. *)
Definition scale2 (n d e : Z) : Z * Z :=
  if (0 <=? e)%Z then (n, d * 2 ^ e)%Z else (n * 2 ^ (- e), d)%Z.

(** The e with 2^e <= n/d < 2^(e+1), for positive n and d. *)
Definition binade (n d : Z) : Z :=
  let e0 := (Z.log2 n - Z.log2 d)%Z in
  let '(a, b) := scale2 n d e0 in
  if (b <=? a)%Z then e0 else (e0 - 1)%Z.

(** The double nearest to the positive rational n/d (IEEE 754 binary64,
    round to nearest, ties to even): a significand of 53 bits, the
    exponent of a normal number at least -1022, gradual underflow below,
    and Infinity from 2^1024 on. *)
Definition nearest_double (negative : bool) (n d : Z) : jsnum :=
  let e := Z.max (binade n d) (-1022) in
  let '(a, b) := scale2 n d (e - 52) in
  let m := round_half_even a b in
  let v := (inject_Z m * Qpower (2 # 1) (e - 52))%Q in
  if Qle_bool (Qpower (2 # 1) 1024) v then Inf negative
  else Fin (if negative then - v else v)%Q.

(** The Number value for a mathematical value. *)
Definition to_double (q : Q) : jsnum :=
  match Qnum q with
  | Z0 => Fin 0
  | Zpos n => nearest_double false (Zpos n) (Zpos (Qden q))
  | Zneg n => nearest_double true (Zpos n) (Zpos (Qden q))
  end.

(** [a < b] *)
Definition js_lt (a b : jsnum) : bool :=
  match a, b with
  | NaN, _ | _, NaN => false
  | Fin x, Fin y => negb (Qle_bool y x)
  | Fin _, Inf neg => negb neg
  | Inf neg, Fin _ => neg
  | Inf n1, Inf n2 => n1 && negb n2
  end.

(** [a >= b] *)
Definition js_ge (a b : jsnum) : bool :=
  match a, b with
  | NaN, _ | _, NaN => false
  | Fin x, Fin y => Qle_bool y x
  | Fin _, Inf neg => neg
  | Inf neg, Fin _ => negb neg
  | Inf n1, Inf n2 => negb n1 || n2
  end.

Definition of_Z (z : Z) : jsnum := Fin (inject_Z z).

(** Values an option bag holds; an object is named by its place in the
    heap, so that two holders of one object see each other's writes. *)
Inductive jsval :=
| VUndef
| VNull
| VBool (b : bool)
| VStr (s : string)
| VNum (z : Z)
| VRef (l : nat).

#[global] Instance jsval_eq_dec : EqDecision jsval.
Proof. solve_decision. Defined.

Definition truthy (v : jsval) : bool :=
  match v with
  | VUndef | VNull => false
  | VBool b => b
  | VStr s => negb (String.eqb s "")
  | VNum z => negb (z =? 0)%Z
  | VRef _ => true
  end.

Definition is_true (v : jsval) : bool :=       (* v === true *)
  match v with VBool true => true | _ => false end.

Definition digit_val (base : N) (c : ascii) : option N :=
  let n := N_of_ascii c in
  let v := if ((48 <=? n) && (n <=? 57))%N then Some (n - 48)%N
           else if ((97 <=? n) && (n <=? 102))%N then Some (n - 87)%N
           else if ((65 <=? n) && (n <=? 70))%N then Some (n - 55)%N
           else None in
  match v with
  | Some d => if (d <? base)%N then Some d else None
  | None => None
  end.

Fixpoint digits_acc (base : N) (acc : N) (l : list ascii) : option N :=
  match l with
  | [] => Some acc
  | c :: l' =>
      match digit_val base c with
      | Some d => digits_acc base (acc * base + d)%N l'
      | None => None
      end
  end.

(** The value of a run of digits; the empty run has value 0. *)
Definition digits (base : N) (l : list ascii) : option N :=
  digits_acc base 0%N l.

Definition nonempty_digits (base : N) (l : list ascii) : option N :=
  match l with
  | [] => None
  | _ => digits base l
  end.

Definition trim (l : list ascii) : list ascii :=
  rev (drop_while Regex.is_space (rev (drop_while Regex.is_space l))).

Definition split_at (p : ascii -> bool) (l : list ascii)
  : list ascii * option (list ascii) :=
  let a := take_while (fun c => negb (p c)) l in
  match drop_while (fun c => negb (p c)) l with
  | [] => (a, None)
  | _ :: b => (a, Some b)
  end.

Definition strip_sign (l : list ascii) : bool * list ascii :=
  match l with
  | "+"%char :: l' => (false, l')
  | "-"%char :: l' => (true, l')
  | _ => (false, l)
  end.

Definition is_e (c : ascii) : bool := Ascii.eqb c "e" || Ascii.eqb c "E".

Definition pow10 (e : Z) : Q := Qpower (10 # 1) e.

(** DecimalDigits [. DecimalDigits] [ExponentPart], or . DecimalDigits
    [ExponentPart]. *)
Definition unsigned_decimal (l : list ascii) : option Q :=
  let '(mant, ex) := split_at is_e l in
  let '(ip, fp) := split_at (Ascii.eqb ".") mant in
  let fp' := default [] fp in
  match ip, fp' with
  | [], [] => None
  | _, _ =>
      match digits 10 ip, digits 10 fp' with
      | Some i, Some f =>
          let m := (inject_Z (Z.of_N i)
                    + inject_Z (Z.of_N f) * pow10 (- Z.of_nat (length fp')))%Q in
          match ex with
          | None => Some m
          | Some e =>
              let '(neg, ed) := strip_sign e in
              match nonempty_digits 10 ed with
              | Some n =>
                  Some (m * pow10 (if neg then - Z.of_N n else Z.of_N n))%Q
              | None => None
              end
          end
      | _, _ => None
      end
  end.

Definition radix_literal (l : list ascii) : option (option N) :=
  match l with
  | "0"%char :: x :: ds =>
      if Ascii.eqb x "x" || Ascii.eqb x "X" then Some (nonempty_digits 16 ds)
      else if Ascii.eqb x "o" || Ascii.eqb x "O" then Some (nonempty_digits 8 ds)
      else if Ascii.eqb x "b" || Ascii.eqb x "B" then Some (nonempty_digits 2 ds)
      else None
  | _ => None
  end.

(** [Number(s)] for a string [s] (StringToNumber): blanks are trimmed,
    the empty text is 0, a text that is no numeric literal is NaN, and
    the value of a literal is rounded to the nearest double. *)
Definition Number (s : string) : jsnum :=
  let l := trim (list_ascii_of_string s) in
  match l with
  | [] => Fin 0
  | _ =>
      match radix_literal l with
      | Some (Some n) => to_double (inject_Z (Z.of_N n))
      | Some None => NaN
      | None =>
          let '(neg, body) := strip_sign l in
          if bool_decide (body = list_ascii_of_string "Infinity") then Inf neg
          else match unsigned_decimal body with
               | Some q => to_double (if neg then - q else q)%Q
               | None => NaN
               end
      end
  end.

End Js.


(** ** The disk, the shell and the process

    [fs], [path] and [shelljs] are libraries of the platform; they are
    modelled over a map from path to node.  Paths are kept in the form
    [path.join] yields, with [/] as separator: names with one separator
    between them, none of them empty, . or .. ([Behaviour.plain_path]).
    On such paths [join], [relative] and the lookups of the disk are
    those of the platform; a path in another spelling (a trailing
    separator, a leading ./, a .. to resolve) is not brought to this
    form, and names another entry of the map. *)
Module Node.
Import Js.

(** Modelled from the spec: the manifest document of
    lib/AndroidManifest (absent from the sources at hand), as the fields
    the system touches: package id, minimum and target SDK versions
    (stored as text), the debuggable flag and the launch activity's
    name. *)
Record AndroidManifest := MkManifest {
  packageId : string;
  minSdkVersion : string;
  targetSdkVersion : string;
  debuggable : bool;
  activityName : string
}.

Inductive content :=
| Text (s : string)
| Xml (doc : AndroidManifest).

Inductive node :=
| File (c : content)
| Dir
| Symlink (target : string).

(** A plugin as cordova-common's PluginInfo gives it to the platform. *)
Record PluginInfo := Plugin {
  plugin_id : string;
  getFrameworks : string -> list string
}.

(** Calls that leave this layer, in the order they are made. *)
Inductive call :=
| CheckReqsRun
| BuildRunClean (opts : jsval)
| PrepareClean (opts : jsval)
| ApiClean (opts : jsval) (snapshot : gmap nat (gmap string jsval))
| PMAddPlugin (platform : string) (plugin : PluginInfo) (opts : jsval)
    (snapshot : gmap nat (gmap string jsval))
| PMRemovePlugin (platform : string) (plugin : PluginInfo) (opts : jsval)
    (snapshot : gmap nat (gmap string jsval))
| PrepBuildFiles (builder : string)
| ForwardEventsTo (emitter : nat)
| SubscribeConsoleLogger.

Record world := World {
  files : gmap string node;
  shell_fatal : bool;                    (* shell.config.fatal *)
  emitted : list (string * string);      (* events.emit(name, text) *)
  console : list string;                 (* console.log and shell messages *)
  heap : gmap nat (gmap string jsval);   (* the objects of the program *)
  calls : list call
}.

Definition set_files (f : gmap string node -> gmap string node) (w : world) :=
  World (f (files w)) (shell_fatal w) (emitted w) (console w) (heap w) (calls w).
Definition set_fatal (b : bool) (w : world) :=
  World (files w) b (emitted w) (console w) (heap w) (calls w).
Definition add_emitted (e : string * string) (w : world) :=
  World (files w) (shell_fatal w) (emitted w ++ [e]) (console w) (heap w) (calls w).
Definition add_console (l : string) (w : world) :=
  World (files w) (shell_fatal w) (emitted w) (console w ++ [l]) (heap w) (calls w).
Definition set_heap (f : gmap nat (gmap string jsval) -> gmap nat (gmap string jsval))
    (w : world) :=
  World (files w) (shell_fatal w) (emitted w) (console w) (f (heap w)) (calls w).
Definition add_call (c : call) (w : world) :=
  World (files w) (shell_fatal w) (emitted w) (console w) (heap w) (calls w ++ [c]).

(** A computation either returns or throws, and leaves a world. *)
Inductive result (A : Type) :=
| Ret (a : A)
| Throw (e : error).
Arguments Ret {A} a.
Arguments Throw {A} e.

Definition M (A : Type) : Type := world -> result A * world.

Definition ret {A} (a : A) : M A := fun w => (Ret a, w).
Definition throw {A} (e : error) : M A := fun w => (Throw e, w).
Definition bind {A B} (m : M A) (f : A -> M B) : M B :=
  fun w => match m w with
           | (Ret a, w') => f a w'
           | (Throw e, w') => (Throw e, w')
           end.
Definition get_world : M world := fun w => (Ret w, w).
Definition modify (f : world -> world) : M unit := fun w => (Ret tt, f w).

(** try { m } catch (e) { h e }; the end of the process is nothing
    to catch. *)
Definition try_catch {A} (m : M A) (h : error -> M A) : M A :=
  fun w => match m w with
           | (Ret a, w') => (Ret a, w')
           | (Throw e, w') => if is_exit e then (Throw e, w') else h e w'
           end.

#[global] Instance M_ret : MRet M := @ret.
#[global] Instance M_bind : MBind M := fun A B f m => bind m f.

Notation "x <- m ;; k" := (bind m (fun x => k))
  (at level 100, m at next level, k at level 200, right associativity).

(** p.then(f): [f] runs when [p] resolved; what [f] throws rejects the
    promise, the promise [f] returns is adopted.  When the process ends
    inside [f] there is no promise. *)
Definition then_ {A B} (p : M (promise A)) (f : A -> M (promise B))
  : M (promise B) :=
  fun w => match p w with
           | (Ret (Resolved a), w1) =>
               match f a w1 with
               | (Ret q, w2) => (Ret q, w2)
               | (Throw e, w2) =>
                   if is_exit e then (Throw e, w2) else (Ret (Rejected e), w2)
               end
           | (Ret (Rejected e), w1) => (Ret (Rejected e), w1)
           | (Throw e, w1) => (Throw e, w1)
           end.

(** p.thenResolve(v) *)
Definition thenResolve {A B} (p : M (promise A)) (v : B) : M (promise B) :=
  then_ p (fun _ => ret (Resolved v)).

(** Q(), Q.resolve(v) and Q.reject(e) *)
Definition Q_ : M (promise unit) := ret (Resolved tt).
Definition Q_resolve {A} (a : A) : promise A := Resolved a.
Definition Q_reject {A} (e : error) : promise A := Rejected e.

(** *** path *)

Definition sep : string := "/".

Definition join2 (a b : string) : string :=
  if String.eqb a "" then b
  else if String.eqb b "" then a
  else a ++ sep ++ b.

(** path.join(a, b, ...), for parts in plain form: the parts that are
    not empty, with a separator between them. *)
Definition join (parts : list string) : string := foldl join2 "" parts.

Definition is_slash (c : ascii) : bool := Ascii.eqb c "/".

Definition basename (p : string) : string :=
  string_of_list_ascii
    (rev (take_while (fun c => negb (is_slash c)) (rev (list_ascii_of_string p)))).

Definition dirname (p : string) : string :=
  string_of_list_ascii
    (rev (drop 1 (drop_while (fun c => negb (is_slash c))
                    (rev (list_ascii_of_string p))))).

Definition is_absolute (p : string) : bool := String.prefix "/" p.

(** path.resolve(p) against the working directory. *)
Definition resolve (cwd p : string) : string :=
  if is_absolute p then p else join2 cwd p.

(** What is left of [p] after the leading [a], if [p] starts with [a]. *)
Fixpoint strip_prefix (a p : string) : option string :=
  match a, p with
  | "", _ => Some p
  | String c a', String d p' =>
      if Ascii.eqb c d then strip_prefix a' p' else None
  | String _ _, "" => None
  end.

(** path.relative(from, p) for a plain [p] at or below [from], or
    already relative; a path elsewhere is kept as it is (it names the
    same file, under another name than the platform gives it). *)
Definition relative (from p : string) : string :=
  match strip_prefix from p with
  | Some "" => ""
  | Some (String c rest) => if is_slash c then rest else p
  | None => p
  end.

(** [p] is [d] or lies below it. *)
Definition under (d p : string) : bool :=
  match strip_prefix d p with
  | Some "" => true
  | Some (String c _) => is_slash c
  | None => false
  end.

(** The path itself and the directories above it, outermost first. *)
Fixpoint ancestors_from (pre rest : list ascii) : list string :=
  match rest with
  | [] => [string_of_list_ascii (rev pre)]
  | c :: rest' =>
      (if is_slash c && negb (bool_decide (pre = []))
       then [string_of_list_ascii (rev pre)] else [])
      ++ ancestors_from (c :: pre) rest'
  end.

Definition ancestors (p : string) : list string :=
  ancestors_from [] (list_ascii_of_string p).

(** *** fs *)

Definition is_dir (fs : gmap string node) (p : string) : bool :=
  match fs !! p with Some Dir => true | _ => false end.

Definition exists_ (fs : gmap string node) (p : string) : bool :=
  bool_decide (is_Some (fs !! p)).

(** The directory a new entry at [p] goes into is there. *)
Definition parent_ok (fs : gmap string node) (p : string) : bool :=
  String.eqb (dirname p) "" || is_dir fs (dirname p).

Definition existsSync (p : string) : M bool :=
  fun w => (Ret (exists_ (files w) p), w).

Definition readFileSync (p : string) : M string :=
  fun w => match files w !! p with
           | Some (File (Text s)) => (Ret s, w)
           | _ => (Throw (IoError ("ENOENT: " ++ p)), w)
           end.

Definition writable (fs : gmap string node) (p : string) : bool :=
  parent_ok fs p &&
  match fs !! p with Some Dir => false | _ => negb (String.eqb p "") end.

Definition writeFileSync (p : string) (data : string) : M unit :=
  fun w => if writable (files w) p
           then (Ret tt, set_files (<[p := File (Text data)]>) w)
           else (Throw (IoError ("cannot write " ++ p)), w).

Definition unlinkSync (p : string) : M unit :=
  fun w => match files w !! p with
           | Some (File _) | Some (Symlink _) =>
               (Ret tt, set_files (delete p) w)
           | _ => (Throw (IoError ("cannot unlink " ++ p)), w)
           end.

Definition symlinkSync (target p : string) : M unit :=
  fun w => if negb (exists_ (files w) p) && parent_ok (files w) p
                && negb (String.eqb p "")
           then (Ret tt, set_files (<[p := Symlink target]>) w)
           else (Throw (IoError ("cannot link " ++ p)), w).

Definition console_log (msg : string) : M unit := modify (add_console msg).

End Node.

(** ** shelljs

    The commands the scripts use, with the behaviour of the library
    (shelljs 0.5): a command that fails prints its message and goes on,
    unless [shell.config.fatal] is set, in which case it ends the
    process with process.exit(1). *)
Module Shell.
Import Js Node.

Definition shell_error (msg : string) : M unit :=
  fun w => if shell_fatal w
           then (Throw (ProcessExit 1), add_console msg w)
           else (Ret tt, add_console msg w).

(** A pattern with at most one [*], which stands for any run of
    characters other than [/]. *)
Definition glob_match (pat p : string) : bool :=
  let lp := list_ascii_of_string pat in
  let l := list_ascii_of_string p in
  let pre := take_while (fun c => negb (Ascii.eqb c "*")) lp in
  match drop_while (fun c => negb (Ascii.eqb c "*")) lp with
  | [] => bool_decide (lp = l)
  | _ :: post =>
      (length pre + length post <=? length l)%nat
      && bool_decide (take (length pre) l = pre)
      && bool_decide (drop (length l - length post) l = post)
      && forallb (fun c => negb (is_slash c))
           (take (length l - length pre - length post) (drop (length pre) l))
  end.

Definition has_star (pat : string) : bool :=
  existsb (fun c => Ascii.eqb c "*") (list_ascii_of_string pat).

Definition expand (pat : string) (fs : gmap string node) : list string :=
  if has_star pat
  then filter (fun p => glob_match pat p = true) (map fst (map_to_list fs))
  else [pat].

(** shell.mkdir(p) *)
Definition mkdir (p : string) : M unit :=
  w <- get_world;;
  if exists_ (files w) p then shell_error ("path already exists: " ++ p)
  else if negb (parent_ok (files w) p)
       then shell_error ("no such file or directory: " ++ dirname p)
       else modify (set_files (<[p := Dir]>)).

Fixpoint mkdirs (ps : list string) (fs : gmap string node)
  : option (gmap string node) :=
  match ps with
  | [] => Some fs
  | a :: ps' =>
      match fs !! a with
      | None => mkdirs ps' (<[a := Dir]> fs)
      | Some (File _) => None
      | Some _ => mkdirs ps' fs
      end
  end.

(** shell.mkdir('-p', p) *)
Definition mkdir_p (p : string) : M unit :=
  w <- get_world;;
  match mkdirs (ancestors p) (files w) with
  | Some fs' => modify (set_files (fun _ => fs'))
  | None => shell_error ("cannot create directory: " ++ p)
  end.

(** The part of [p] after [src], when [p] lies strictly below [src]. *)
Definition below (src p : string) : option string :=
  match strip_prefix src p with
  | Some (String c rest) => if is_slash c then Some (String c rest) else None
  | _ => None
  end.

Definition copy_entry (force : bool) (src dst : string)
    (e : string * node) (acc : gmap string node) : gmap string node :=
  match below src e.1 with
  | Some suffix =>
      let t := dst ++ suffix in
      match acc !! t, e.2 with
      | None, n => <[t := n]> acc
      | Some (File _), File c => if force then <[t := File c]> acc else acc
      | Some _, _ => acc
      end
  | None => acc
  end.

(** The tree below [src] laid over [dst]; a file already there is kept
    unless [force]. *)
Definition copy_tree (force : bool) (src dst : string)
    (fs : gmap string node) : gmap string node :=
  foldr (copy_entry force src dst) fs (map_to_list fs).

Definition cp_one (recursive force : bool) (dest src : string) : M unit :=
  w <- get_world;;
  match files w !! src with
  | Some Dir =>
      if negb recursive then console_log (src ++ " is a directory (not copied)")
      else
        let newDest := join2 dest (basename src) in
        (if exists_ (files w) newDest then mret tt
         else if parent_ok (files w) newDest
              then modify (set_files (<[newDest := Dir]>))
              else (shell_error ("dest file no such file or directory: " ++ newDest);;
                    throw (IoError ("ENOENT: " ++ newDest))));;
        modify (set_files (copy_tree force src newDest))
  | Some (File c) =>
      let thisDest :=
        if is_dir (files w) dest then join2 dest (basename src) else dest in
      if exists_ (files w) thisDest && negb force
      then shell_error ("dest file already exists: " ++ thisDest)
      else if writable (files w) thisDest
           then modify (set_files (<[thisDest := File c]>))
           else shell_error ("copyFileSync: could not write to dest file: " ++ thisDest)
  | _ => shell_error ("no such file or directory: " ++ src)
  end.

Fixpoint for_each {A} (l : list A) (f : A -> M unit) : M unit :=
  match l with
  | [] => mret tt
  | x :: l' => f x;; for_each l' f
  end.

(** A command runs inside the wrapper of the library: what it throws
    after it reported an error ends the command, and goes no further
    unless [shell.config.fatal] is set, in which case the report has
    ended the process. *)
Definition wrap (m : M unit) : M unit := try_catch m (fun _ => mret tt).

(** shell.cp(options, source, dest), one source argument. *)
Definition cp (recursive force : bool) (source dest : string) : M unit :=
  wrap (
    w <- get_world;;
    match files w !! dest with
    | Some (File _) =>
        if negb force then shell_error ("dest file already exists: " ++ dest)
        else for_each (expand source (files w)) (cp_one recursive force dest)
    | _ =>
        (if recursive && negb (exists_ (files w) dest) && parent_ok (files w) dest
         then modify (set_files (<[dest := Dir]>)) else mret tt);;
        for_each (expand source (files w)) (cp_one recursive force dest)
    end).

(** shell.rm('-rf', p) *)
Definition rm_rf (p : string) : M unit :=
  modify (set_files (filter (fun kv => under p kv.1 = false))).

(** shell.rm('-f', p) *)
Definition rm_f (p : string) : M unit :=
  w <- get_world;;
  match files w !! p with
  | Some Dir => shell_error ("path is a directory: " ++ p)
  | Some _ => modify (set_files (delete p))
  | None => mret tt
  end.

(** shell.ls(pattern) *)
Definition ls (pat : string) : M (list string) :=
  w <- get_world;;
  match filter (fun p => exists_ (files w) p = true) (expand pat (files w)) with
  | [] => shell_error ("no such file or directory: " ++ pat);; mret []
  | l => mret l
  end.

(** shell.sed('-i', r, replacement, file): the text of the file with
    its first match replaced, through String.prototype.replace. *)
Definition sed_i (r : Regex.re) (replacement file : string) : M unit :=
  w <- get_world;;
  match files w !! file with
  | Some (File (Text s)) =>
      modify (set_files
        (<[file := File (Text (Regex.replace (Regex.Flags false false) r replacement s))]>))
  | _ => shell_error ("no such file or directory: " ++ file)
  end.

End Shell.

(** ** lib/AndroidManifest *)
Module Manifest.
Import Js Node.

(** Modelled from the spec: a manifest loaded from a path, changed
    through its accessors and persisted by an explicit write, which
    defaults to the path it was loaded from.  (lib/AndroidManifest is
    absent from the sources at hand.) *)
Record t := Obj { path : string; doc : AndroidManifest }.

Definition new (p : string) : M t :=
  fun w => match files w !! p with
           | Some (File (Xml d)) => (Ret (Obj p d), w)
           | _ => (Throw (IoError ("cannot parse " ++ p)), w)
           end.

Definition getPackageId (m : t) : string := packageId (doc m).
Definition getMinSdkVersion (m : t) : string := minSdkVersion (doc m).
Definition getActivityName (m : t) : string := activityName (doc m).

Definition setPackageId (v : string) (m : t) : t :=
  Obj (path m) (MkManifest v (minSdkVersion (doc m)) (targetSdkVersion (doc m))
                  (debuggable (doc m)) (activityName (doc m))).
Definition setMinSdkVersion (v : string) (m : t) : t :=
  Obj (path m) (MkManifest (packageId (doc m)) v (targetSdkVersion (doc m))
                  (debuggable (doc m)) (activityName (doc m))).
Definition setTargetSdkVersion (v : string) (m : t) : t :=
  Obj (path m) (MkManifest (packageId (doc m)) (minSdkVersion (doc m)) v
                  (debuggable (doc m)) (activityName (doc m))).
Definition setDebuggable (v : bool) (m : t) : t :=
  Obj (path m) (MkManifest (packageId (doc m)) (minSdkVersion (doc m))
                  (targetSdkVersion (doc m)) v (activityName (doc m))).
Definition setActivityName (v : string) (m : t) : t :=
  Obj (path m) (MkManifest (packageId (doc m)) (minSdkVersion (doc m))
                  (targetSdkVersion (doc m)) (debuggable (doc m)) v).

(** manifest.write(dest) and manifest.write() *)
Definition write (dest : option string) (m : t) : M unit :=
  let p := default (path m) dest in
  fun w => if writable (files w) p
           then (Ret tt, set_files (<[p := File (Xml (doc m))]>) w)
           else (Throw (IoError ("cannot write " ++ p)), w).

End Manifest.

(** ** bin/lib/create.js *)
Module Create.
Import Js Node Shell Regex.

(** What the script takes from its surroundings. *)
Record env := Env {
  ROOT : string;              (* path.join(__dirname, '..', '..') *)
  cwd : string;               (* process.cwd() *)
  get_target : string;        (* check_reqs.get_target() *)
  pkg_name : string;          (* require('../../package').name *)
  pkg_version : string;       (* require('../../package').version *)
  (* what the project's gradle builder does to the disk in prepBuildFiles *)
  builder_prepBuildFiles : string -> gmap string node -> result (gmap string node)
}.

(** The answers of the ConfigParser handed to [create].  Its accessors
    are taken to return: what they, or check_reqs.get_target, would
    throw leaves [create] before there is a promise, and is no part of
    this model. *)
Record ConfigParser := Config {
  packageName : option string;
  name : option string;
  android_activityName : option string
}.

Record options := Options {
  activityName : option string;
  link : bool;
  customTemplate : option string
}.

Definition no_options : options := Options None false None.

(** a || b on texts that may be undefined: the empty text is falsy. *)
Definition js_or (a : option string) (b : string) : string :=
  match a with
  | Some s => if String.eqb s "" then b else s
  | None => b
  end.

Definition js_or_opt (a b : option string) : option string :=
  match a with
  | Some s => if String.eqb s "" then b else a
  | None => b
  end.

Definition show_nat (n : nat) : string := NilEmpty.string_of_uint (Nat.to_uint n).
Definition show_Z (z : Z) : string := NilZero.string_of_int (Z.to_int z).

Definition QUOTE : string := String "034"%char "".
Definition LF : string := String "010"%char "".
Definition TAB : string := String "009"%char "".

Definition emit (event text : string) : M unit := modify (add_emitted (event, text)).

Definition MIN_SDK_VERSION : Z := 16.

Definition setShellFatal (value : bool) (func : M unit) : M unit :=
  w <- get_world;;
  let oldVal := shell_fatal w in
  modify (set_fatal value);;
  func;;
  modify (set_fatal oldVal).

Definition getFrameworkDir (e : env) (projectPath : string) (shared : bool) : string :=
  if shared then join [ROOT e; "framework"] else join [projectPath; "CordovaLib"].

Definition copyJsAndLibrary (e : env) (projectPath : string) (shared : bool)
    (projectName : string) : M unit :=
  let nestedCordovaLibPath := getFrameworkDir e projectPath false in
  let srcCordovaJsPath :=
    join [ROOT e; "bin"; "templates"; "project"; "assets"; "www"; "cordova.js"] in
  cp false true srcCordovaJsPath (join [projectPath; "assets"; "www"; "cordova.js"]);;
  mkdir_p (join [projectPath; "platform_www"]);;
  cp false true srcCordovaJsPath (join [projectPath; "platform_www"]);;
  cp true true (join [ROOT e; "cordova-js-src"]) (join [projectPath; "platform_www"]);;
  setShellFatal false (
    oldJars <- ls (join [projectPath; "libs"; "cordova-*.jar"]);;
    for_each oldJars (fun oldJar =>
      console_log ("Deleting " ++ oldJar);;
      rm_f oldJar);;
    wasSymlink <- try_catch (unlinkSync nestedCordovaLibPath;; mret true)
                            (fun _ => mret false);;
    if shared then rm_rf nestedCordovaLibPath
    else if negb wasSymlink then rm_rf (join [nestedCordovaLibPath; "src"])
    else mret tt);;
  if shared then
    let relativeFrameworkPath :=
      relative projectPath (getFrameworkDir e projectPath true) in
    symlinkSync relativeFrameworkPath nestedCordovaLibPath
  else
    mkdir_p nestedCordovaLibPath;;
    cp false true (join [ROOT e; "framework"; "AndroidManifest.xml"]) nestedCordovaLibPath;;
    cp false true (join [ROOT e; "framework"; "project.properties"]) nestedCordovaLibPath;;
    cp false true (join [ROOT e; "framework"; "build.gradle"]) nestedCordovaLibPath;;
    cp false true (join [ROOT e; "framework"; "cordova.gradle"]) nestedCordovaLibPath;;
    cp true false (join [ROOT e; "framework"; "src"]) nestedCordovaLibPath;;
    cp false true (join [ROOT e; "framework"; "gradlew"]) nestedCordovaLibPath;;
    cp true false (join [ROOT e; "framework"; "gradle"]) nestedCordovaLibPath.

(** The literal "/^\s*android\.library\.reference\.\d+=(.*" ")(?:\s|$)/mg"
    (one literal, cut in two here). *)
Definition LIB_REF : re :=
  seqs [Bol; Star (Cls false [ClsS]); Str "android.library.reference.";
        Plus (Cls false [ClsD]); Lit "="; Group 1 (Star Dot);
        Alt (Cls false [ClsS]) Eol].

(** Keys of an object literal after [ret[k] = 1] for each [k] in
    turn, in the order Object.keys lists them: the keys that are array
    indices first, by value, then the others as they were first set.
    Setting __proto__ to a number sets no property of the object. *)
Fixpoint nub (l : list string) : list string :=
  match l with
  | [] => []
  | x :: l' => x :: filter (fun y => y ≠ x) (nub l')
  end.

Definition is_array_index (k : string) : bool :=
  let l := list_ascii_of_string k in
  match l with
  | [] => false
  | c :: l' =>
      forallb is_digit l
      && (negb (Ascii.eqb c "0") || bool_decide (l' = []))
      && match digits 10 l with
         | Some n => (n <? 4294967295)%N
         | None => false
         end
  end.

Definition index_of (k : string) : N :=
  default 0%N (digits 10 (list_ascii_of_string k)).

Fixpoint insert_by_index (k : string) (l : list string) : list string :=
  match l with
  | [] => [k]
  | x :: l' => if (index_of k <=? index_of x)%N then k :: l
               else x :: insert_by_index k l'
  end.

Definition Object_keys (set_in_order : list string) : list string :=
  let ks := nub (filter (fun k => k ≠ "__proto__") set_in_order) in
  foldr insert_by_index [] (filter (fun k => is_array_index k = true) ks)
    ++ filter (fun k => is_array_index k = false) ks.

Definition group1 (m : rmatch) : string :=
  string_of_list_ascii (default [] (m_groups m !! 1%nat)).

Definition extractSubProjectPaths (data : string) : list string :=
  Object_keys (map group1 (matchAll (Flags true true) LIB_REF data)).

(** The literal "/^target=.*/m". *)
Definition TARGET_LINE : re := seqs [Bol; Str "target="; Star Dot].

(** The literal "/^CordovaLib$/m". *)
Definition STALE_NESTED : re := seqs [Bol; Str "CordovaLib"; Eol].

(** The literal "/[\\\/]cordova-android[\\\/]framework$/m". *)
Definition STALE_SHARED : re :=
  seqs [Cls false [One "\"; One "/"]; Str "cordova-android";
        Cls false [One "\"; One "/"]; Str "framework"; Eol].

(** The literal "/^(\.\.[\\\/])+framework$/m". *)
Definition STALE_RELATIVE : re :=
  seqs [Bol; Plus (Group 1 (seqs [Lit "."; Lit "."; Cls false [One "\"; One "/"]]));
        Str "framework"; Eol].

(** The literal "/^\s*android\.library\.reference\.\d+=.*\n/mg". *)
Definition LIB_REF_LINE : re :=
  seqs [Bol; Star (Cls false [ClsS]); Str "android.library.reference.";
        Plus (Cls false [ClsD]); Lit "="; Star Dot; Lit "010"].

(** The literal "/\n$/". *)
Definition ENDS_WITH_LF : re := seqs [Lit "010"; Eol].

Fixpoint append_references (i : nat) (subProjects : list string) (data : string)
  : string :=
  match subProjects with
  | [] => data
  | p :: rest =>
      append_references (S i) rest
        (data ++ "android.library.reference." ++ show_nat (i + 1) ++ "=" ++ p ++ LF)
  end.

(** The text [writeProjectProperties] writes, from the text it read. *)
Definition updatedProperties (data target_api : string) : string :=
  let data := replace (Flags true false) TARGET_LINE ("target=" ++ target_api) data in
  let subProjects := extractSubProjectPaths data in
  let subProjects :=
    List.filter (fun p =>
      negb (test (Flags true false) STALE_NESTED p
            || test (Flags true false) STALE_SHARED p
            || test (Flags true false) STALE_RELATIVE p)) subProjects in
  let subProjects := "CordovaLib" :: subProjects in
  let data := replace (Flags true true) LIB_REF_LINE "" data in
  let data := if test (Flags false false) ENDS_WITH_LF data then data else data ++ LF in
  append_references 0 subProjects data.

Definition writeProjectProperties (e : env) (projectPath target_api : string)
  : M unit :=
  let dstPath := join [projectPath; "project.properties"] in
  let templatePath := join [ROOT e; "bin"; "templates"; "project"; "project.properties"] in
  ex <- existsSync dstPath;;
  let srcPath := if ex then dstPath else templatePath in
  data <- readFileSync srcPath;;
  writeFileSync dstPath (updatedProperties data target_api).

(** getBuilder(builder).prepBuildFiles() of the scripts of a project. *)
Definition getBuilder_prepBuildFiles (e : env) (builder projectPath : string)
  : M unit :=
  fun w => match builder_prepBuildFiles e projectPath (files w) with
           | Ret fs' => (Ret tt, set_files (fun _ => fs') (add_call (PrepBuildFiles builder) w))
           | Throw err => (Throw err, add_call (PrepBuildFiles builder) w)
           end.

Definition prepBuildFiles (e : env) (projectPath : string) : M unit :=
  ex <- existsSync (join [projectPath; "cordova"; "lib"; "builders"; "builders.js"]);;
  if negb ex then throw (IoError "Cannot find module builders")
  else getBuilder_prepBuildFiles e "gradle" projectPath.

Definition copyBuildRules (e : env) (projectPath : string) : M unit :=
  let srcDir := join [ROOT e; "bin"; "templates"; "project"] in
  cp false true (join [srcDir; "build.gradle"]) projectPath.

Definition copyScripts (e : env) (projectPath : string) : M unit :=
  let srcScriptsDir := join [ROOT e; "bin"; "templates"; "cordova"] in
  let destScriptsDir := join [projectPath; "cordova"] in
  rm_rf destScriptsDir;;
  cp true false srcScriptsDir projectPath;;
  cp true false (join [ROOT e; "node_modules"]) destScriptsDir;;
  cp false false (join [ROOT e; "bin"; "check_reqs*"]) destScriptsDir;;
  cp false false (join [ROOT e; "bin"; "lib"; "check_reqs.js"])
     (join [projectPath; "cordova"; "lib"; "check_reqs.js"]);;
  cp false false (join [ROOT e; "bin"; "android_sdk_version"])
     (join [destScriptsDir; "android_sdk_version"]);;
  cp false false (join [ROOT e; "bin"; "lib"; "android_sdk_version.js"])
     (join [projectPath; "cordova"; "lib"; "android_sdk_version.js"]).

(** The literal "/^[a-zA-Z][a-zA-Z0-9_]+(\.[a-zA-Z][a-zA-Z0-9_]*" ")+$/"
    (one literal, cut in two here). *)
Definition PACKAGE_NAME_RE : re :=
  seqs [Bol;
        Cls false [Range "a" "z"; Range "A" "Z"];
        Plus (Cls false [Range "a" "z"; Range "A" "Z"; Range "0" "9"; One "_"]);
        Plus (Group 1 (seqs [Lit ".";
                             Cls false [Range "a" "z"; Range "A" "Z"];
                             Star (Cls false [Range "a" "z"; Range "A" "Z";
                                              Range "0" "9"; One "_"])]));
        Eol].

(** The literal "/\b[Cc]lass\b/". *)
Definition CLASS_RE : re :=
  seqs [WordB; Cls false [One "C"; One "c"]; Str "lass"; WordB].

Definition validatePackageName (package_name : string) : promise unit :=
  let msg := "Error validating package name. " in
  if negb (test (Flags false false) PACKAGE_NAME_RE package_name)
  then Q_reject (CordovaError (msg ++ "Package name must look like: com.company.Name"))
  else if test (Flags false false) CLASS_RE package_name
  then Q_reject (CordovaError (msg ++ QUOTE ++ "class" ++ QUOTE ++ " is a reserved word"))
  else Q_resolve tt.

(** The literal "/^[0-9]/". *)
Definition LEADING_DIGIT : re := seqs [Bol; Cls false [Range "0" "9"]].

Definition validateProjectName (project_name : string) : promise unit :=
  let msg := "Error validating project name. " in
  if String.eqb project_name ""
  then Q_reject (CordovaError (msg ++ "Project name cannot be empty"))
  else if String.eqb project_name "CordovaActivity"
  then Q_reject (CordovaError (msg ++ "Project name cannot be CordovaActivity"))
  else if test (Flags false false) LEADING_DIGIT project_name
  then Q_reject (CordovaError (msg ++ "Project name must not begin with a number"))
  else Q_resolve tt.

(** The literal "/[^\w.]/g". *)
Definition NOT_WORD_OR_DOT : re := Cls true [ClsW; One "."].

(** The literal "/\./g". *)
Definition EVERY_DOT : re := Lit ".".

Definition split_on (c : ascii) (s : string) : list string :=
  (fix go (cur : list ascii) (l : list ascii) : list string :=
     match l with
     | [] => [string_of_list_ascii (rev cur)]
     | x :: l' => if Ascii.eqb x c then string_of_list_ascii (rev cur) :: go [] l'
                  else go (x :: cur) l'
     end) [] (list_ascii_of_string s).

Definition generateDoneMessage (e : env) (type : string) (link : bool) : string :=
  let msg := "Android project "
             ++ (if String.eqb type "update" then "updated " else "created ")
             ++ "with " ++ pkg_name e ++ "@" ++ pkg_version e in
  if link then msg ++ " and has a linked CordovaLib" else msg.

Definition create (e : env) (project_path : option string)
    (config : ConfigParser) (options : option options) : M (promise string) :=
  let options := default no_options options in
  (* Set default values for path, package and name *)
  let project_path := relative (cwd e) (js_or project_path "CordovaExample") in
  (* Check if project already exists *)
  ex <- existsSync project_path;;
  if ex
  then mret (Q_reject (CordovaError "Project already exists! Delete and recreate"))
  else
  let package_name := js_or (packageName config) "my.cordova.project" in
  let project_name :=
    match js_or_opt (name config) None with
    | Some n => replace (Flags false true) NOT_WORD_OR_DOT "_" n
    | None => "CordovaExample"
    end in
  let safe_activity_name :=
    js_or (js_or_opt (android_activityName config) (activityName options))
          "MainActivity" in
  let target_api := get_target e in
  thenResolve
    (then_
      (then_ (mret (validatePackageName package_name))
        (fun _ =>
           (* the promise of validateProjectName is not returned *)
           let _ := validateProjectName project_name in
           mret (Resolved tt)))
      (fun _ =>
         emit "log" "Creating Cordova project for the Android platform:";;
         emit "log" (TAB ++ "Path: " ++ project_path);;
         emit "log" (TAB ++ "Package: " ++ package_name);;
         emit "log" (TAB ++ "Name: " ++ project_name);;
         emit "log" (TAB ++ "Activity: " ++ safe_activity_name);;
         emit "log" (TAB ++ "Android target: " ++ target_api);;
         emit "verbose" ("Copying android template project to " ++ project_path);;
         setShellFatal true (
           let project_template_dir :=
             js_or (customTemplate options)
                   (join [ROOT e; "bin"; "templates"; "project"]) in
           (* copy project template *)
           cp true false (join [project_template_dir; "assets"]) project_path;;
           cp true false (join [project_template_dir; "res"]) project_path;;
           cp false false (join [project_template_dir; "gitignore"])
              (join [project_path; ".gitignore"]);;
           mkdir (join [project_path; "libs"]);;
           (* copy cordova.js, cordova.jar *)
           copyJsAndLibrary e project_path (link options) safe_activity_name;;
           (* Set up the Android Studio paths *)
           let app_path := join [project_path; "app"; "src"; "main"] in
           let java_path := join [app_path; "java"] in
           let assets_path := join [app_path; "assets"] in
           let resource_path := join [app_path; "res"] in
           mkdir_p java_path;;
           mkdir_p assets_path;;
           mkdir_p resource_path;;
           (* interpolate the activity name and package *)
           let packagePath := replace (Flags false true) EVERY_DOT sep package_name in
           let activity_dir := join [java_path; packagePath] in
           let activity_path := join [activity_dir; safe_activity_name ++ ".java"] in
           mkdir_p activity_dir;;
           cp false true (join [project_template_dir; "Activity.java"]) activity_path;;
           sed_i (Str "__ACTIVITY__") safe_activity_name activity_path;;
           sed_i (Str "__NAME__") project_name
                 (join [project_path; "res"; "values"; "strings.xml"]);;
           sed_i (Str "__ID__") package_name activity_path;;
           manifest <- Manifest.new (join [project_template_dir; "AndroidManifest.xml"]);;
           let manifest :=
             Manifest.setActivityName safe_activity_name
               (Manifest.setTargetSdkVersion
                  (default "" (split_on "-" target_api !! 1%nat))
                  (Manifest.setPackageId package_name manifest)) in
           let manifest_path := join [app_path; "AndroidManifest.xml"] in
           Manifest.write (Some manifest_path) manifest;;
           copyScripts e project_path;;
           copyBuildRules e project_path);;
         (* Link it to local android install. *)
         writeProjectProperties e project_path target_api;;
         prepBuildFiles e project_path;;
         emit "log" (generateDoneMessage e "create" (link options));;
         mret (Resolved tt)))
    project_path.

(** Returns a promise. *)
Definition update (e : env) (projectPath : string) (options : option options)
  : M (promise string) :=
  let options := default no_options options in
  thenResolve
    (then_ Q_
      (fun _ =>
         manifest <- Manifest.new (join [projectPath; "AndroidManifest.xml"]);;
         manifest <-
           (if js_lt (Number (Manifest.getMinSdkVersion manifest)) (of_Z MIN_SDK_VERSION)
            then
              emit "verbose" ("Updating minSdkVersion to " ++ show_Z MIN_SDK_VERSION
                              ++ " in AndroidManifest.xml");;
              mret (Manifest.setMinSdkVersion (show_Z MIN_SDK_VERSION) manifest)
            else mret manifest);;
         let manifest := Manifest.setDebuggable false manifest in
         Manifest.write None manifest;;
         let projectName := Manifest.getActivityName manifest in
         let target_api := get_target e in
         copyJsAndLibrary e projectPath (link options) projectName;;
         copyScripts e projectPath;;
         copyBuildRules e projectPath;;
         writeProjectProperties e projectPath target_api;;
         prepBuildFiles e projectPath;;
         emit "log" (generateDoneMessage e "update" (link options));;
         mret (Resolved tt)))
    projectPath.

End Create.

(** ** bin/templates/cordova/Api.js *)
Module PlatformApi.
Import Js Node Shell Create.

(** The collaborators of the facade that lie outside these sources:
    lib/AndroidStudio, lib/AndroidProject, lib/check_reqs, lib/build,
    lib/prepare and cordova-common's PluginManager.  Each is taken as
    the answer it gives; the calls made to them are recorded in
    [calls].  What a collaborator does to the disk, and what it may
    throw instead of answering, is no part of this model: the
    statements about the facade are about the calls it makes, their
    order and their arguments, and about the promise it builds from the
    answers.  AndroidProject.getProjectFile only loads the project; it
    is not recorded. *)
Record ext := Ext {
  isAndroidStudioProject : string -> gmap string node -> bool;
  project_getPackageName : string -> gmap string node -> string;
  project_isClean : string -> gmap string node -> bool;
  check_reqs_run : promise unit;
  build_runClean : jsval -> promise unit;
  prepare_clean : jsval -> promise unit;
  pm_addPlugin : PluginInfo -> promise unit;
  pm_removePlugin : PluginInfo -> promise unit
}.

Definition PLATFORM : string := "android".

Definition external (c : call) (answer : promise unit) : M (promise unit) :=
  modify (add_call c);; mret answer.

(** Reading and writing a property.  Reading one of undefined or null
    throws; a write to a primitive is dropped. *)
Definition get_prop (v : jsval) (key : string) : M jsval :=
  match v with
  | VUndef | VNull => throw (TypeError ("Cannot read property " ++ key))
  | VRef l => fun w => (Ret (default VUndef (default ∅ (heap w !! l) !! key)), w)
  | _ => mret VUndef
  end.

Definition set_prop (v : jsval) (key : string) (x : jsval) : M unit :=
  match v with
  | VUndef | VNull => throw (TypeError ("Cannot set property " ++ key))
  | VRef l => modify (set_heap (fun h => <[l := <[key := x]> (default ∅ (h !! l))]> h))
  | _ => mret tt
  end.

(** A new object: the object literal { }. *)
Definition new_object : M jsval :=
  fun w => let l := fresh (dom (heap w)) in
           (Ret (VRef l), set_heap (<[l := ∅]>) w).

Inductive emitter :=
| External (id : nat)
| SelfEvents.

Definition setupEvents (externalEventEmitter : option emitter) : M emitter :=
  match externalEventEmitter with
  | Some ev =>
      (* This will make the platform internal events visible outside *)
      modify (add_call (ForwardEventsTo
                (match ev with External id => id | SelfEvents => 0%nat end)));;
      mret ev
  | None =>
      (* There is no logger if external emitter is not present,
         so attach a console logger *)
      modify (add_call SubscribeConsoleLogger);;
      mret SelfEvents
  end.

Record Api_t := ApiObj {
  platform : string;
  root : string;
  builder : string;
  android_studio : jsval;
  locations : gmap string string
}.

(** function Api (platform, platformRootDir, events), in the module
    whose directory is [dirname_]. *)
Definition Api (x : ext) (dirname_ : string) (platform_ platformRootDir : string)
    (events : option emitter) : M Api_t :=
  let root := dirname dirname_ in            (* path.resolve(__dirname, '..') *)
  setupEvents events;;
  let locations : gmap string string :=
    {[ "root" := root;
       "www" := join [root; "assets/www"];
       "res" := join [root; "res"];
       "platformWww" := join [root; "platform_www"];
       "configXml" := join [root; "res/xml/config.xml"];
       "defaultConfigXml" := join [root; "cordova/defaults.xml"];
       "strings" := join [root; "res/values/strings.xml"];
       "manifest" := join [root; "AndroidManifest.xml"];
       "build" := join [root; "build"];
       "javaSrc" := join [root; "src"];
       "cordovaJs" := "bin/templates/project/assets/www/cordova.js";
       "cordovaJsSrc" := "cordova-js-src" ]} in
  w <- get_world;;
  (* Override some locations for Android Studio projects *)
  if isAndroidStudioProject x root (files w)
  then
    emit "log" "Android Studio project detected";;
    mret (ApiObj PLATFORM root "gradle" (VBool true)
            (<["res" := join [root; "app/src/main/res"] ]>
             (<["www" := join [root; "app/src/main/assets/www"] ]>
              (<["javaSrc" := join [root; "app/src/main/java/"] ]>
               (<["manifest" := join [root; "app/src/main/AndroidManifest.xml"] ]>
                (<["strings" := join [root; "app/src/main/res/xml/strings.xml"] ]>
                 (<["configXml" := join [root; "app/src/main/res/xml/config.xml"] ]>
                  locations)))))))
  else mret (ApiObj PLATFORM root "gradle" VUndef locations).

(** require(path.resolve(destination, 'cordova/Api')) and
    new PlatformApi(platform, destination, events).  The module is
    looked up on the disk under the name relative to the working
    directory, as the files the scripts wrote are. *)
Definition load_PlatformApi (e : env) (x : ext) (destination platform_ : string)
    (events : emitter) : M Api_t :=
  let module := join2 (resolve (cwd e) destination) "cordova/Api" in
  ex <- existsSync (relative (cwd e) module ++ ".js");;
  if negb ex then throw (IoError ("Cannot find module " ++ module))
  else Api x (dirname module) platform_ destination (Some events).

Definition createPlatform (e : env) (x : ext) (destination : option string)
    (config : ConfigParser) (options : option options)
    (events : option emitter) : M (promise Api_t) :=
  events <- setupEvents events;;
  try_catch
    (then_ (create e destination config options)
       (fun destination =>
          api <- load_PlatformApi e x destination PLATFORM events;;
          mret (Resolved api)))
    (fun err =>
       emit "error" "createPlatform is not callable from the android project API.";;
       throw err).

Definition updatePlatform (e : env) (x : ext) (destination : string)
    (options : option options) (events : option emitter) : M (promise Api_t) :=
  events <- setupEvents events;;
  try_catch
    (then_ (update e destination options)
       (fun destination =>
          api <- load_PlatformApi e x destination "android" events;;
          mret (Resolved api)))
    (fun err =>
       emit "error" ("updatePlatform is not callable from the android project API, "
                     ++ "you will need to do this manually.");;
       throw err).

Definition clean (x : ext) (this : Api_t) (cleanOptions : jsval)
  : M (promise unit) :=
  w <- get_world;;
  modify (add_call (ApiClean cleanOptions (heap w)));;
  then_ (then_ (external CheckReqsRun (check_reqs_run x))
           (fun _ => external (BuildRunClean cleanOptions)
                       (build_runClean x cleanOptions)))
        (fun _ => external (PrepareClean cleanOptions)
                    (prepare_clean x cleanOptions)).

Definition PluginManager_addPlugin (x : ext) (this : Api_t)
    (plugin : PluginInfo) (installOptions : jsval) : M (promise unit) :=
  w <- get_world;;
  external (PMAddPlugin (platform this) plugin installOptions (heap w))
           (pm_addPlugin x plugin).

Definition PluginManager_removePlugin (x : ext) (this : Api_t)
    (plugin : PluginInfo) (uninstallOptions : jsval) : M (promise unit) :=
  w <- get_world;;
  external (PMRemovePlugin (platform this) plugin uninstallOptions (heap w))
           (pm_removePlugin x plugin).

(** addPlugin, the statements before the promise chain: the option
    bag is completed in place, and is the value handed on. *)
Definition addPlugin_options (x : ext) (this : Api_t) (installOptions : jsval)
  : M jsval :=
  (* var project = AndroidProject.getProjectFile(this.root) *)
  installOptions <- (if truthy installOptions then mret installOptions
                     else new_object);;
  variables <- get_prop installOptions "variables";;
  variables <- (if truthy variables then mret variables else new_object);;
  set_prop installOptions "variables" variables;;
  (* Add PACKAGE_NAME variable into vars *)
  variables <- get_prop installOptions "variables";;
  PACKAGE_NAME <- get_prop variables "PACKAGE_NAME";;
  (if negb (truthy PACKAGE_NAME)
   then
     variables <- get_prop installOptions "variables";;
     w <- get_world;;
     set_prop variables "PACKAGE_NAME"
       (VStr (project_getPackageName x (root this) (files w)))
   else mret tt);;
  (if is_true (android_studio this)
   then set_prop installOptions "android_studio" (VBool true)
   else mret tt);;
  mret installOptions.

(** addPlugin, the first callback of the chain: the clean that works
    around CB-11964. *)
Definition addPlugin_clean (x : ext) (this : Api_t) : M (promise unit) :=
  (* Skip cleaning prepared files when not invoking via cordova CLI. *)
  opts <- new_object;;
  set_prop opts "noPrepare" (VBool true);;
  w <- get_world;;
  if negb (isAndroidStudioProject x (root this) (files w))
     && negb (project_isClean x (root this) (files w))
  then clean x this opts
  else mret (Resolved tt).

(** The last callback of addPlugin and of removePlugin (the same text
    in both). *)
Definition updateBuildFiles (e : env) (this : Api_t) (plugin : PluginInfo)
  : M (promise unit) :=
  if (length (getFrameworks plugin (platform this)) =? 0)%nat
  then mret (Resolved tt)
  else
    emit "verbose"
      "Updating build files since android plugin contained <framework>";;
    getBuilder_prepBuildFiles e (builder this) (root this);;
    mret (Resolved tt).

Definition addPlugin (e : env) (x : ext) (this : Api_t) (plugin : PluginInfo)
    (installOptions : jsval) : M (promise bool) :=
  installOptions <- addPlugin_options x this installOptions;;
  thenResolve
    (then_
      (then_
        (then_ Q_ (fun _ => addPlugin_clean x this))
        (fun _ => PluginManager_addPlugin x this plugin installOptions))
      (fun _ => updateBuildFiles e this plugin))
    (* CB-11022 Return truthy value to prevent running prepare after *)
    true.

(** removePlugin, the statements before the promise chain. *)
Definition removePlugin_options (this : Api_t) (uninstallOptions : jsval)
  : M unit :=
  (* var project = AndroidProject.getProjectFile(this.root) *)
  usePlatformWww <- (if truthy uninstallOptions
                     then get_prop uninstallOptions "usePlatformWww"
                     else mret VUndef);;
  if truthy uninstallOptions && is_true usePlatformWww
     && is_true (android_studio this)
  then
    set_prop uninstallOptions "usePlatformWww" (VBool false);;
    set_prop uninstallOptions "android_studio" (VBool true)
  else mret tt.

Definition removePlugin (e : env) (x : ext) (this : Api_t) (plugin : PluginInfo)
    (uninstallOptions : jsval) : M (promise bool) :=
  removePlugin_options this uninstallOptions;;
  thenResolve
    (then_ (PluginManager_removePlugin x this plugin uninstallOptions)
      (fun _ => updateBuildFiles e this plugin))
    (* CB-11022 Return truthy value to prevent running prepare after *)
    true.

End PlatformApi.

(** ** A small installation to run the scripts on *)
Module Sample.
Import Js Node Shell Create.

Definition root : string := "/opt/cordova-android".

(** The builder of the sample rewrites the project's settings.gradle. *)
Definition sample_builder (projectPath : string) (fs : gmap string node)
  : result (gmap string node) :=
  Ret (<[join [projectPath; "settings.gradle"] := File (Text "include ':'")]> fs).

Definition sample_env : env :=
  Env root "/home/dev" "android-25" "cordova-android" "6.3.0" sample_builder.

Definition add_file (fs : gmap string node) (e : string * content)
  : gmap string node :=
  <[e.1 := File e.2]> (default fs (mkdirs (ancestors (dirname e.1)) fs)).

Definition template_manifest : AndroidManifest :=
  MkManifest "__PACKAGE__" "16" "25" false "__ACTIVITY__".

(** The parts of the tool's own tree that create and update read. *)
Definition store : gmap string node :=
  foldl add_file ∅
    [ (root ++ "/bin/templates/project/assets/www/cordova.js", Text "// cordova.js");
      (root ++ "/bin/templates/project/res/values/strings.xml",
         Text "<string name='app_name'>__NAME__</string>");
      (root ++ "/bin/templates/project/gitignore", Text "build/");
      (root ++ "/bin/templates/project/Activity.java",
         Text "package __ID__; public class __ACTIVITY__ extends CordovaActivity {}");
      (root ++ "/bin/templates/project/AndroidManifest.xml", Xml template_manifest);
      (root ++ "/bin/templates/project/project.properties",
         Text ("target=android-19" ++ LF));
      (root ++ "/bin/templates/project/build.gradle", Text "// build.gradle");
      (root ++ "/bin/templates/cordova/Api.js", Text "// Api.js");
      (root ++ "/bin/templates/cordova/lib/builders/builders.js", Text "// builders");
      (root ++ "/node_modules/q/q.js", Text "// q");
      (root ++ "/bin/check_reqs", Text "#!/usr/bin/env node");
      (root ++ "/bin/check_reqs.bat", Text "@ECHO OFF");
      (root ++ "/bin/lib/check_reqs.js", Text "// check_reqs");
      (root ++ "/bin/android_sdk_version", Text "#!/usr/bin/env node");
      (root ++ "/bin/lib/android_sdk_version.js", Text "// android_sdk_version");
      (root ++ "/cordova-js-src/exec.js", Text "// exec");
      (root ++ "/framework/AndroidManifest.xml",
         Xml (MkManifest "org.apache.cordova" "16" "25" false ""));
      (root ++ "/framework/project.properties", Text ("target=android-25" ++ LF));
      (root ++ "/framework/build.gradle", Text "// framework build.gradle");
      (root ++ "/framework/cordova.gradle", Text "// cordova.gradle");
      (root ++ "/framework/src/org/apache/cordova/CordovaActivity.java",
         Text "package org.apache.cordova;");
      (root ++ "/framework/gradlew", Text "#!/usr/bin/env sh");
      (root ++ "/framework/gradle/wrapper/gradle-wrapper.properties", Text "") ].

Definition world0 (fs : gmap string node) : world := World fs false [] [] ∅ [].

(** A configuration whose project name is the reserved one. *)
Definition config_CordovaActivity : ConfigParser :=
  Config (Some "com.example.App") (Some "CordovaActivity") None.

(** A properties file whose last line has no line feed after it. *)
Definition unterminated_properties : string :=
  "target=android-19" ++ LF ++ "android.library.reference.1=CordovaLib".

Definition project_with (properties : string) : gmap string node :=
  <["proj/project.properties" := File (Text properties)]> (<["proj" := Dir]> store).

(** The disk after a project was created at proj. *)
Definition created : gmap string node :=
  files (create sample_env (Some "proj")
           (Config (Some "com.example.App") (Some "MyApp") None) None
           (world0 store)).2.

Definition legacy_manifest (minSdk : string) : AndroidManifest :=
  MkManifest "com.example.App" minSdk "25" true "MainActivity".

(** The created project with a manifest where [update] looks for it. *)
Definition legacy_project (minSdk : string) : gmap string node :=
  <["proj/AndroidManifest.xml" := File (Xml (legacy_manifest minSdk))]> created.

(** What the builder of the sample writes. *)
Definition settings_gradle (p : string) : Prop := p = "proj/settings.gradle".

Definition sample_ext : PlatformApi.ext :=
  PlatformApi.Ext (fun root fs => exists_ fs (join [root; "app"; "src"; "main"]))
    (fun _ _ => "com.example.App")
    (fun root fs => negb (exists_ fs (join [root; "build"])))
    (Resolved tt) (fun _ => Resolved tt) (fun _ => Resolved tt)
    (fun _ => Resolved tt) (fun _ => Resolved tt).

(** The same collaborators, with a plugin manager that fails to
    install. *)
Definition failing_ext : PlatformApi.ext :=
  PlatformApi.Ext (PlatformApi.isAndroidStudioProject sample_ext)
    (PlatformApi.project_getPackageName sample_ext)
    (PlatformApi.project_isClean sample_ext)
    (Resolved tt) (fun _ => Resolved tt) (fun _ => Resolved tt)
    (fun _ => Rejected (CordovaError "Failed to install plugin"))
    (fun _ => Resolved tt).

(** A plugin that declares one framework. *)
Definition maps_plugin : PluginInfo :=
  Plugin "cordova-plugin-googlemaps"
    (fun _ => ["com.google.android.gms:play-services-maps:+"]).

(** A plugin that declares none. *)
Definition plain_plugin : PluginInfo := Plugin "cordova-plugin-device" (fun _ => []).

(** The facade of a project of the flat layout, and of one of the
    Android Studio layout. *)
Definition flat_api : PlatformApi.Api_t :=
  PlatformApi.ApiObj "android" "proj" "gradle" VUndef ∅.
Definition studio_api : PlatformApi.Api_t :=
  PlatformApi.ApiObj "android" "proj" "gradle" (VBool true) ∅.

(** The objects of a caller whose option bag, at 0, has variables, at
    1, that give an empty PACKAGE_NAME. *)
Definition empty_name_heap : gmap nat (gmap string jsval) :=
  {[ 0%nat := {[ "variables" := VRef 1 ]};
     1%nat := {[ "PACKAGE_NAME" := VStr "" ]} ]}.

(** The objects of a caller whose option bag, at 0, asks for the
    platform's www. *)
Definition platform_www_heap : gmap nat (gmap string jsval) :=
  {[ 0%nat := {[ "usePlatformWww" := VBool true ]} ]}.

(** The same, with a PACKAGE_NAME of the caller's own. *)
Definition custom_name_heap : gmap nat (gmap string jsval) :=
  {[ 0%nat := {[ "variables" := VRef 1 ]};
     1%nat := {[ "PACKAGE_NAME" := VStr "org.custom.app" ]} ]}.

(** A project of the flat layout, with no build output. *)
Definition flat_project : gmap string node :=
  {[ "proj" := Dir;
     "proj/AndroidManifest.xml" := File (Xml (legacy_manifest "16")) ]}.

Definition world_with (h : gmap nat (gmap string jsval)) : world :=
  World flat_project false [] [] h [].

(** The same project after a build left its output behind. *)
Definition built_world : world :=
  World (<["proj/build" := Dir]> flat_project) false [] [] ∅ [].

End Sample.

(** ** The words of the specification *)
Module Spec.
Import Js Node Regex PlatformApi.

(** A project name that begins with one of 0..9. *)
Definition starts_with_digit (s : string) : Prop :=
  exists c rest, s = String c rest /\ is_digit c = true.

Definition bad_project_name (s : string) : Prop :=
  s = "" \/ s = "CordovaActivity" \/ starts_with_digit s.

(** One further segment of a package name: a dot, a letter, then
    letters, digits and underscores. *)
Definition segment (w : list ascii) : Prop :=
  exists a t, w = "."%char :: a :: t /\ is_alpha a = true
              /\ Forall (fun c => is_word c = true) t.

(** The grammar of package identifiers: a letter, one or more letters,
    digits or underscores, then one or more segments. *)
Definition java_package_like (s : string) : Prop :=
  exists a t segs,
    list_ascii_of_string s = (a :: t ++ concat segs)%list
    /\ is_alpha a = true
    /\ t <> [] /\ Forall (fun c => is_word c = true) t
    /\ segs <> [] /\ Forall segment segs.

(** The word [w] stands in [s] with no word character next to it on
    either side. *)
Definition delimited (w : string) (s : string) : Prop :=
  exists before after : list ascii,
    list_ascii_of_string s = (before ++ list_ascii_of_string w ++ after)%list
    /\ (forall c, last before = Some c -> is_word c = false)
    /\ (forall c, head after = Some c -> is_word c = false).

Definition to_lower (c : ascii) : ascii :=
  if in_range "A" "Z" c then ascii_of_nat (code c + 32) else c.

Definition lower (s : string) : string :=
  string_of_list_ascii (map to_lower (list_ascii_of_string s)).

(** [s] holds the word class in some mix of cases. *)
Definition contains_class_any_case (s : string) : Prop :=
  exists w, lower w = "class" /\ delimited w s.

(** [s] holds class or Class. *)
Definition contains_class_or_Class (s : string) : Prop :=
  delimited "class" s \/ delimited "Class" s.

(** The library references a properties text lists: for each line
    android.library.reference.N=path, in order, the number N as written
    and the path. *)
Definition reference_of_line (line : string) : option (string * string) :=
  let l := list_ascii_of_string line in
  let key := list_ascii_of_string "android.library.reference." in
  if bool_decide (take (length key) l = key) then
    let rest := drop (length key) l in
    let num := take_while is_digit rest in
    match num, drop_while is_digit rest with
    | _ :: _, "="%char :: path =>
        Some (string_of_list_ascii num, string_of_list_ascii path)
    | _, _ => None
    end
  else None.

Definition library_references (text : string) : list (string * string) :=
  omap reference_of_line (Create.split_on "010" text).

(** What the specification says of the references of a properties
    file: numbered 1, 2, ... in order, the shared library first, no path
    twice. *)
Definition references_in_order (refs : list (string * string)) : Prop :=
  map fst refs = map Create.show_nat (seq 1 (length refs))
  /\ (exists rest, map snd refs = "CordovaLib" :: rest)
  /\ NoDup (map snd refs).

(** [fs'] keeps every entry of [fs] that lies outside [F]. *)
Definition keeps (F : string -> Prop) (fs fs' : gmap string node) : Prop :=
  forall p n, fs !! p = Some n -> ~ F p -> fs' !! p = Some n.

(** A computation that leaves alone every entry outside [F], whatever
    it returns or throws. *)
Definition frames {A} (F : string -> Prop) (m : M A) : Prop :=
  forall w, keeps F (files w) (files (m w).2).

(** The areas of a project that an update refreshes, the manifest
    apart: the project directory entry itself, cordova.js, platform_www,
    the cordova jars of libs, CordovaLib, the cordova scripts,
    build.gradle and project.properties. *)
Definition refreshed_areas (root p : string) : Prop :=
  p = root
  \/ under (join [root; "assets"; "www"; "cordova.js"]) p = true
  \/ under (join [root; "platform_www"]) p = true
  \/ Shell.glob_match (join [root; "libs"; "cordova-*.jar"]) p = true
  \/ under (join [root; "CordovaLib"]) p = true
  \/ under (join [root; "cordova"]) p = true
  \/ under (join [root; "build.gradle"]) p = true
  \/ p = join [root; "project.properties"].

(** Where [update] looks for the manifest of a project. *)
Definition manifest_path (root : string) : string :=
  join [root; "AndroidManifest.xml"].

(** The manifest the specification describes after an update: the
    minimum SDK version raised to 16 when the declared one reads as a
    number below 16, the debuggable flag false, the rest as it was. *)
Definition floored (d : AndroidManifest) : AndroidManifest :=
  MkManifest (packageId d)
    (if js_lt (Number (minSdkVersion d)) (of_Z 16) then "16" else minSdkVersion d)
    (targetSdkVersion d) false (activityName d).

(** Where an update may write: the refreshed areas and what the builder
    writes. *)
Definition update_area (root : string) (B : string -> Prop) (p : string) : Prop :=
  refreshed_areas root p \/ B p.

(** The builder of the environment writes inside [B] only. *)
Definition builder_confined (e : Create.env) (root : string)
    (B : string -> Prop) : Prop :=
  forall fs fs', Create.builder_prepBuildFiles e root fs = Ret fs' -> keeps B fs fs'.

(** The calls made between two worlds. *)
Definition new_calls (w w' : world) : list call :=
  drop (length (calls w)) (calls w').

Definition is_prep (c : call) : bool :=
  match c with PrepBuildFiles _ => true | _ => false end.

Definition is_pm_add (c : call) : bool :=
  match c with PMAddPlugin _ _ _ _ => true | _ => false end.

(** The calls of a clean: its own entry and the steps it runs. *)
Definition is_clean_call (c : call) : bool :=
  match c with
  | ApiClean _ _ | CheckReqsRun | BuildRunClean _ | PrepareClean _ => true
  | _ => false
  end.

(** How many times the build files were regenerated. *)
Definition count_prep (cs : list call) : nat :=
  length (filter (fun c => is_prep c = true) cs).

(** The plugin declares at least one framework for the platform. *)
Definition has_frameworks (this : Api_t) (plugin : PluginInfo) : bool :=
  negb (length (getFrameworks plugin (platform this)) =? 0)%nat.

(** The value of a property as a reader finds it in a heap. *)
Definition read (h : gmap nat (gmap string jsval)) (v : jsval) (key : string)
  : jsval :=
  match v with
  | VRef l => default VUndef (default ∅ (h !! l) !! key)
  | _ => VUndef
  end.

Definition PACKAGE_NAME_of (h : gmap nat (gmap string jsval)) (opts : jsval)
  : jsval :=
  read h (read h opts "variables") "PACKAGE_NAME".

(** An option bag as documented: an object, or left out. *)
Definition options_ok (v : jsval) : Prop :=
  match v with
  | VRef _ => True
  | _ => truthy v = false
  end.

(** The variables of an option bag as documented: an object, or left
    out. *)
Definition variables_ok (h : gmap nat (gmap string jsval)) (opts : jsval) : Prop :=
  truthy (read h opts "variables") = false
  \/ exists lv, read h opts "variables" = VRef lv.

(** The project is of the flat layout and its build state is not
    clean. *)
Definition needs_clean (x : ext) (this : Api_t) (w : world) : bool :=
  negb (isAndroidStudioProject x (root this) (files w))
  && negb (project_isClean x (root this) (files w)).

(** The heap after [obj.key = x] on the object at [l]. *)
Definition heap_set (l : nat) (key : string) (x : jsval)
    (h : gmap nat (gmap string jsval)) : gmap nat (gmap string jsval) :=
  <[l := <[key := x]> (default ∅ (h !! l))]> h.

(** The calls of [clean] after its own entry: each step runs when the
    one before it resolved. *)
Definition clean_tail (x : ext) (opts : jsval) : list call :=
  CheckReqsRun ::
  match check_reqs_run x with
  | Resolved _ =>
      BuildRunClean opts ::
      match build_runClean x opts with
      | Resolved _ => [PrepareClean opts]
      | Rejected _ => []
      end
  | Rejected _ => []
  end.

(** Every step of [clean] resolves. *)
Definition clean_resolves (x : ext) (opts : jsval) : bool :=
  is_resolved (check_reqs_run x) && is_resolved (build_runClean x opts)
  && is_resolved (prepare_clean x opts).

(** The package name [addPlugin] is to hand on: the one supplied when
    it is truthy, else the one of the project. *)
Definition expected_PACKAGE_NAME (x : ext) (this : Api_t) (w : world)
    (opts : jsval) : jsval :=
  if truthy (PACKAGE_NAME_of (heap w) opts)
  then PACKAGE_NAME_of (heap w) opts
  else VStr (project_getPackageName x (root this) (files w)).

(** What the plugin manager is to find in a call of [addPlugin]. *)
Definition hands_on_PACKAGE_NAME (expected : jsval) (c : call) : Prop :=
  match c with
  | PMAddPlugin _ _ opts h => PACKAGE_NAME_of h opts = expected
  | _ => True
  end.

(** The case in which [removePlugin] rewrites the option bag. *)
Definition asks_platform_www (this : Api_t) (h : gmap nat (gmap string jsval))
    (opts : jsval) : bool :=
  is_true (read h opts "usePlatformWww") && is_true (android_studio this).

(** The objects after that rewriting. *)
Definition rewritten (h : gmap nat (gmap string jsval)) (opts : jsval)
  : gmap nat (gmap string jsval) :=
  match opts with
  | VRef l => heap_set l "android_studio" (VBool true)
                (heap_set l "usePlatformWww" (VBool false) h)
  | _ => h
  end.

(** A value that is neither an object nor undefined nor null. *)
Definition primitive (v : jsval) : Prop :=
  match v with VBool _ | VStr _ | VNum _ => True | _ => False end.

(** A name with no separator in it. *)
Definition no_slash (x : string) : bool :=
  forallb (fun c => negb (is_slash c)) (list_ascii_of_string x).

(** The expression of one segment after the first of a package name. *)
Definition SEGMENT : re :=
  seqs [Lit "."; Cls false [Range "a" "z"; Range "A" "Z"];
        Star (Cls false [Range "a" "z"; Range "A" "Z"; Range "0" "9"; One "_"])].

(** A computation that makes no call and leaves the disk alone. *)
Definition silent {A} (m : M A) : Prop :=
  forall w, calls (m w).2 = calls w /\ files (m w).2 = files w.

End Spec.

(** ** Further words for what the scripts do *)
Module Behaviour.
Import Js Node Regex Create PlatformApi.

(** A computation that comes back with a value, whatever the world. *)
Definition returns {A} (m : M A) : Prop :=
  forall w, exists a, (m w).1 = Ret a.

(** The process ended in the computation. *)
Definition exited {A} (r : result A) : bool :=
  match r with Throw e => is_exit e | Ret _ => false end.

(** The computation handed back a promise that is resolved. *)
Definition resolved {A} (r : result (promise A)) : bool :=
  match r with Ret p => is_resolved p | Throw _ => false end.

(** A text with no line break in it. *)
Definition one_line (s : string) : bool :=
  forallb (fun c => negb (is_lineterm c)) (list_ascii_of_string s).

(** A name of a file or a directory: not empty, not . and not .. *)
Definition plain_name (s : string) : bool :=
  negb (String.eqb s "") && negb (String.eqb s ".") && negb (String.eqb s "..").

(** A path in the form path.normalize leaves as it is and path.join
    extends by appending: names with one separator between them, after
    a leading separator or none. *)
Definition plain_path (p : string) : bool :=
  match p with
  | String "/" rest => forallb plain_name (split_on "/" rest)
  | _ => forallb plain_name (split_on "/" p)
  end.

(** A plain path that is relative: path.relative gives it back from
    any working directory. *)
Definition plain_relative (p : string) : bool :=
  plain_path p && negb (is_absolute p).

(** The reference lines for the paths [ps], numbered from [i]. *)
Fixpoint reference_lines (i : nat) (ps : list string) : string :=
  match ps with
  | [] => ""
  | p :: rest =>
      "android.library.reference." ++ show_nat i ++ "=" ++ p ++ LF
      ++ reference_lines (S i) rest
  end.

(** The line feed, as a character. *)
Definition LFc : ascii := "010"%char.

(** One reference line, as characters: the number [ds], the path [p]. *)
Definition reference_line (ds p : list ascii) : list ascii :=
  (list_ascii_of_string "android.library.reference." ++ ds
   ++ "="%char :: p ++ [LFc])%list.

(** The characters of [reference_lines]. *)
Fixpoint lines_of (i : nat) (ps : list string) : list ascii :=
  match ps with
  | [] => []
  | p :: rest =>
      (reference_line (list_ascii_of_string (show_nat i)) (list_ascii_of_string p)
       ++ lines_of (S i) rest)%list
  end.

(** A properties file that lists the nested library and one other. *)
Definition listed_properties : string :=
  "target=android-19" ++ LF
  ++ "android.library.reference.1=CordovaLib" ++ LF
  ++ "android.library.reference.2=../plugin/lib" ++ LF.

(** Each character [p] holds of gives way to the text [by_]. *)
Definition substitute (p : ascii -> bool) (by_ : list ascii) (l : list ascii)
  : list ascii :=
  flat_map (fun c => if p c then by_ else [c]) l.

(** A character of a sanitised project name. *)
Definition name_char (c : ascii) : bool := is_word c || Ascii.eqb c ".".

(** A computation that leaves a part [g] of the world as it was,
    whether it returns or throws. *)
Definition stable {A B} (g : world -> B) (m : M A) : Prop :=
  forall w, g (m w).2 = g w.

(** A computation that, begun with shell.config.fatal off, returns and
    leaves it off. *)
Definition calm {A} (m : M A) : Prop :=
  forall w, shell_fatal w = false ->
            (exists a, (m w).1 = Ret a) /\ shell_fatal (m w).2 = false.

(** A computation that leaves shell.config.fatal as it found it, or
    else on, and that only when it failed in the way [failed]. *)
Definition leaves_fatal_on {A} (failed : result A -> Prop) (m : M A) : Prop :=
  forall w, shell_fatal (m w).2 = shell_fatal w
            \/ (shell_fatal (m w).2 = true /\ failed (m w).1).

Definition thrown {A} (r : result A) : Prop := exists err, r = Throw err.

Definition unresolved {A} (r : result (promise A)) : Prop := resolved r = false.

(** A computation in which the process ends only in a world that has
    shell.config.fatal on. *)
Definition exits_under_fatal {A} (m : M A) : Prop :=
  forall w, exited (m w).1 = true -> shell_fatal (m w).2 = true.

(** The builder of the build files returns or throws: it does not end
    the process. *)
Definition builder_stays (e : env) : Prop :=
  forall root fs err, builder_prepBuildFiles e root fs = Throw err -> is_exit err = false.

(** A computation that emits the events [pre] and then either returns
    [a] after emitting [ev] as well, or throws. *)
Definition finishes {A} (pre : list (string * string)) (ev : string * string)
    (a : A) (k : M A) : Prop :=
  forall w, ((k w).1 = Ret a /\ emitted (k w).2 = (emitted w ++ pre ++ [ev])%list)
            \/ ((exists err, (k w).1 = Throw err)
                /\ emitted (k w).2 = (emitted w ++ pre)%list).

(** What update emits: the raise of the minimum SDK version when it
    makes one, the word that it is done when it resolves. *)
Definition update_events (e : env) (o : options) (d : AndroidManifest)
    (resolved : bool) : list (string * string) :=
  ((if js_lt (Number (minSdkVersion d)) (of_Z MIN_SDK_VERSION)
    then [("verbose", "Updating minSdkVersion to 16 in AndroidManifest.xml")]
    else [])
   ++ (if resolved then [("log", generateDoneMessage e "update" (link o))] else []))%list.

(** The name create gives the project: the configured one with each
    character that is no letter, digit, underscore or dot replaced. *)
Definition project_name_of (cfg : ConfigParser) : string :=
  match js_or_opt (name cfg) None with
  | Some n => replace (Flags false true) NOT_WORD_OR_DOT "_" n
  | None => "CordovaExample"
  end.

(** What create emits once it has begun: the values it works with,
    and the word that it is done when it resolves. *)
Definition create_events (e : env) (project_path : string) (cfg : ConfigParser)
    (o : options) (resolved : bool) : list (string * string) :=
  List.app
   [ ("log", "Creating Cordova project for the Android platform:");
     ("log", TAB ++ "Path: " ++ project_path);
     ("log", TAB ++ "Package: " ++ js_or (packageName cfg) "my.cordova.project");
     ("log", TAB ++ "Name: " ++ project_name_of cfg);
     ("log", TAB ++ "Activity: "
             ++ js_or (js_or_opt (android_activityName cfg) (activityName o))
                      "MainActivity");
     ("log", TAB ++ "Android target: " ++ get_target e);
     ("verbose", "Copying android template project to " ++ project_path) ]
   (if resolved then [("log", generateDoneMessage e "create" (link o))] else []).

(** What the plugin manager is to find under android_studio in a call
    of [addPlugin]. *)
Definition hands_on_android_studio (expected : jsval) (c : call) : Prop :=
  match c with
  | PMAddPlugin _ _ opts h => Spec.read h opts "android_studio" = expected
  | _ => True
  end.

(** [P] holds of the world whenever the computation returns. *)
Definition ensures {A} (P : world -> Prop) (m : M A) : Prop :=
  forall w a w', m w = (Ret a, w') -> P w'.

(** [P] holds of the world whenever the promise is resolved. *)
Definition ensures_resolved {A} (P : world -> Prop) (m : M (promise A)) : Prop :=
  forall w a w', m w = (Ret (Resolved a), w') -> P w'.

(** [P] is kept, whatever the computation returns or throws. *)
Definition preserves {A} (P : world -> Prop) (m : M A) : Prop :=
  forall w, P w -> P (m w).2.

(** The manifest of a project laid out for Android Studio. *)
Definition studio_manifest_path (root : string) : string :=
  join [join [root; "app"; "src"; "main"]; "AndroidManifest.xml"].

(** The manifest of the project is there and names the package and the
    activity. *)
Definition manifest_names (root package_name activity : string) (w : world) : Prop :=
  exists d, files w !! studio_manifest_path root = Some (File (Xml d))
            /\ packageId d = package_name /\ Node.activityName d = activity.

End Behaviour.

Local Open Scope list_scope.

(** * Facts about the matcher *)
Section RegexFacts.
Import Regex.
Variable fl : flags.

Implicit Types (k : state -> option state) (p s w post : list ascii)
  (c : gmap nat (list ascii)) (r : re).

Lemma is_Some_or {A} (a b : option A) :
  is_Some (match a with Some x => Some x | None => b end) <-> is_Some a \/ is_Some b.
Proof.
  destruct a; split; eauto.
  intros [[? H]|H]; [discriminate | exact H].
Qed.

Lemma not_is_Some_None {A} : ~ is_Some (@None A).
Proof. intros [? ?]; discriminate. Qed.

Lemma eat_spec pr st k :
  is_Some (eat pr st k) <->
  exists a rest, st_rest st = a :: rest /\ pr a = true /\
                 is_Some (k (St (a :: st_pre st) rest (st_caps st))).
Proof.
  unfold eat. destruct (st_rest st) as [|a rest] eqn:E.
  - split; [intros H; destruct (not_is_Some_None H) | intros (? & ? & ? & _); discriminate].
  - destruct (pr a) eqn:Hp; split.
    + intros H. exists a, rest. auto.
    + intros (a' & r' & Heq & _ & H). injection Heq as <- <-. exact H.
    + intros H; destruct (not_is_Some_None H).
    + intros (a' & r' & Heq & Hp' & _). injection Heq as <- <-. congruence.
Qed.

Lemma eat_sim pr k k' p s c c' :
  sim k k' -> is_Some (eat pr (St p s c) k) <-> is_Some (eat pr (St p s c') k').
Proof.
  intros Hk. rewrite !eat_spec. simpl.
  split; intros (a & rest & -> & Hp & H); exists a, rest;
    (split; [reflexivity|]; split; [exact Hp|]); eapply Hk, H.
Qed.

Lemma star_loop_sim body k k' :
  (forall k1 k2 p s c c', sim k1 k2 ->
     is_Some (body (St p s c) k1) <-> is_Some (body (St p s c') k2)) ->
  sim k k' ->
  forall fuel, sim (star_loop body k fuel) (star_loop body k' fuel).
Proof.
  intros Hbody Hk fuel. induction fuel as [|fuel IH]; intros p s c c'; simpl.
  - apply Hk.
  - rewrite !is_Some_or. rewrite (Hk p s c c').
    rewrite (Hbody _ (fun st' => if (length (st_rest st') <? length s)%nat
                                 then star_loop body k' fuel st' else None) p s c c').
    + reflexivity.
    + intros p1 s1 c1 c1'. simpl. destruct (length s1 <? length s)%nat; [apply IH|].
      split; intros H; destruct (not_is_Some_None H).
Qed.

Lemma step_sim r : forall k k' p s c c', sim k k' ->
  is_Some (step fl r (St p s c) k) <-> is_Some (step fl r (St p s c') k').
Proof.
  induction r as [a| |neg items| |r1 IH1 r2 IH2|r1 IH1 r2 IH2|r IH|n r IH| | |];
    intros k k' p s c c' Hk.
  - apply eat_sim, Hk.
  - apply eat_sim, Hk.
  - apply eat_sim, Hk.
  - apply Hk.
  - simpl. apply IH1. intros p1 s1 c1 c1'. apply IH2, Hk.
  - simpl. rewrite !is_Some_or, (IH1 k k' p s c c' Hk), (IH2 k k' p s c c' Hk). reflexivity.
  - change (is_Some (star_loop (step fl r) k (S (length s)) (St p s c)) <->
            is_Some (star_loop (step fl r) k' (S (length s)) (St p s c'))).
    apply star_loop_sim; [|exact Hk]. intros; apply IH; assumption.
  - simpl. apply IH. intros p1 s1 c1 c1'. simpl. apply Hk.
  - simpl. destruct (at_bol fl p); [apply Hk|]. split; intros H; destruct (not_is_Some_None H).
  - simpl. destruct (at_eol fl s); [apply Hk|]. split; intros H; destruct (not_is_Some_None H).
  - simpl. destruct (at_wordb p s); [apply Hk|]. split; intros H; destruct (not_is_Some_None H).
Qed.

Lemma accepts_sim k p s c : sim k k -> accepts k p s -> is_Some (k (St p s c)).
Proof. intros Hk [c' H]. eapply Hk, H. Qed.

Lemma sim_step r k : sim k k -> sim (fun st => step fl r st k) (fun st => step fl r st k).
Proof. intros Hk p s c c'. apply step_sim, Hk. Qed.

Lemma single_char_ok r (pr : ascii -> bool) :
  (forall st k, step fl r st k = eat pr st k) ->
  (forall p w post, den fl r p w post <-> exists a, w = [a] /\ pr a = true) ->
  step_ok fl r.
Proof.
  intros Hstep Hden k Hk p s c. rewrite Hstep, eat_spec. simpl. split.
  - intros (a & rest & -> & Hp & H). exists [a], rest. split; [reflexivity|].
    split; [apply Hden; eauto | eexists; exact H].
  - intros (w & post & -> & Hd & Ha). apply Hden in Hd as (a & -> & Hp).
    exists a, post. split; [reflexivity|]. split; [exact Hp|].
    apply accepts_sim; assumption.
Qed.

Lemma assertion_ok r (b : list ascii -> list ascii -> bool) :
  (forall st k, step fl r st k = if b (st_pre st) (st_rest st) then k st else None) ->
  (forall p w post, den fl r p w post <-> w = [] /\ b p post = true) ->
  step_ok fl r.
Proof.
  intros Hstep Hden k Hk p s c. rewrite Hstep. simpl. split.
  - destruct (b p s) eqn:E; [|intros H; destruct (not_is_Some_None H)].
    intros H. exists [], s. split; [reflexivity|]. split; [apply Hden; auto|].
    eexists; exact H.
  - intros (w & post & -> & Hd & Ha). apply Hden in Hd as [-> Hb]. simpl in *.
    rewrite Hb. apply accepts_sim; assumption.
Qed.

Lemma star_loop_ok r k :
  step_ok fl r -> sim k k -> forall fuel p s c, (length s < fuel)%nat ->
    is_Some (star_loop (step fl r) k fuel (St p s c)) <->
    exists w post, s = w ++ post /\ den fl (Star r) p w post /\ accepts k (rev w ++ p) post.
Proof.
  intros Hr Hk fuel. induction fuel as [|fuel IH]; intros p s c Hlen; [lia|].
  simpl. rewrite is_Some_or.
  set (k' := fun st' => if (length (st_rest st') <? length s)%nat
                        then star_loop (step fl r) k fuel st' else None).
  assert (Hk' : sim k' k').
  { intros p1 s1 c1 c1'. unfold k'. simpl. destruct (length s1 <? length s)%nat.
    - apply star_loop_sim; [|exact Hk]. intros; apply step_sim; assumption.
    - reflexivity. }
  rewrite (Hr k' Hk'). split.
  - intros [(w1 & post1 & -> & Hd & [c1 Ha]) | H].
    + unfold k' in Ha. simpl in Ha.
      destruct (length post1 <? length (w1 ++ post1))%nat eqn:E;
        [|destruct (not_is_Some_None Ha)].
      apply Nat.ltb_lt in E. rewrite length_app in E, Hlen.
      apply IH in Ha; [|lia]. destruct Ha as (w2 & post & -> & Hd2 & Ha).
      exists (w1 ++ w2), post. split; [by rewrite <- app_assoc|].
      split.
      * apply den_star_cons; [|exact Hd|exact Hd2]. intros ->. simpl in E. lia.
      * rewrite rev_app_distr, <- app_assoc. exact Ha.
    + exists [], s. split; [reflexivity|]. split; [constructor | eexists; exact H].
  - intros (w & post & -> & Hd & Ha).
    inversion Hd as [| | | | | | |r0 p0 post0|r0 p0 w1 w2 post0 Hne Hd1 Hd2| | | |]; subst.
    + right. apply accepts_sim; assumption.
    + left. exists w1, (w2 ++ post). split; [by rewrite <- app_assoc|].
      split; [exact Hd1|]. exists c. unfold k'. simpl.
      assert (length (w2 ++ post) < length ((w1 ++ w2) ++ post))%nat as Hl.
      { rewrite !length_app. destruct w1; [congruence|simpl; lia]. }
      apply Nat.ltb_lt in Hl as Hl'. rewrite Hl'.
      apply IH; [lia|]. exists w2, post. split; [reflexivity|]. split; [exact Hd2|].
      rewrite rev_app_distr, <- app_assoc in Ha. exact Ha.
Qed.

Theorem step_spec r : step_ok fl r.
Proof.
  induction r as [a| |neg items| |r1 IH1 r2 IH2|r1 IH1 r2 IH2|r IH|n r IH| | |].
  - apply (single_char_ok _ (Ascii.eqb a)); [reflexivity|].
    intros p w post. split.
    + inversion 1; subst. eexists; split; [reflexivity | apply Ascii.eqb_refl].
    + intros (b & -> & Hb). apply Ascii.eqb_eq in Hb as <-. constructor.
  - apply (single_char_ok _ (fun a => negb (is_lineterm a))); [reflexivity|].
    intros p w post. split.
    + inversion 1; subst. eexists; split; [reflexivity|]. by apply negb_true_iff.
    + intros (b & -> & Hb). constructor. by apply negb_true_iff.
  - apply (single_char_ok _ (cls_mem neg items)); [reflexivity|].
    intros p w post. split.
    + inversion 1; subst. eauto.
    + intros (b & -> & Hb). by constructor.
  - intros k Hk p s c. simpl. split.
    + intros H. exists [], s. repeat split; [constructor | eexists; exact H].
    + intros (w & post & -> & Hd & Ha). inversion Hd; subst. simpl in *.
      apply accepts_sim; assumption.
  - intros k Hk p s c. simpl. rewrite (IH1 _ (sim_step r2 k Hk)). split.
    + intros (w1 & post1 & -> & Hd1 & [c1 Ha]). apply (IH2 k Hk) in Ha.
      destruct Ha as (w2 & post & -> & Hd2 & Ha).
      exists (w1 ++ w2), post. split; [by rewrite <- app_assoc|].
      split; [by constructor|]. by rewrite rev_app_distr, <- app_assoc.
    + intros (w & post & -> & Hd & Ha). inversion Hd; subst.
      exists w1, (w2 ++ post). split; [by rewrite <- app_assoc|]. split; [assumption|].
      exists c. apply (IH2 k Hk). exists w2, post. split; [reflexivity|].
      split; [assumption|]. by rewrite rev_app_distr, <- app_assoc in Ha.
  - intros k Hk p s c. simpl. rewrite is_Some_or, (IH1 k Hk), (IH2 k Hk). split.
    + intros [(w & post & -> & Hd & Ha)|(w & post & -> & Hd & Ha)];
        exists w, post; (split; [reflexivity|]; split; [|exact Ha]).
      * by apply den_alt_l.
      * by apply den_alt_r.
    + intros (w & post & -> & Hd & Ha). inversion Hd; subst; [left|right];
        exists w, post; auto.
  - intros k Hk p s c.
    change (step fl (Star r) (St p s c) k)
      with (star_loop (step fl r) k (S (length s)) (St p s c)).
    apply star_loop_ok; [exact IH|exact Hk|lia].
  - intros k Hk p s c. simpl.
    set (k' := fun st' => k (St (st_pre st') (st_rest st')
                 (<[n:=consumed s (st_rest st')]> (st_caps st')))).
    assert (Hk' : sim k' k') by (intros p1 s1 c1 c1'; apply Hk).
    rewrite (IH k' Hk'). split.
    + intros (w & post & -> & Hd & [c1 Ha]). exists w, post.
      split; [reflexivity|]. split; [by constructor|]. eexists; exact Ha.
    + intros (w & post & -> & Hd & [c1 Ha]). inversion Hd; subst. exists w, post.
      split; [reflexivity|]. split; [assumption|]. exists c1. unfold k'. simpl.
      eapply Hk, Ha.
  - apply (assertion_ok _ (fun p _ => at_bol fl p)); [reflexivity|].
    intros p w post. split; [inversion 1; auto | intros [-> H]; by constructor].
  - apply (assertion_ok _ (fun _ s => at_eol fl s)); [reflexivity|].
    intros p w post. split; [inversion 1; auto | intros [-> H]; by constructor].
  - apply (assertion_ok _ at_wordb); [reflexivity|].
    intros p w post. split; [inversion 1; auto | intros [-> H]; by constructor].
Qed.

Lemma match_here_spec r p s :
  is_Some (match_here fl r p s) <->
  exists w post, s = w ++ post /\ den fl r p w post.
Proof.
  unfold match_here.
  assert (Hs : sim Some Some) by (intros ? ? ? ?; split; eauto).
  pose proof (step_spec r Some Hs p s ∅) as H.
  destruct (step fl r (St p s ∅) Some) eqn:E.
  - split; [intros _|eauto]. destruct (proj1 H) as (w & post & ? & ? & _); eauto.
  - split; [intros H'; destruct (not_is_Some_None H')|].
    intros (w & post & ? & ?). exfalso. apply (@not_is_Some_None state), H.
    exists w, post. repeat split; auto. exists ∅. eauto.
Qed.

Lemma search_spec r : forall s p,
  is_Some (search fl r p s) <->
  exists s1 w post, s = s1 ++ w ++ post /\ den fl r (rev s1 ++ p) w post.
Proof.
  induction s as [|a s IH]; intros p; simpl.
  - pose proof (match_here_spec r p []) as H.
    destruct (match_here fl r p []) eqn:E.
    + split; [intros _|eauto]. destruct (proj1 H) as (w & post & ? & ?); eauto.
      exists [], w, post. auto.
    + split; [intros H'; destruct (not_is_Some_None H')|].
      intros (s1 & w & post & Heq & Hd). symmetry in Heq.
      apply app_eq_nil in Heq as [-> Heq]. apply H. exists w, post. auto.
  - pose proof (match_here_spec r p (a :: s)) as H.
    destruct (match_here fl r p (a :: s)) eqn:E.
    + split; [intros _|eauto]. destruct (proj1 H) as (w & post & ? & ?); eauto.
      exists [], w, post. auto.
    + rewrite IH. split.
      * intros (s1 & w & post & -> & Hd). exists (a :: s1), w, post.
        split; [reflexivity|]. simpl. by rewrite <- app_assoc.
      * intros (s1 & w & post & Heq & Hd). destruct s1 as [|b s1].
        -- exfalso. apply (@not_is_Some_None rmatch), H. exists w, post. auto.
        -- simpl in Heq. injection Heq as <- ->. exists s1, w, post.
           split; [reflexivity|]. simpl in Hd. by rewrite <- app_assoc in Hd.
Qed.

Theorem test_spec r (str : string) :
  test fl r str = true <->
  exists s1 w post, list_ascii_of_string str = s1 ++ w ++ post /\ den fl r (rev s1) w post.
Proof.
  unfold test, exec. rewrite bool_decide_eq_true, search_spec.
  split; intros (s1 & w & post & ? & Hd); exists s1, w, post;
    (split; [assumption|]); by rewrite app_nil_r in *.
Qed.

End RegexFacts.

(** * The validators *)
Section Validators.
Import Js Regex Create Spec.

Lemma den_seq_inv fl r1 r2 p w post :
  den fl (Seq r1 r2) p w post ->
  exists w1 w2, w = w1 ++ w2 /\ den fl r1 p w1 (w2 ++ post)
                /\ den fl r2 (rev w1 ++ p) w2 post.
Proof. inversion 1; subst; eauto. Qed.

Lemma den_lit_inv fl a p w post : den fl (Lit a) p w post -> w = [a].
Proof. inversion 1; subst; eauto. Qed.

Lemma den_cls_inv fl neg items p w post :
  den fl (Cls neg items) p w post -> exists a, w = [a] /\ cls_mem neg items a = true.
Proof. inversion 1; subst; eauto. Qed.

Lemma den_eps_inv fl p w post : den fl Eps p w post -> w = [].
Proof. inversion 1; subst; eauto. Qed.

Lemma den_bol_inv fl p w post : den fl Bol p w post -> w = [] /\ at_bol fl p = true.
Proof. inversion 1; subst; eauto. Qed.

Lemma den_eol_inv fl p w post : den fl Eol p w post -> w = [] /\ at_eol fl post = true.
Proof. inversion 1; subst; eauto. Qed.

Lemma den_wordb_inv fl p w post :
  den fl WordB p w post -> w = [] /\ at_wordb p post = true.
Proof. inversion 1; subst; eauto. Qed.

Lemma den_group_inv fl n r p w post : den fl (Group n r) p w post -> den fl r p w post.
Proof. inversion 1; subst; eauto. Qed.

Lemma den_star_cls fl neg items p w post :
  den fl (Star (Cls neg items)) p w post <->
  Forall (fun a => cls_mem neg items a = true) w.
Proof.
  split.
  - intros H. remember (Star (Cls neg items)) as r eqn:Er.
    induction H; try discriminate; injection Er as ->.
    + constructor.
    + apply den_cls_inv in H0 as (a & -> & Ha). simpl. constructor; auto.
  - intros H. revert p. induction H as [|a w Ha Hw IH]; intros p.
    + constructor.
    + change (a :: w) with ([a] ++ w). apply den_star_cons; [discriminate| |apply IH].
      by constructor.
Qed.

Lemma den_cons fl r1 r2 a p w post :
  den fl r1 p [a] (w ++ post) -> den fl r2 (a :: p) w post ->
  den fl (Seq r1 r2) p (a :: w) post.
Proof. intros H1 H2. apply (den_seq fl r1 r2 p [a] w post); assumption. Qed.

Lemma den_last fl r p w post : den fl r p w post -> den fl (Seq r Eps) p w post.
Proof.
  intros H. rewrite <- (app_nil_r w). apply den_seq; [by rewrite app_nil_l|constructor].
Qed.

Ltac den_inv :=
  repeat match goal with
  | H : den _ (seqs _) _ _ _ |- _ => unfold seqs in H; cbn [foldr] in H
  | H : den _ (Str _) _ _ _ |- _ =>
      unfold Str, seqs in H; cbn [foldr map list_ascii_of_string] in H
  | H : den _ (Plus _) _ _ _ |- _ => unfold Plus in H
  | H : den _ (Seq _ _) _ _ _ |- _ =>
      apply den_seq_inv in H as (? & ? & -> & ? & ?)
  | H : den _ (Lit _) _ _ _ |- _ => apply den_lit_inv in H as ->
  | H : den _ (Cls _ _) _ _ _ |- _ => apply den_cls_inv in H as (? & -> & ?)
  | H : den _ Eps _ _ _ |- _ => apply den_eps_inv in H as ->
  | H : den _ Bol _ _ _ |- _ => apply den_bol_inv in H as [-> ?]
  | H : den _ Eol _ _ _ |- _ => apply den_eol_inv in H as [-> ?]
  | H : den _ WordB _ _ _ |- _ => apply den_wordb_inv in H as [-> ?]
  | H : den _ (Group _ _) _ _ _ |- _ => apply den_group_inv in H
  | H : den _ (Star (Cls _ _)) _ _ _ |- _ => apply den_star_cls in H
  end.

Local Abbreviation ALPHA := [Range "a" "z"; Range "A" "Z"].
Local Abbreviation WORDC := [Range "a" "z"; Range "A" "Z"; Range "0" "9"; One "_"].

Lemma cls_alpha a : cls_mem false ALPHA a = is_alpha a.
Proof.
  unfold cls_mem, is_alpha. cbn [existsb citem_mem xorb].
  by rewrite orb_false_r.
Qed.

Lemma cls_wordc a : cls_mem false WORDC a = is_word a.
Proof.
  unfold cls_mem, is_word, is_alpha, is_digit. cbn [existsb citem_mem xorb].
  rewrite orb_false_r, (Ascii.eqb_sym "_" a), !orb_assoc. reflexivity.
Qed.

Lemma Forall_wordc t :
  Forall (fun a => cls_mem false WORDC a = true) t <-> Forall (fun c => is_word c = true) t.
Proof. apply Forall_iff. intros a. by rewrite cls_wordc. Qed.

Lemma den_segment fl p w post : den fl SEGMENT p w post <-> segment w.
Proof.
  split.
  - intros H. unfold SEGMENT in H. den_inv. rewrite app_nil_r.
    eexists _, _. split; [reflexivity|].
    split; [by rewrite <- cls_alpha | by apply Forall_wordc].
  - intros (a & t & -> & Ha & Ht). unfold SEGMENT, seqs. cbn [foldr].
    apply den_cons; [constructor|]. apply den_cons; [constructor; by rewrite cls_alpha|].
    apply den_last. by apply den_star_cls, Forall_wordc.
Qed.

Lemma den_star_pieces fl n R (P : list ascii -> Prop) :
  (forall p w post, den fl R p w post <-> P w) ->
  forall p w post,
    den fl (Star (Group n R)) p w post <->
    exists segs, w = concat segs /\ Forall P segs.
Proof.
  intros HR p w post. split.
  - intros H. remember (Star (Group n R)) as r eqn:Er.
    induction H; try discriminate; injection Er as ->.
    + exists []. split; [reflexivity | constructor].
    + destruct (IHden2 eq_refl) as (segs & -> & Hsegs).
      exists (w1 :: segs). split; [reflexivity|]. constructor; [|exact Hsegs].
      apply den_group_inv, HR in H0. exact H0.
  - intros (segs & -> & Hsegs). revert p.
    induction Hsegs as [|seg segs Hseg Hsegs IH]; intros p; simpl.
    + constructor.
    + destruct seg as [|a seg].
      * simpl. apply IH.
      * apply den_star_cons; [discriminate| |apply IH].
        constructor. by apply HR.
Qed.

Lemma at_bol_nomulti p : at_bol (Flags false false) p = true -> p = [].
Proof. destruct p; [reflexivity | simpl; discriminate]. Qed.

Lemma at_eol_nomulti s : at_eol (Flags false false) s = true -> s = [].
Proof. destruct s; [reflexivity | simpl; discriminate]. Qed.

Lemma rev_nil_inv {A} (l : list A) : rev l = [] -> l = [].
Proof. intros H. rewrite <- (rev_involutive l), H. reflexivity. Qed.

(** The expression of [validatePackageName] accepts exactly the grammar
    of package identifiers. *)
Lemma package_name_re_spec (s : string) :
  test (Flags false false) PACKAGE_NAME_RE s = true <-> java_package_like s.
Proof.
  rewrite test_spec. split.
  - intros (s1 & w & post & Hs & H). unfold PACKAGE_NAME_RE in H. den_inv.
    match goal with H : at_bol _ _ = true |- _ =>
      apply at_bol_nomulti, rev_nil_inv in H; subst s1 end.
    match goal with H : at_eol _ _ = true |- _ =>
      apply at_eol_nomulti in H; simpl in H; subst post end.
    match goal with H : den _ (Star (Group _ _)) _ _ _ |- _ =>
      apply (den_star_pieces _ _ _ segment (den_segment _)) in H
        as (segs & -> & Hsegs) end.
    rewrite !cls_alpha, ?cls_wordc in *.
    repeat match goal with
           | H : Forall (fun a => cls_mem _ _ a = true) _ |- _ => apply Forall_wordc in H
           end.
    simpl in Hs. rewrite !app_nil_r in Hs.
    match type of Hs with _ = ?a :: ?b :: ?t ++ ?d :: ?e :: ?u ++ _ =>
      exists a, (b :: t), ((d :: e :: u) :: segs) end.
    split; [by rewrite Hs|].
    repeat split; try assumption; try discriminate.
    + constructor; assumption.
    + constructor; [|assumption]. eexists _, _. eauto.
  - intros (a & t & segs & Hs & Ha & Hne & Ht & Hsne & Hsegs).
    destruct t as [|b t]; [congruence|]. destruct segs as [|seg segs]; [congruence|].
    apply Forall_cons in Ht as [Hb Ht]. apply Forall_cons in Hsegs as [Hseg Hsegs].
    exists [], (a :: b :: t ++ concat (seg :: segs)), [].
    split; [by rewrite app_nil_r|]. unfold PACKAGE_NAME_RE, seqs. cbn [foldr].
    rewrite <- (app_nil_l (a :: _)). apply den_seq; [by constructor|].
    apply den_cons; [constructor; by rewrite cls_alpha|].
    change (b :: t ++ concat (seg :: segs)) with ((b :: t) ++ concat (seg :: segs)).
    apply den_seq.
    + unfold Plus. apply den_cons; [constructor; by rewrite cls_wordc|].
      apply den_star_cls, Forall_wordc, Ht.
    + rewrite <- (app_nil_r (concat (seg :: segs))). apply den_seq.
      * simpl concat. unfold Plus. apply den_seq.
        -- constructor. by apply (den_segment _).
        -- apply (den_star_pieces _ _ _ segment (den_segment _)). eauto.
      * apply den_last. by constructor.
Qed.

Lemma word_side_rev (b : list ascii) :
  word_side (rev b) = false <-> (forall c, last b = Some c -> is_word c = false).
Proof.
  destruct b as [|x b _] using rev_ind.
  - simpl. split; [intros _ c; discriminate | reflexivity].
  - rewrite rev_app_distr, last_snoc. simpl. split.
    + intros H c [= <-]. exact H.
    + intros H. by apply H.
Qed.

Lemma word_side_head (l : list ascii) :
  word_side l = false <-> (forall c, head l = Some c -> is_word c = false).
Proof.
  destruct l as [|x l]; simpl.
  - split; [intros _ c; discriminate | reflexivity].
  - split; [intros H c [= <-]; exact H | intros H; by apply H].
Qed.

Lemma cls_C_or_c a :
  cls_mem false [One "C"; One "c"] a = true <-> a = "C"%char \/ a = "c"%char.
Proof.
  unfold cls_mem. cbn [existsb citem_mem xorb]. rewrite orb_false_r, orb_true_iff.
  rewrite !Ascii.eqb_eq. split; intros [?|?]; auto.
Qed.

(** A match of the class expression around the letter [c0]. *)
Lemma den_class_intro c0 before after :
  c0 = "C"%char \/ c0 = "c"%char ->
  word_side (rev before) = false -> word_side after = false ->
  den (Flags false false) CLASS_RE (rev before)
    (c0 :: list_ascii_of_string "lass") after.
Proof.
  intros Hc Hb Ha. unfold CLASS_RE, Str, seqs. cbn [foldr map list_ascii_of_string].
  rewrite <- (app_nil_l (c0 :: _)). apply den_seq.
  - constructor. unfold at_wordb. rewrite Hb. simpl.
    destruct Hc as [-> | ->]; reflexivity.
  - apply den_cons; [constructor; by apply cls_C_or_c|].
    rewrite <- (app_nil_r [_; _; _; _]). apply den_seq.
    + repeat (apply den_cons; [constructor|]). constructor.
    + apply den_last. constructor. unfold at_wordb. simpl. by rewrite Ha.
Qed.

(** The expression of the reserved word finds exactly the words class
    and Class that stand alone. *)
Lemma class_re_spec (s : string) :
  test (Flags false false) CLASS_RE s = true <-> contains_class_or_Class s.
Proof.
  rewrite test_spec. split.
  - intros (s1 & w & post & Hs & H). unfold CLASS_RE in H. den_inv.
    match goal with H : cls_mem _ _ _ = true |- _ => apply cls_C_or_c in H; rename H into Hc end.
    repeat match goal with H : at_wordb _ _ = true |- _ =>
      unfold at_wordb in H; simpl in H; revert H end.
    intros Hafter Hbefore.
    assert (word_side post = false) as Hp by (destruct (word_side post); [discriminate|reflexivity]).
    assert (word_side (rev s1) = false) as Hs1.
    { destruct Hc as [-> | ->]; simpl in Hbefore;
        destruct (word_side (rev s1)); (discriminate || reflexivity). }
    simpl in Hs.
    destruct Hc as [-> | ->]; [right | left]; exists s1, post;
      (split; [exact Hs|]); split; [by apply word_side_rev | by apply word_side_head
                                   | by apply word_side_rev | by apply word_side_head].
  - intros [(before & after & Hs & Hb & Ha) | (before & after & Hs & Hb & Ha)];
      apply word_side_rev in Hb; apply word_side_head in Ha;
      eexists before, _, after; (split; [exact Hs|]);
      apply den_class_intro; auto.
Qed.

(** The word class in any mix of cases is more than the expression
    looks for. *)
Lemma class_or_Class_any_case (s : string) :
  contains_class_or_Class s -> contains_class_any_case s.
Proof. intros [H|H]; [exists "class" | exists "Class"]; split; auto. Qed.

End Validators.

(** * The claims on the validators *)
Section ValidatorClaims.
Import Js Regex Create Spec.

Lemma test_false_iff fl r s (P : Prop) :
  (test fl r s = true <-> P) -> (test fl r s = false <-> ~ P).
Proof.
  intros H. destruct (test fl r s); split; try discriminate; try reflexivity.
  - intros HP. exfalso. apply HP, H. reflexivity.
  - intros _ HP. apply H in HP. discriminate.
Qed.

(** C4, as the code has it.  [validatePackageName] rejects every identifier
    outside the grammar of package identifiers and every identifier that
    holds the word class or Class standing alone, and resolves all
    others; so it resolves every identifier of the grammar that holds
    the word class in no mix of cases. *)
Theorem validatePackageName_spec (s : string) :
  (is_rejected (validatePackageName s) = true
     <-> ~ java_package_like s \/ contains_class_or_Class s)
  /\ (validatePackageName s = Resolved tt
     <-> java_package_like s /\ ~ contains_class_or_Class s)
  /\ (java_package_like s /\ ~ contains_class_any_case s
     -> validatePackageName s = Resolved tt).
Proof.
  pose proof (package_name_re_spec s) as Hg.
  pose proof (class_re_spec s) as Hc.
  pose proof (test_false_iff _ _ _ _ Hg) as Hg'.
  pose proof (test_false_iff _ _ _ _ Hc) as Hc'.
  unfold validatePackageName.
  destruct (test (Flags false false) PACKAGE_NAME_RE s) eqn:Eg;
    destruct (test (Flags false false) CLASS_RE s) eqn:Ec; simpl;
    repeat split; try discriminate; try tauto;
    intros [Hj Hn]; first [tauto | exfalso; apply Hn, class_or_Class_any_case, Hc; reflexivity].
Qed.

(** C4, the claim as it stands fails: com.CLASS.app is of the grammar
    and holds the word class in capitals, standing alone, and is
    resolved. *)
Lemma validatePackageName_accepts_CLASS :
  java_package_like "com.CLASS.app"
  /\ contains_class_any_case "com.CLASS.app"
  /\ validatePackageName "com.CLASS.app" = Resolved tt.
Proof.
  split; [|split].
  - apply package_name_re_spec. vm_compute. reflexivity.
  - exists "CLASS". split; [reflexivity|].
    exists (list_ascii_of_string "com."), (list_ascii_of_string ".app").
    split; [reflexivity|]. split; intros c [= <-]; reflexivity.
  - vm_compute. reflexivity.
Qed.

Lemma search_bol_later r : forall s a p,
  search (Flags false false) (Seq Bol r) (a :: p) s = None.
Proof.
  induction s as [|b s IH]; intros a p; simpl; unfold match_here; simpl.
  - reflexivity.
  - apply IH.
Qed.

Lemma leading_digit_spec (s : string) :
  test (Flags false false) LEADING_DIGIT s = true <-> starts_with_digit s.
Proof.
  unfold test, exec, starts_with_digit. rewrite bool_decide_eq_true.
  destruct s as [|c rest].
  - simpl. split.
    + intros [x Hx]. vm_compute in Hx. discriminate.
    + intros (c & rest & Hs & _). discriminate.
  - cbn [list_ascii_of_string search]. unfold match_here, LEADING_DIGIT, seqs.
    cbn [foldr step at_bol st_pre st_rest st_caps eat].
    assert (Hd : cls_mem false [Range "0" "9"] c = is_digit c).
    { unfold cls_mem, is_digit. cbn [existsb citem_mem xorb]. apply orb_false_r. }
    rewrite Hd. destruct (is_digit c) eqn:E.
    + split; [intros _; eauto | intros _; eexists; reflexivity].
    + rewrite search_bol_later. split.
      * intros [x Hx]. discriminate.
      * intros (c' & rest' & [= <- <-] & Hc). congruence.
Qed.

(** C9.  [validateProjectName] rejects the empty name, the name
    CordovaActivity and every name that starts with a digit, and
    resolves every other name. *)
Theorem validateProjectName_spec (s : string) :
  (is_rejected (validateProjectName s) = true <-> bad_project_name s)
  /\ (validateProjectName s = Resolved tt <-> ~ bad_project_name s).
Proof.
  pose proof (leading_digit_spec s) as Hd.
  pose proof (test_false_iff _ _ _ _ Hd) as Hd'.
  unfold validateProjectName, bad_project_name.
  destruct (String.eqb s "") eqn:E1; [apply String.eqb_eq in E1|apply String.eqb_neq in E1];
    [simpl; repeat split; try discriminate; tauto|].
  destruct (String.eqb s "CordovaActivity") eqn:E2;
    [apply String.eqb_eq in E2|apply String.eqb_neq in E2];
    [simpl; repeat split; try discriminate; tauto|].
  destruct (test (Flags false false) LEADING_DIGIT s) eqn:E3; simpl;
    repeat split; try discriminate; try tauto.
Qed.

End ValidatorClaims.

(** * create: what is checked before the disk is touched *)
Section CreateClaims.
Import Js Node Shell Regex Create Spec Sample.

(** X1.  A destination that is already there: the promise is rejected and
    the world is as it was. *)
Lemma create_rejects_existing e p cfg o w :
  exists_ (files w) (relative (cwd e) (js_or p "CordovaExample")) = true ->
  create e p cfg o w
  = (Ret (Rejected (CordovaError "Project already exists! Delete and recreate")), w).
Proof.
  intros H. unfold create, bind, existsSync. rewrite H. reflexivity.
Qed.


(** The same on the sample: proj is there already. *)
Lemma create_rejects_existing_sample :
  let w := world0 (project_with "") in
  create sample_env (Some "proj") config_CordovaActivity None w
  = (Ret (Rejected (CordovaError "Project already exists! Delete and recreate")), w).
Proof. cbv zeta. apply create_rejects_existing. vm_compute. reflexivity. Defined.


(** C1, where the code departs from it.  The project name
    CordovaActivity fails [validateProjectName], yet [create] resolves
    and has written the project: the promise of the validator is
    dropped. *)
Theorem create_ignores_project_name :
  let r := create sample_env (Some "proj") config_CordovaActivity None (world0 store) in
  is_rejected (validateProjectName "CordovaActivity") = true
  /\ store !! "proj" = None
  /\ r.1 = Ret (Resolved "proj")
  /\ files r.2 !! "proj" = Some Dir
  /\ files r.2 !! "proj/res/values/strings.xml"
     = Some (File (Text "<string name='app_name'>CordovaActivity</string>"))
  /\ files r.2 <> store.
Proof.
  assert (H : files (create sample_env (Some "proj") config_CordovaActivity None
                       (world0 store)).2 !! "proj" = Some Dir) by (vm_compute; reflexivity).
  cbv zeta.
  split; [vm_compute; reflexivity|]. split; [vm_compute; reflexivity|].
  split; [vm_compute; reflexivity|]. split; [exact H|].
  split; [vm_compute; reflexivity|].
  intros E. assert (H' : store !! "proj" = Some Dir) by (rewrite <- E; exact H).
  vm_compute in H'. discriminate.
Qed.

(** * writeProjectProperties *)

(** On a well-formed file the references come out as the
    specification says. *)
Example writeProjectProperties_sample :
  let text := ("target=android-19" ++ LF
               ++ "android.library.reference.1=CordovaLib" ++ LF
               ++ "android.library.reference.2=../plugin/lib" ++ LF
               ++ "android.library.reference.3=../../framework" ++ LF
               ++ "android.library.reference.4=../plugin/lib" ++ LF)%string in
  library_references (updatedProperties text "android-25")
  = [("1", "CordovaLib"); ("2", "../plugin/lib")].
Proof. vm_compute. reflexivity. Qed.

(** C7, where the code departs from it.  When the last reference line
    of the file on disk has no line feed after it, the line is read but
    not removed: the file written holds the old reference and the new
    one, both numbered 1. *)
Theorem writeProjectProperties_keeps_unterminated_line :
  let r := writeProjectProperties sample_env "proj" "android-25"
             (world0 (project_with unterminated_properties)) in
  r.1 = Ret tt
  /\ files r.2 !! "proj/project.properties"
     = Some (File (Text ("target=android-25" ++ LF
                         ++ "android.library.reference.1=CordovaLib" ++ LF
                         ++ "android.library.reference.1=CordovaLib" ++ LF)%string))
  /\ library_references (updatedProperties unterminated_properties "android-25")
     = [("1", "CordovaLib"); ("1", "CordovaLib")]
  /\ ~ references_in_order
         (library_references (updatedProperties unterminated_properties "android-25")).
Proof.
  cbv zeta.
  split; [vm_compute; reflexivity|]. split; [vm_compute; reflexivity|].
  split; [vm_compute; reflexivity|].
  intros (Hnum & _). vm_compute in Hnum. discriminate.
Qed.

(** The same with lines that end in CR LF: no old reference is
    removed. *)
Example writeProjectProperties_crlf :
  let CR := String "013"%char "" in
  let text := ("target=android-19" ++ CR ++ LF
               ++ "android.library.reference.1=CordovaLib" ++ CR ++ LF
               ++ "android.library.reference.2=../plugin/lib" ++ CR ++ LF)%string in
  map fst (library_references (updatedProperties text "android-25"))
  = ["1"; "2"; "1"; "2"].
Proof. vm_compute. reflexivity. Qed.

End CreateClaims.

(** * What each command leaves alone *)
Section Frames.
Import Js Node Shell Regex Create Spec.

Implicit Types (F : string -> Prop) (fs : gmap string node).

Lemma keeps_refl F fs : keeps F fs fs.
Proof. intros p n H _. exact H. Qed.

Lemma keeps_trans F fs1 fs2 fs3 : keeps F fs1 fs2 -> keeps F fs2 fs3 -> keeps F fs1 fs3.
Proof. intros H1 H2 p n H HF. eapply H2; [eapply H1|]; eassumption. Qed.

Lemma keeps_insert F fs t n : F t -> keeps F fs (<[t := n]> fs).
Proof.
  intros Ht p m H HF. rewrite lookup_insert_ne; [exact H|]. intros ->. by apply HF.
Qed.

Lemma keeps_insert_fresh F fs t n : fs !! t = None -> keeps F fs (<[t := n]> fs).
Proof.
  intros Ht p m H HF. rewrite lookup_insert_ne; [exact H|]. intros ->. congruence.
Qed.

Lemma keeps_delete F fs t : F t -> keeps F fs (delete t fs).
Proof.
  intros Ht p m H HF. rewrite lookup_delete_ne; [exact H|]. intros ->. by apply HF.
Qed.



Lemma frames_mret {A} F (a : A) : frames F (mret a).
Proof. intros w. apply keeps_refl. Qed.

Lemma frames_throw {A} F err : frames F (@throw A err).
Proof. intros w. apply keeps_refl. Qed.

Lemma frames_bind {A B} F (m : M A) (f : A -> M B) :
  frames F m -> (forall a, frames F (f a)) -> frames F (bind m f).
Proof.
  intros Hm Hf w. unfold bind. specialize (Hm w).
  destruct (m w) as [[a|err] w1]; simpl in *.
  - eapply keeps_trans; [exact Hm | apply Hf].
  - exact Hm.
Qed.

Lemma frames_seq {A B} F (m : M A) (k : M B) :
  frames F m -> frames F k -> frames F (m ;; k).
Proof. intros Hm Hk. apply (frames_bind F m (fun _ => k)); auto. Qed.

Lemma frames_get_world F : frames F get_world.
Proof. intros w. apply keeps_refl. Qed.

Lemma frames_modify F (f : world -> world) :
  (forall w, keeps F (files w) (files (f w))) -> frames F (modify f).
Proof. intros H w. apply H. Qed.

Lemma frames_try_catch {A} F (m : M A) h :
  frames F m -> (forall err, frames F (h err)) -> frames F (try_catch m h).
Proof.
  intros Hm Hh w. unfold try_catch. specialize (Hm w).
  destruct (m w) as [[a|err] w1]; simpl in *.
  - exact Hm.
  - destruct (is_exit err); [exact Hm|].
    eapply keeps_trans; [exact Hm | apply Hh].
Qed.



Lemma frames_if {A} F (b : bool) (m1 m2 : M A) :
  frames F m1 -> frames F m2 -> frames F (if b then m1 else m2).
Proof. destruct b; auto. Qed.

Lemma frames_emit F ev text : frames F (emit ev text).
Proof. apply frames_modify. intros w. apply keeps_refl. Qed.

Lemma frames_console_log F msg : frames F (console_log msg).
Proof. apply frames_modify. intros w. apply keeps_refl. Qed.

Lemma frames_shell_error F msg : frames F (shell_error msg).
Proof. intros w. unfold shell_error. destruct (shell_fatal w); apply keeps_refl. Qed.

Lemma frames_set_fatal F b : frames F (modify (set_fatal b)).
Proof. apply frames_modify. intros w. apply keeps_refl. Qed.

Lemma frames_existsSync F p : frames F (existsSync p).
Proof. intros w. apply keeps_refl. Qed.

Lemma frames_readFileSync F p : frames F (readFileSync p).
Proof.
  intros w. unfold readFileSync. destruct (files w !! p) as [[[?|?]| |?]|]; apply keeps_refl.
Qed.

Lemma frames_writeFileSync F p data : F p -> frames F (writeFileSync p data).
Proof.
  intros Hp w. unfold writeFileSync. destruct (writable (files w) p); simpl.
  - by apply keeps_insert.
  - apply keeps_refl.
Qed.

Lemma frames_unlinkSync F p : F p -> frames F (unlinkSync p).
Proof.
  intros Hp w. unfold unlinkSync.
  destruct (files w !! p) as [[?| |?]|]; simpl; try apply keeps_refl; by apply keeps_delete.
Qed.

Lemma frames_symlinkSync F target p : F p -> frames F (symlinkSync target p).
Proof.
  intros Hp w. unfold symlinkSync.
  destruct (_ && _); simpl; [by apply keeps_insert | apply keeps_refl].
Qed.



Lemma frames_setShellFatal F b (m : M unit) : frames F m -> frames F (setShellFatal b m).
Proof.
  intros Hm. unfold setShellFatal. apply frames_bind; [apply frames_get_world|].
  intros w. repeat apply frames_seq; auto using frames_set_fatal.
Qed.

Lemma frames_for_each {A} F (l : list A) (g : A -> M unit) :
  (forall x, In x l -> frames F (g x)) -> frames F (for_each l g).
Proof.
  induction l as [|x l IH]; intros H; simpl.
  - apply frames_mret.
  - apply frames_seq; [apply H; by left | apply IH; intros y Hy; apply H; by right].
Qed.


(** ** Paths *)

Lemma string_app_cons c (a b : string) :
  (String c a ++ b)%string = String c (a ++ b)%string.
Proof. reflexivity. Qed.

Lemma string_app_nil_l (b : string) : ("" ++ b)%string = b.
Proof. reflexivity. Qed.

Lemma strip_prefix_spec (a p r : string) :
  strip_prefix a p = Some r <-> p = (a ++ r)%string.
Proof.
  revert p. induction a as [|c a IH]; intros p;
    rewrite ?string_app_nil_l, ?string_app_cons; simpl.
  - split; [intros [= ->]; reflexivity | intros ->; reflexivity].
  - destruct p as [|d p].
    + split; discriminate.
    + destruct (Ascii.eqb_spec c d) as [->|Hne].
      * rewrite IH. split; [intros ->; reflexivity | intros [= ->]; reflexivity].
      * split; [discriminate | intros [= Hcd _]; exfalso; apply Hne; by rewrite Hcd].
Qed.

Lemma strip_prefix_app (r a b : string) :
  strip_prefix (r ++ a) (r ++ b) = strip_prefix a b.
Proof.
  induction r as [|c r IH]; rewrite ?string_app_nil_l, ?string_app_cons; simpl;
    [reflexivity|]. by rewrite Ascii.eqb_refl.
Qed.

Lemma string_app_nil_r (s : string) : (s ++ "")%string = s.
Proof.
  induction s as [|c s IH]; rewrite ?string_app_nil_l, ?string_app_cons; congruence.
Qed.

Lemma string_app_assoc (a b c : string) :
  ((a ++ b) ++ c)%string = (a ++ (b ++ c))%string.
Proof.
  induction a as [|x a IH]; rewrite ?string_app_nil_l, ?string_app_cons; congruence.
Qed.

Lemma under_refl d : under d d = true.
Proof.
  unfold under. replace (strip_prefix d d) with (Some ""); [reflexivity|].
  symmetry. apply strip_prefix_spec. by rewrite string_app_nil_r.
Qed.

Lemma under_app (r a b : string) : under (r ++ a) (r ++ b) = under a b.
Proof. unfold under. by rewrite strip_prefix_app. Qed.

Lemma under_spec d p :
  under d p = true <-> p = d \/ exists rest, p = (d ++ "/" ++ rest)%string.
Proof.
  unfold under. destruct (strip_prefix d p) as [[|c r]|] eqn:E.
  - apply strip_prefix_spec in E. rewrite string_app_nil_r in E. split; auto.
  - apply strip_prefix_spec in E. unfold is_slash. split.
    + intros Hc. apply Ascii.eqb_eq in Hc as ->. right. exists r. exact E.
    + intros [H|[rest H]].
      * exfalso. rewrite H in E. rewrite <- (string_app_nil_r d) in E at 1.
        apply (inj (String.append d)) in E. discriminate.
      * rewrite E in H. clear E.
        induction d as [|x d IH]; rewrite ?string_app_nil_l, ?string_app_cons in H.
        -- injection H as ->. apply Ascii.eqb_refl.
        -- injection H as H. auto.
  - split; [discriminate|]. intros [H|[rest H]].
    + subst p. assert (strip_prefix d d = Some "") as E'
        by (apply strip_prefix_spec; by rewrite string_app_nil_r). congruence.
    + assert (strip_prefix d p = Some ("/" ++ rest)%string) as E'
        by (by apply strip_prefix_spec). congruence.
Qed.

Lemma join2_nonempty a b : b <> "" -> join2 a b <> "".
Proof.
  intros Hb. unfold join2. destruct (String.eqb_spec a ""); [exact Hb|].
  destruct (String.eqb_spec b ""); [assumption|]. destruct a; [congruence|discriminate].
Qed.

Lemma under_join2 d x p : d <> "" -> under (join2 d x) p = true -> under d p = true.
Proof.
  intros Hd. unfold join2. destruct (String.eqb_spec d ""); [congruence|].
  destruct (String.eqb_spec x ""); [auto|]. unfold sep.
  rewrite !under_spec. intros [->|[rest ->]]; right.
  - exists x. reflexivity.
  - exists (x ++ "/" ++ rest)%string. by rewrite !string_app_assoc.
Qed.

Lemma list_of_app (a b : string) :
  list_ascii_of_string (a ++ b) = list_ascii_of_string a ++ list_ascii_of_string b.
Proof.
  induction a as [|x a IH]; rewrite ?string_app_nil_l, ?string_app_cons; simpl; congruence.
Qed.

Lemma take_while_app_stop {A} (f : A -> bool) (a b : list A) :
  existsb (fun x => negb (f x)) a = true -> take_while f (a ++ b) = take_while f a.
Proof.
  induction a as [|x a IH]; simpl; [discriminate|].
  destruct (f x); simpl; [intros H; f_equal; auto | reflexivity].
Qed.

Lemma take_while_all {A} (f : A -> bool) (a b : list A) :
  forallb f a = true -> take_while f (a ++ b) = a ++ take_while f b.
Proof.
  induction a as [|x a IH]; simpl; [reflexivity|].
  destruct (f x); simpl; [intros H; f_equal; auto | discriminate].
Qed.

Lemma forallb_rev {A} (f : A -> bool) (l : list A) : forallb f (rev l) = forallb f l.
Proof.
  induction l as [|x l IH]; simpl; [reflexivity|].
  rewrite forallb_app, IH. simpl. rewrite andb_true_r. apply andb_comm.
Qed.

Lemma take_while_forall {A} (f : A -> bool) (l : list A) :
  forallb f l = true -> take_while f l = l.
Proof.
  intros H. rewrite <- (app_nil_r l) at 1. rewrite take_while_all by exact H.
  apply app_nil_r.
Qed.

Lemma basename_no_slash x : no_slash x = true -> basename x = x.
Proof.
  intros Hx. unfold basename. rewrite take_while_forall by (by rewrite forallb_rev).
  rewrite rev_involutive. apply string_of_list_ascii_of_string.
Qed.

Lemma basename_app a x :
  no_slash x = true -> basename (a ++ "/" ++ x)%string = x.
Proof.
  intros Hx. unfold basename. rewrite !list_of_app, !rev_app_distr, <- app_assoc.
  rewrite take_while_all by (by rewrite forallb_rev).
  change (list_ascii_of_string "/") with ["/"%char]. cbn [rev app take_while is_slash].
  rewrite ?Ascii.eqb_refl. cbn [negb]. rewrite app_nil_r, rev_involutive.
  apply string_of_list_ascii_of_string.
Qed.

Lemma basename_join2 a x : no_slash x = true -> x <> "" -> basename (join2 a x) = x.
Proof.
  intros Hx Hne. unfold join2. destruct (String.eqb_spec a "").
  - by apply basename_no_slash.
  - destruct (String.eqb_spec x ""); [congruence|]. by apply basename_app.
Qed.

End Frames.

(** * What the shell commands leave alone *)
Section ShellFrames.
Import Js Node Shell Regex Create Spec.

Implicit Types (F : string -> Prop) (fs : gmap string node).

Lemma exists_false fs p : exists_ fs p = false -> fs !! p = None.
Proof.
  unfold exists_. intros H. apply bool_decide_eq_false in H.
  destruct (fs !! p); [exfalso; apply H; eauto | reflexivity].
Qed.

(** A computation that first looks at the world. *)
Lemma frames_get {A} F (f : world -> M A) :
  (forall w, keeps F (files w) (files (f w w).2)) -> frames F (bind get_world f).
Proof. intros H w. apply H. Qed.

Lemma keeps_mkdirs F ps : forall fs fs', mkdirs ps fs = Some fs' -> keeps F fs fs'.
Proof.
  induction ps as [|a ps IH]; intros fs fs'; simpl.
  - intros [= <-]. apply keeps_refl.
  - destruct (fs !! a) as [[?| |?]|] eqn:E; try discriminate; intros H.
    + by apply IH.
    + by apply IH.
    + eapply keeps_trans; [by apply keeps_insert_fresh | by apply IH].
Qed.


Lemma frames_mkdir_p F p : frames F (mkdir_p p).
Proof.
  apply frames_get. intros w.
  destruct (mkdirs (ancestors p) (files w)) eqn:E; [|apply frames_shell_error].
  simpl. eapply keeps_mkdirs, E.
Qed.

Lemma below_spec src p suffix :
  below src p = Some suffix -> under src (src ++ suffix)%string = true /\ p = (src ++ suffix)%string.
Proof.
  unfold below. destruct (strip_prefix src p) as [[|c r]|] eqn:E; try discriminate.
  destruct (is_slash c) eqn:Ec; [|discriminate]. intros [= <-].
  apply strip_prefix_spec in E. split; [|exact E].
  unfold under. rewrite <- (string_app_nil_r src) at 1.
  rewrite strip_prefix_app. simpl. exact Ec.
Qed.

Lemma keeps_copy_tree force src dst fs :
  keeps (fun p => under dst p = true) fs (copy_tree force src dst fs).
Proof.
  unfold copy_tree. generalize (map_to_list fs) as l.
  induction l as [|e l IH]; simpl; [apply keeps_refl|].
  eapply keeps_trans; [exact IH|]. unfold copy_entry.
  destruct (below src e.1) as [suffix|] eqn:E; [|apply keeps_refl].
  set (acc := foldr _ _ _).
  assert (Ht : under dst (dst ++ suffix)%string = true).
  { unfold below in E. destruct (strip_prefix src e.1) as [[|c r]|]; try discriminate.
    destruct (is_slash c) eqn:Ec; [|discriminate]. injection E as <-.
    unfold under. rewrite <- (string_app_nil_r dst) at 1.
    rewrite strip_prefix_app. simpl. exact Ec. }
  destruct (acc !! (dst ++ suffix)%string) as [[?| |?]|];
    destruct e.2 as [?| |?]; try apply keeps_refl;
    try (by apply keeps_insert).
  destruct force; [by apply keeps_insert | apply keeps_refl].
Qed.

Lemma keeps_seq_at {A B} F (m : M A) (k : M B) w :
  keeps F (files w) (files (m w).2) -> frames F k ->
  keeps F (files w) (files ((m ;; k) w).2).
Proof.
  intros Hm Hk. unfold mbind, M_bind, bind. destruct (m w) as [[a|err] w1]; simpl in *.
  - eapply keeps_trans; [exact Hm | apply Hk].
  - exact Hm.
Qed.

Lemma frames_cp_one F recursive force dest src :
  F dest -> (forall p, under (join2 dest (basename src)) p = true -> F p) ->
  frames F (cp_one recursive force dest src).
Proof.
  intros Hd Hb. apply frames_get. intros w. cbv beta zeta.
  destruct (files w !! src) as [[c| |t]|] eqn:Es; try apply frames_shell_error.
  - set (thisDest := if is_dir (files w) dest then _ else _).
    assert (F thisDest) as Ht.
    { unfold thisDest. destruct (is_dir _ _); [apply Hb, under_refl | exact Hd]. }
    destruct (_ && _); [apply frames_shell_error|].
    destruct (writable _ _); [|apply frames_shell_error].
    simpl. by apply keeps_insert.
  - destruct (negb recursive); [apply frames_console_log|].
    set (newDest := join2 dest (basename src)).
    apply keeps_seq_at.
    + destruct (exists_ (files w) newDest) eqn:Ex; [apply keeps_refl|].
      destruct (parent_ok (files w) newDest).
      * simpl. apply keeps_insert_fresh, exists_false, Ex.
      * apply keeps_seq_at; [apply frames_shell_error | apply frames_throw].
    + apply frames_modify. intros w' p n Hp HF. apply keeps_copy_tree; [exact Hp|].
      intros Hu. apply HF, Hb, Hu.
Qed.

Lemma existsb_rev' {A} (f : A -> bool) (l : list A) : existsb f (rev l) = existsb f l.
Proof.
  induction l as [|x l IH]; simpl; [reflexivity|].
  rewrite existsb_app, IH. simpl. rewrite orb_false_r. apply orb_comm.
Qed.

Lemma existsb_drop_while {A} (f : A -> bool) (l : list A) :
  existsb f l = false -> drop_while (fun c => negb (f c)) l = [].
Proof.
  induction l as [|x l IH]; simpl; [reflexivity|].
  destruct (f x); simpl; [discriminate | exact IH].
Qed.

(** Every path a pattern expands to matches the pattern. *)
Lemma expand_glob_match pat fs x : In x (expand pat fs) -> glob_match pat x = true.
Proof.
  unfold expand. destruct (has_star pat) eqn:E.
  - rewrite <- list_elem_of_In, list_elem_of_filter. tauto.
  - intros [<-|[]]. unfold glob_match, has_star in *.
    rewrite (existsb_drop_while _ _ E). by apply bool_decide_eq_true.
Qed.

Lemma take_drop_while {A} (f : A -> bool) (l : list A) :
  take_while f l ++ drop_while f l = l.
Proof. induction l as [|x l IH]; simpl; [reflexivity|]. destruct (f x); simpl; congruence. Qed.

Lemma take_while_forallb {A} (f : A -> bool) (l : list A) :
  forallb f (take_while f l) = true.
Proof.
  induction l as [|x l IH]; simpl; [reflexivity|].
  destruct (f x) eqn:E; simpl; [by rewrite E|reflexivity].
Qed.

(** A pattern whose last component has no star expands to paths with
    that last component. *)
Lemma glob_match_basename pat x :
  has_star (basename pat) = false -> glob_match pat x = true -> basename x = basename pat.
Proof.
  intros Hb. unfold glob_match.
  destruct (drop_while _ (list_ascii_of_string pat)) as [|star post] eqn:E.
  - intros H. apply bool_decide_eq_true in H.
    rewrite <- (string_of_list_ascii_of_string pat), H.
    by rewrite string_of_list_ascii_of_string.
  - intros H. apply andb_true_iff in H as [H _]. apply andb_true_iff in H as [H Hpost].
    apply bool_decide_eq_true in Hpost.
    pose proof (take_drop_while (fun c => negb (Ascii.eqb c "*")) (list_ascii_of_string pat)) as Hpat.
    rewrite E in Hpat.
    assert (Hstar : star = "*"%char).
    { assert (Hd : forall l, drop_while (fun c => negb (Ascii.eqb c "*")) l = star :: post ->
                   Ascii.eqb star "*" = true).
      { induction l as [|y l IH]; simpl; [discriminate|].
        destruct (Ascii.eqb y "*") eqn:Ey; simpl; [intros [= <- _]; exact Ey | exact IH]. }
      apply Ascii.eqb_eq, (Hd _ E). }
    subst star.
    set (lx := list_ascii_of_string x) in *.
    assert (Hx : lx = take (length lx - length post) lx ++ post).
    { pose proof (take_drop (length lx - length post) lx) as Htd.
      rewrite Hpost in Htd. symmetry. exact Htd. }
    (* the last slash of the pattern lies after the star *)
    assert (Hs : existsb (fun c => negb (negb (is_slash c))) (rev post) = true).
    { destruct (existsb _ (rev post)) eqn:Ee; [reflexivity|]. exfalso.
      assert (forallb (fun c => negb (is_slash c)) (rev post) = true) as Hall.
      { clear -Ee. induction (rev post) as [|y l IH]; simpl in *; [reflexivity|].
        apply orb_false_iff in Ee as [Ey El]. rewrite negb_involutive in Ey.
        rewrite Ey. simpl. auto. }
      unfold has_star, basename in Hb. rewrite list_ascii_of_string_of_list_ascii in Hb.
      rewrite <- Hpat, rev_app_distr in Hb. cbn [rev] in Hb.
      rewrite <- app_assoc, (take_while_all _ _ _ Hall) in Hb.
      cbn [app take_while] in Hb.
      change (negb (is_slash "*")) with true in Hb. cbv iota in Hb.
      rewrite existsb_rev', existsb_app in Hb. cbn [existsb] in Hb.
      rewrite Ascii.eqb_refl, orb_true_l, orb_true_r in Hb. discriminate. }
    unfold basename. fold lx. rewrite Hx, <- Hpat, !rev_app_distr. simpl.
    rewrite <- !app_assoc. rewrite !take_while_app_stop by exact Hs. reflexivity.
Qed.

Lemma frames_cp_sources F recursive force dest l :
  F dest -> (forall x p, In x l -> under (join2 dest (basename x)) p = true -> F p) ->
  frames F (for_each l (cp_one recursive force dest)).
Proof.
  intros Hd Hb. apply frames_for_each. intros x Hx.
  apply frames_cp_one; [exact Hd|]. intros p. by apply Hb.
Qed.

Lemma frames_cp_gen F recursive force source dest :
  F dest ->
  (forall x p, glob_match source x = true ->
               under (join2 dest (basename x)) p = true -> F p) ->
  frames F (cp recursive force source dest).
Proof.
  intros Hd Hb. unfold cp, wrap.
  apply frames_try_catch; [|intros err; apply frames_mret].
  apply frames_get. intros w.
  assert (Hsrc : frames F (for_each (expand source (files w))
                             (cp_one recursive force dest))).
  { apply frames_cp_sources; [exact Hd|]. intros x p Hx.
    apply Hb. eapply expand_glob_match, Hx. }
  destruct (files w !! dest) as [[c| |t]|] eqn:Ed.
  - destruct (negb force); [apply frames_shell_error | apply Hsrc].
  - apply (frames_seq F); [|exact Hsrc]. apply frames_if; [|apply frames_mret].
    apply frames_modify. intros w'. by apply keeps_insert.
  - apply (frames_seq F); [|exact Hsrc]. apply frames_if; [|apply frames_mret].
    apply frames_modify. intros w'. by apply keeps_insert.
  - apply (frames_seq F); [|exact Hsrc]. apply frames_if; [|apply frames_mret].
    apply frames_modify. intros w'. by apply keeps_insert.
Qed.

(** A copy into [dest] stays below [dest]. *)
Lemma frames_cp_into F recursive force source dest :
  dest <> "" -> (forall p, under dest p = true -> F p) ->
  frames F (cp recursive force source dest).
Proof.
  intros Hne HF. apply frames_cp_gen.
  - apply HF, under_refl.
  - intros x p _ Hu. eapply HF, under_join2; eassumption.
Qed.

(** A copy of one named thing goes to [dest] or to its name below
    [dest]. *)
Lemma frames_cp_named F recursive force source dest :
  has_star (basename source) = false -> F dest ->
  (forall p, under (join2 dest (basename source)) p = true -> F p) ->
  frames F (cp recursive force source dest).
Proof.
  intros Hs Hd HF. apply frames_cp_gen; [exact Hd|].
  intros x p Hx. rewrite (glob_match_basename _ _ Hs Hx). apply HF.
Qed.

Lemma frames_rm_rf F d : (forall p, under d p = true -> F p) -> frames F (rm_rf d).
Proof.
  intros HF. apply frames_modify. intros w. simpl. intros p n Hp Hn.
  apply map_lookup_filter_Some. split; [exact Hp|]. simpl.
  destruct (under d p) eqn:E; [exfalso; by apply Hn, HF | reflexivity].
Qed.

Lemma frames_rm_f F p : F p -> frames F (rm_f p).
Proof.
  intros HF. apply frames_get. intros w.
  destruct (files w !! p) as [[c| |t]|]; try apply frames_shell_error;
    try apply frames_mret; simpl; by apply keeps_delete.
Qed.

(** What [ls] lists matches its pattern; [ls] changes nothing. *)
Lemma frames_ls {A} F pat (k : list string -> M A) :
  (forall l, (forall x, In x l -> glob_match pat x = true) -> frames F (k l)) ->
  frames F (bind (ls pat) k).
Proof.
  intros Hk w. unfold bind at 1. unfold ls, bind, get_world. cbv beta.
  assert (Hl : forall x,
             In x (filter (fun p => exists_ (files w) p = true) (expand pat (files w))) ->
             glob_match pat x = true).
  { intros x Hx. apply list_elem_of_In, list_elem_of_filter in Hx as [_ Hx].
    eapply expand_glob_match, list_elem_of_In, Hx. }
  destruct (filter _ (expand pat (files w))) as [|x l'].
  - unfold mbind, M_bind, bind, shell_error. destruct (shell_fatal w); simpl.
    + apply keeps_refl.
    + apply (Hk [] Hl (add_console _ w)).
  - simpl. apply (Hk _ Hl w).
Qed.

End ShellFrames.

(** * What an update leaves alone *)
Section UpdateFrames.
Import Js Node Shell Regex Create Spec.

Variable e : env.
Variable root : string.
Variable B : string -> Prop.
Hypothesis HB : builder_confined e root B.

Local Abbreviation F := (update_area root B).

Lemma join_pair a b : join [a; b] = join2 a b.
Proof. reflexivity. Qed.

Lemma join_snoc3 a b c : join [a; b; c] = join2 (join [a; b]) c.
Proof. reflexivity. Qed.

Lemma join_snoc4 a b c d : join [a; b; c; d] = join2 (join [a; b; c]) d.
Proof. reflexivity. Qed.

Lemma F_root : F root.
Proof. left. left. reflexivity. Qed.

Lemma F_cordova_js p :
  under (join [root; "assets"; "www"; "cordova.js"]) p = true -> F p.
Proof. intros H. left. unfold refreshed_areas. tauto. Qed.

Lemma F_platform_www p : under (join [root; "platform_www"]) p = true -> F p.
Proof. intros H. left. unfold refreshed_areas. tauto. Qed.

Lemma F_jars p : glob_match (join [root; "libs"; "cordova-*.jar"]) p = true -> F p.
Proof. intros H. left. unfold refreshed_areas. tauto. Qed.

Lemma F_CordovaLib p : under (join [root; "CordovaLib"]) p = true -> F p.
Proof. intros H. left. unfold refreshed_areas. tauto. Qed.

Lemma F_cordova p : under (join [root; "cordova"]) p = true -> F p.
Proof. intros H. left. unfold refreshed_areas. tauto. Qed.

Lemma F_build_gradle p : under (join [root; "build.gradle"]) p = true -> F p.
Proof. intros H. left. unfold refreshed_areas. tauto. Qed.

Lemma F_properties : F (join [root; "project.properties"]).
Proof. left. unfold refreshed_areas. tauto. Qed.

Ltac nonempty := apply join2_nonempty; discriminate.

Lemma frames_copyJsAndLibrary shared projectName :
  frames F (copyJsAndLibrary e root shared projectName).
Proof.
  unfold copyJsAndLibrary. cbv zeta.
  apply frames_seq.
  { apply frames_cp_into; [rewrite join_snoc4; nonempty | apply F_cordova_js]. }
  apply frames_seq; [apply frames_mkdir_p|].
  apply frames_seq.
  { apply frames_cp_into; [rewrite join_pair; nonempty | apply F_platform_www]. }
  apply frames_seq.
  { apply frames_cp_into; [rewrite join_pair; nonempty | apply F_platform_www]. }
  apply frames_seq.
  { apply frames_setShellFatal. apply frames_ls. intros l Hl.
    apply frames_seq.
    { apply frames_for_each. intros x Hx. apply frames_seq; [apply frames_console_log|].
      apply frames_rm_f, F_jars, Hl, Hx. }
    apply frames_bind.
    { apply frames_try_catch; [|intros; apply frames_mret].
      apply frames_seq; [|apply frames_mret].
      apply frames_unlinkSync, F_CordovaLib, under_refl. }
    intros wasSymlink. apply frames_if; [apply frames_rm_rf, F_CordovaLib|].
    apply frames_if; [|apply frames_mret].
    apply frames_rm_rf. intros p Hp. apply F_CordovaLib.
    unfold getFrameworkDir in Hp. rewrite join_pair in Hp.
    eapply under_join2; [|exact Hp]. rewrite join_pair. nonempty. }
  unfold getFrameworkDir.
  apply frames_if.
  { apply frames_symlinkSync, F_CordovaLib, under_refl. }
  assert (Hne : join [root; "CordovaLib"] <> "") by (rewrite join_pair; nonempty).
  repeat (apply frames_seq;
          [first [apply frames_mkdir_p | apply frames_cp_into; [exact Hne | apply F_CordovaLib]]|]).
  apply frames_cp_into; [exact Hne | apply F_CordovaLib].
Qed.

Lemma has_star_cordova : has_star "cordova" = false.
Proof. reflexivity. Qed.

Lemma under_cordova_sub a b p :
  under (join [root; "cordova"; a; b]) p = true -> a <> "" -> F p.
Proof.
  intros H Ha. apply F_cordova. rewrite join_snoc4 in H.
  apply under_join2 in H; [|rewrite join_snoc3; by apply join2_nonempty].
  rewrite join_snoc3 in H. apply under_join2 in H; [exact H|].
  rewrite join_pair. nonempty.
Qed.

Lemma frames_copyScripts : frames F (copyScripts e root).
Proof.
  unfold copyScripts. cbv zeta.
  assert (Hne : join [root; "cordova"] <> "") by (rewrite join_pair; nonempty).
  apply frames_seq; [apply frames_rm_rf, F_cordova|].
  apply frames_seq.
  { apply frames_cp_named.
    - rewrite join_snoc4, basename_join2 by (reflexivity || discriminate). reflexivity.
    - apply F_root.
    - rewrite join_snoc4, basename_join2 by (reflexivity || discriminate).
      apply F_cordova. }
  apply frames_seq; [apply frames_cp_into; [exact Hne | apply F_cordova]|].
  apply frames_seq; [apply frames_cp_into; [exact Hne | apply F_cordova]|].
  apply frames_seq.
  { apply frames_cp_into; [rewrite join_snoc4; nonempty|].
    intros p Hp. eapply under_cordova_sub; [exact Hp | discriminate]. }
  apply frames_seq.
  { apply frames_cp_into; [rewrite join_pair; nonempty|].
    intros p Hp. apply F_cordova. rewrite join_pair in Hp.
    eapply under_join2; [exact Hne | exact Hp]. }
  apply frames_cp_into; [rewrite join_snoc4; nonempty|].
  intros p Hp. eapply under_cordova_sub; [exact Hp | discriminate].
Qed.

Lemma frames_copyBuildRules : frames F (copyBuildRules e root).
Proof.
  unfold copyBuildRules. cbv zeta. apply frames_cp_named.
  - rewrite join_pair, basename_join2 by (reflexivity || discriminate). reflexivity.
  - apply F_root.
  - rewrite join_pair, basename_join2 by (reflexivity || discriminate).
    apply F_build_gradle.
Qed.

Lemma frames_writeProjectProperties target :
  frames F (writeProjectProperties e root target).
Proof.
  unfold writeProjectProperties. cbv zeta.
  apply frames_bind; [apply frames_existsSync|]. intros ex.
  apply frames_bind; [apply frames_readFileSync|]. intros data.
  apply frames_writeFileSync, F_properties.
Qed.

Lemma frames_getBuilder builder : frames F (getBuilder_prepBuildFiles e builder root).
Proof.
  intros w. unfold getBuilder_prepBuildFiles.
  destruct (builder_prepBuildFiles e root (files w)) as [fs'|err] eqn:E; simpl.
  - intros p n Hp HF. eapply HB; [exact E | exact Hp|]. intros Hb. apply HF. by right.
  - apply keeps_refl.
Qed.

Lemma frames_prepBuildFiles : frames F (prepBuildFiles e root).
Proof.
  unfold prepBuildFiles.
  apply frames_bind; [apply frames_existsSync|]. intros ex.
  apply frames_if; [apply frames_throw | apply frames_getBuilder].
Qed.

(** The steps of [update] after the manifest is written. *)
Lemma frames_update_tail (o : options) projectName :
  frames F (copyJsAndLibrary e root (link o) projectName;;
            copyScripts e root;;
            copyBuildRules e root;;
            writeProjectProperties e root (get_target e);;
            prepBuildFiles e root;;
            emit "log" (generateDoneMessage e "update" (link o));;
            mret (Resolved tt)).
Proof.
  apply frames_seq; [apply frames_copyJsAndLibrary|].
  apply frames_seq; [apply frames_copyScripts|].
  apply frames_seq; [apply frames_copyBuildRules|].
  apply frames_seq; [apply frames_writeProjectProperties|].
  apply frames_seq; [apply frames_prepBuildFiles|].
  apply frames_seq; [apply frames_emit|].
  apply frames_mret.
Qed.

Lemma join2_app a b : a <> "" -> b <> "" -> join2 a b = (a ++ "/" ++ b)%string.
Proof.
  intros Ha Hb. unfold join2.
  destruct (String.eqb_spec a ""); [congruence|].
  destruct (String.eqb_spec b ""); [congruence|]. reflexivity.
Qed.

Lemma string_app_nonempty a b : b <> "" -> (a ++ b)%string <> "".
Proof. intros Hb. destruct a; [exact Hb | discriminate]. Qed.

Lemma glob_match_last pat p c :
  glob_match pat p = true -> last (list_ascii_of_string pat) = Some c ->
  c <> "*"%char -> last (list_ascii_of_string p) = Some c.
Proof.
  unfold glob_match. intros H Hl Hc.
  pose proof (take_drop_while (fun c => negb (Ascii.eqb c "*")) (list_ascii_of_string pat)) as Hpat.
  destruct (drop_while _ (list_ascii_of_string pat)) as [|star post] eqn:E.
  - apply bool_decide_eq_true in H. by rewrite <- H.
  - apply andb_true_iff in H as [H _]. apply andb_true_iff in H as [_ Hpost].
    apply bool_decide_eq_true in Hpost.
    assert (Hstar : star = "*"%char).
    { assert (Hd : forall l, drop_while (fun c => negb (Ascii.eqb c "*")) l = star :: post ->
                   Ascii.eqb star "*" = true).
      { induction l as [|y l IH]; simpl; [discriminate|].
        destruct (Ascii.eqb y "*") eqn:Ey; simpl; [intros [= <- _]; exact Ey | exact IH]. }
      apply Ascii.eqb_eq, (Hd _ E). }
    subst star. rewrite <- Hpat in Hl.
    destruct post as [|y post] using rev_ind.
    + rewrite last_snoc in Hl. congruence.
    + rewrite app_comm_cons, app_assoc, last_snoc in Hl. injection Hl as ->.
      rewrite <- (take_drop (length (list_ascii_of_string p) - length (post ++ [c]))
                    (list_ascii_of_string p)), Hpost, app_assoc.
      apply last_snoc.
Qed.

Lemma manifest_not_root : manifest_path root <> root.
Proof.
  unfold manifest_path. rewrite join_pair. destruct (String.eqb_spec root "") as [->|Hne].
  - discriminate.
  - rewrite join2_app by (assumption || discriminate). intros H.
    rewrite <- (string_app_nil_r root) in H at 2.
    apply (inj (String.append root)) in H. discriminate.
Qed.

(** The manifest is in none of the refreshed areas. *)
Lemma manifest_not_refreshed : ~ refreshed_areas root (manifest_path root).
Proof.
  unfold refreshed_areas. intros H.
  destruct H as [H|H]; [by apply manifest_not_root in H|].
  unfold manifest_path in H. destruct (String.eqb_spec root "") as [->|Hne].
  - vm_compute in H. intuition discriminate.
  - rewrite !join_snoc4, !join_snoc3, !join_pair in H.
    rewrite !(join2_app root) in H by (assumption || discriminate).
    repeat rewrite join2_app in H
      by (first [discriminate
                | apply join2_nonempty; discriminate
                | apply string_app_nonempty; let X := fresh in
                  intros X; vm_compute in X; discriminate]).
    rewrite !string_app_assoc in H.
    rewrite !under_app in H.
    destruct H as [H|[H|[H|[H|[H|[H|H]]]]]]; try (vm_compute in H; discriminate).
    + apply (glob_match_last _ _ "r") in H.
      * rewrite list_of_app, last_app in H. vm_compute in H. discriminate.
      * rewrite list_of_app, last_app. reflexivity.
      * discriminate.
    + apply (inj (String.append root)) in H. discriminate.
Qed.


Hypothesis HnB : ~ B (manifest_path root).

Lemma world_then_Q {A B'} (f : unit -> M (promise A)) (v : B') w :
  (thenResolve (then_ Q_ f) v w).2 = (f tt w).2.
Proof.
  unfold thenResolve, then_, Q_, ret. simpl.
  destruct (f tt w) as [[[a|err]|err] w1]; try destruct (is_exit err); reflexivity.
Qed.

Lemma world_bind_ret {A B'} (m : M A) (f : A -> M B') w a w1 :
  m w = (Ret a, w1) -> (bind m f w).2 = (f a w1).2.
Proof. intros H. unfold bind. by rewrite H. Qed.

Lemma lookup_seq_frames {A B'} (m : M A) (k : M B') w p n :
  files (m w).2 !! p = Some n -> frames F k -> ~ F p ->
  files ((m ;; k) w).2 !! p = Some n.
Proof.
  intros Hm Hk HF. unfold mbind, M_bind, bind.
  destruct (m w) as [[a|err] w1]; simpl in *; [|exact Hm].
  by apply (Hk w1).
Qed.

Lemma manifest_outside : ~ F (manifest_path root).
Proof. intros [H|H]; [by apply manifest_not_refreshed in H | by apply HnB]. Qed.

Lemma show_MIN_SDK_VERSION : show_Z MIN_SDK_VERSION = "16".
Proof. reflexivity. Qed.

(** After [update] the manifest is the floored one when it could be
    written, and is as it was otherwise. *)
Lemma update_manifest o w d :
  files w !! manifest_path root = Some (File (Xml d)) ->
  files (update e root o w).2 !! manifest_path root
  = Some (File (Xml (if writable (files w) (manifest_path root) then floored d else d))).
Proof.
  intros Hd. unfold update. rewrite world_then_Q.
  fold (manifest_path root).
  erewrite world_bind_ret by (unfold Manifest.new; rewrite Hd; reflexivity).
  unfold Manifest.getMinSdkVersion, Manifest.doc. rewrite show_MIN_SDK_VERSION.
  destruct (js_lt (Number (minSdkVersion d)) (of_Z MIN_SDK_VERSION)) eqn:Elt.
  - erewrite world_bind_ret by reflexivity.
    destruct (writable (files w) (manifest_path root)) eqn:Ew.
    + apply lookup_seq_frames; [|apply frames_update_tail|apply manifest_outside].
      unfold Manifest.write. simpl. rewrite Ew. simpl.
      rewrite lookup_insert_eq. unfold floored.
      change (of_Z 16) with (of_Z MIN_SDK_VERSION). rewrite Elt. reflexivity.
    + unfold mbind, M_bind, bind, Manifest.write. simpl. rewrite Ew. simpl. exact Hd.
  - erewrite world_bind_ret by reflexivity.
    destruct (writable (files w) (manifest_path root)) eqn:Ew.
    + apply lookup_seq_frames; [|apply frames_update_tail|apply manifest_outside].
      unfold Manifest.write. simpl. rewrite Ew. simpl.
      rewrite lookup_insert_eq. unfold floored.
      change (of_Z 16) with (of_Z MIN_SDK_VERSION). rewrite Elt. reflexivity.
    + unfold mbind, M_bind, bind, Manifest.write. simpl. rewrite Ew. simpl. exact Hd.
Qed.

Lemma js_lt_16_16 : js_lt (Number "16") (of_Z 16) = false.
Proof. reflexivity. Qed.

Lemma floored_idem d : floored (floored d) = floored d.
Proof.
  unfold floored. simpl.
  destruct (js_lt (Number (minSdkVersion d)) (of_Z 16)) eqn:E.
  - by rewrite js_lt_16_16.
  - by rewrite E.
Qed.

Lemma js_ge_of_not_lt a z : a <> NaN -> js_lt a (of_Z z) = false -> js_ge a (of_Z z) = true.
Proof.
  destruct a as [|q|[|]]; simpl; try congruence.
  intros _ H. by apply negb_false_iff in H.
Qed.



End UpdateFrames.

(** * update and updatePlatform *)
Section UpdateClaims.
Import Js Node Shell Regex Create Spec Sample PlatformApi.






(** C3, as the code has it.  When the manifest is where [update] looks for it
    and can be written, one update leaves it with debuggable false and
    with the minimum SDK version 16 if the declared one reads as a
    number below 16, and as declared otherwise, so that it is at least 16
    whenever the declared version reads as a number; a second update
    with the same options changes the manifest no further. *)
Theorem update_manifest_idempotent e root B o w d :
  builder_confined e root B -> ~ B (manifest_path root) ->
  files w !! manifest_path root = Some (File (Xml d)) ->
  writable (files w) (manifest_path root) = true ->
  let w1 := (update e root o w).2 in
  let w2 := (update e root o w1).2 in
  files w1 !! manifest_path root = Some (File (Xml (floored d)))
  /\ debuggable (floored d) = false
  /\ minSdkVersion (floored d)
     = (if js_lt (Number (minSdkVersion d)) (of_Z 16) then "16" else minSdkVersion d)
  /\ (Number (minSdkVersion d) <> NaN ->
      js_ge (Number (minSdkVersion (floored d))) (of_Z 16) = true)
  /\ files w2 !! manifest_path root = files w1 !! manifest_path root.
Proof.
  intros HB HnB Hd Hw. cbv zeta.
  pose proof (update_manifest e root B HB HnB o w d Hd) as H1. rewrite Hw in H1.
  split; [exact H1|]. split; [reflexivity|]. split; [reflexivity|]. split.
  - intros Hnan. unfold floored. cbn [minSdkVersion].
    destruct (js_lt (Number (minSdkVersion d)) (of_Z 16)) eqn:E; [reflexivity|].
    by apply js_ge_of_not_lt.
  - rewrite (update_manifest e root B HB HnB o _ _ H1), H1.
    destruct (writable (files (update e root o w).2) (manifest_path root));
      [by rewrite floored_idem | reflexivity].
Qed.

Lemma sample_builder_confined : builder_confined sample_env "proj" settings_gradle.
Proof.
  intros fs fs' [= <-]. apply keeps_insert. reflexivity.
Qed.

(** The same on the sample project, whose manifest declares 15. *)
Lemma update_manifest_idempotent_witness :
  let w := world0 (legacy_project "15") in
  let w1 := (update sample_env "proj" None w).2 in
  let w2 := (update sample_env "proj" None w1).2 in
  files w1 !! "proj/AndroidManifest.xml"
    = Some (File (Xml (MkManifest "com.example.App" "16" "25" false "MainActivity")))
  /\ files w2 !! "proj/AndroidManifest.xml" = files w1 !! "proj/AndroidManifest.xml".
Proof.
  pose proof (update_manifest_idempotent sample_env "proj" settings_gradle None
                (world0 (legacy_project "15")) (legacy_manifest "15")
                sample_builder_confined
                ltac:(unfold settings_gradle; vm_compute; discriminate)
                ltac:(vm_compute; reflexivity) ltac:(vm_compute; reflexivity)) as H.
  cbv zeta in *. destruct H as (H1 & _ & _ & _ & H2). split; [exact H1 | exact H2].
Defined.

(** C3, the claim as it stands fails: a manifest whose minimum SDK
    version is the code name O is left with it by an update that
    resolves, and O is not a number that is at least 16. *)
Lemma update_keeps_codename :
  let r := update sample_env "proj" None (world0 (legacy_project "O")) in
  r.1 = Ret (Resolved "proj")
  /\ files r.2 !! "proj/AndroidManifest.xml"
     = Some (File (Xml (MkManifest "com.example.App" "O" "25" false "MainActivity")))
  /\ js_ge (Number "O") (of_Z 16) = false.
Proof.
  cbv zeta. split; [vm_compute; reflexivity|]. split; vm_compute; reflexivity.
Qed.

(** The declared version is read as a double: a text a hair below 16
    reads as 16, and update leaves it as it is. *)
Example update_keeps_nearly_16 :
  let v := "15.99999999999999999999" in
  let r := update sample_env "proj" None (world0 (legacy_project v)) in
  js_lt (Number v) (of_Z 16) = false
  /\ js_ge (Number v) (of_Z 16) = true
  /\ files r.2 !! "proj/AndroidManifest.xml"
     = Some (File (Xml (MkManifest "com.example.App" v "25" false "MainActivity"))).
Proof. cbv zeta. repeat split; vm_compute; reflexivity. Qed.



End UpdateClaims.

(** * The facade: addPlugin and removePlugin *)
Section ApiClaims.
Import Js Node Shell Regex Create Spec Sample PlatformApi.

Implicit Types (h : gmap nat (gmap string jsval)) (w : world) (v : jsval).

Lemma new_calls_app w w' cs : calls w' = calls w ++ cs -> new_calls w w' = cs.
Proof. unfold new_calls. intros ->. apply drop_app_length. Qed.

Lemma new_calls_same w w' : calls w' = calls w -> new_calls w w' = [].
Proof. intros H. apply new_calls_app. by rewrite app_nil_r. Qed.

Lemma read_heap_set l key x h v key' :
  read (heap_set l key x h) v key'
  = if bool_decide (v = VRef l /\ key' = key) then x else read h v key'.
Proof.
  unfold read, heap_set. destruct v as [| | | | |l']; try (by rewrite bool_decide_eq_false_2 by (intros [? _]; discriminate)).
  destruct (decide (l' = l)) as [->|Hl].
  - rewrite lookup_insert_eq. simpl. destruct (decide (key' = key)) as [->|Hk].
    + rewrite bool_decide_eq_true_2 by auto. by rewrite lookup_insert_eq.
    + rewrite bool_decide_eq_false_2 by (intros [_ ?]; congruence).
      by rewrite lookup_insert_ne by congruence.
  - rewrite bool_decide_eq_false_2 by (intros [[= ?] _]; congruence).
    by rewrite lookup_insert_ne by congruence.
Qed.

Lemma read_new h v key : read (<[fresh (dom h) := ∅]> h) v key = read h v key.
Proof.
  unfold read. destruct v as [| | | | |l]; try reflexivity.
  destruct (decide (l = fresh (dom h))) as [->|Hl].
  - rewrite lookup_insert_eq. simpl. rewrite lookup_empty.
    assert (h !! fresh (dom h) = None) as ->
      by (apply not_elem_of_dom, is_fresh). reflexivity.
  - by rewrite lookup_insert_ne by congruence.
Qed.

Lemma read_fresh h key : read h (VRef (fresh (dom h))) key = VUndef.
Proof.
  unfold read. assert (h !! fresh (dom h) = None) as ->
    by (apply not_elem_of_dom, is_fresh). reflexivity.
Qed.

Lemma step_get {A} l key (f : jsval -> M A) w :
  bind (get_prop (VRef l) key) f w = f (read (heap w) (VRef l) key) w.
Proof. reflexivity. Qed.

Lemma step_set {A} l key x (k : M A) w :
  (set_prop (VRef l) key x;; k) w = k (set_heap (heap_set l key x) w).
Proof. reflexivity. Qed.

Lemma step_new {A} (f : jsval -> M A) w :
  bind new_object f w
  = f (VRef (fresh (dom (heap w)))) (set_heap (<[fresh (dom (heap w)) := ∅]>) w).
Proof. reflexivity. Qed.

Lemma step_ret {A B'} (a : A) (f : A -> M B') w : bind (mret a) f w = f a w.
Proof. reflexivity. Qed.

Lemma step_skip {A} (k : M A) w : (mret tt;; k) w = k w.
Proof. reflexivity. Qed.

(** ** silent computations *)

Lemma silent_ret {A} (a : A) : silent (mret a).
Proof. intros w. split; reflexivity. Qed.

Lemma silent_throw {A} err : silent (@throw A err).
Proof. intros w. split; reflexivity. Qed.

Lemma silent_bind {A B'} (m : M A) (f : A -> M B') :
  silent m -> (forall a, silent (f a)) -> silent (bind m f).
Proof.
  intros Hm Hf w. unfold bind. specialize (Hm w).
  destruct (m w) as [[a|err] w1]; simpl in *; [|exact Hm].
  destruct (Hf a w1) as [H1 H2]. destruct Hm as [H3 H4]. split; congruence.
Qed.

Lemma silent_seq {A B'} (m : M A) (k : M B') : silent m -> silent k -> silent (m;; k).
Proof. intros Hm Hk. apply (silent_bind m (fun _ => k)); auto. Qed.

Lemma silent_if {A} (b : bool) (m1 m2 : M A) :
  silent m1 -> silent m2 -> silent (if b then m1 else m2).
Proof. destruct b; auto. Qed.

Lemma silent_get_prop v key : silent (get_prop v key).
Proof. destruct v; intros w; split; reflexivity. Qed.

Lemma silent_set_prop v key x : silent (set_prop v key x).
Proof. destruct v; intros w; split; reflexivity. Qed.

Lemma silent_new_object : silent new_object.
Proof. intros w; split; reflexivity. Qed.

Lemma silent_get_world : silent get_world.
Proof. intros w; split; reflexivity. Qed.

Lemma silent_addPlugin_options x this io : silent (addPlugin_options x this io).
Proof.
  unfold addPlugin_options.
  apply silent_bind; [apply silent_if; [apply silent_ret | apply silent_new_object]|].
  intros io'. apply silent_bind; [apply silent_get_prop|]. intros v1.
  apply silent_bind; [apply silent_if; [apply silent_ret | apply silent_new_object]|].
  intros v2. apply silent_seq; [apply silent_set_prop|].
  apply silent_bind; [apply silent_get_prop|]. intros v3.
  apply silent_bind; [apply silent_get_prop|]. intros pn.
  apply silent_seq.
  { apply silent_if; [|apply silent_ret].
    apply silent_bind; [apply silent_get_prop|]. intros v4.
    apply silent_bind; [apply silent_get_world|]. intros w'. apply silent_set_prop. }
  apply silent_seq; [|apply silent_ret].
  apply silent_if; [apply silent_set_prop | apply silent_ret].
Qed.

Lemma silent_removePlugin_options this uo : silent (removePlugin_options this uo).
Proof.
  unfold removePlugin_options.
  apply silent_bind; [apply silent_if; [apply silent_get_prop | apply silent_ret]|].
  intros v. apply silent_if; [|apply silent_ret].
  apply silent_seq; apply silent_set_prop.
Qed.

(** ** The callbacks *)

Lemma clean_spec x this opts w :
  exists r w', clean x this opts w = (Ret r, w')
    /\ calls w' = calls w ++ ApiClean opts (heap w) :: clean_tail x opts
    /\ heap w' = heap w /\ files w' = files w
    /\ is_resolved r = clean_resolves x opts.
Proof.
  unfold clean, clean_tail, clean_resolves, bind, get_world, mbind, M_bind, bind,
    modify, then_, external.
  unfold mbind, M_bind, bind, modify, mret, M_ret, ret. simpl.
  destruct (check_reqs_run x) as [[]|err1]; simpl.
  - destruct (build_runClean x opts) as [[]|err2]; simpl;
      eexists _, _; (split; [reflexivity|]); (split; [|repeat split; reflexivity]);
      cbn [calls add_call]; rewrite <- ?app_assoc; reflexivity.
  - eexists _, _. split; [reflexivity|]. split; [|repeat split; reflexivity].
    cbn [calls add_call]. rewrite <- ?app_assoc. reflexivity.
Qed.


Lemma addPlugin_clean_spec x this w :
  let lo := fresh (dom (heap w)) in
  let hc := heap_set lo "noPrepare" (VBool true) (<[lo := ∅]> (heap w)) in
  exists r w', addPlugin_clean x this w = (Ret r, w')
    /\ calls w' = calls w ++ (if needs_clean x this w
                              then ApiClean (VRef lo) hc :: clean_tail x (VRef lo)
                              else [])
    /\ heap w' = hc /\ files w' = files w
    /\ is_resolved r = negb (needs_clean x this w) || clean_resolves x (VRef lo).
Proof.
  cbv zeta. unfold addPlugin_clean. rewrite step_new.
  change (set_prop ?a ?b ?c;; ?k) with (set_prop a b c;; k).
  rewrite step_set. unfold bind, get_world. cbn [files set_heap].
  fold (needs_clean x this w). destruct (needs_clean x this w).
  - edestruct (clean_spec x this (VRef (fresh (dom (heap w)))))
      as (r & w' & -> & Hc & Hh & Hf & Hr).
    exists r, w'. split; [reflexivity|]. split; [exact Hc|]. split; [exact Hh|].
    split; [exact Hf | exact Hr].
  - eexists _, _. split; [reflexivity|]. split; [by rewrite app_nil_r|].
    split; [reflexivity|]. split; reflexivity.
Qed.

Lemma updateBuildFiles_spec e this plugin w :
  calls (updateBuildFiles e this plugin w).2
  = calls w ++ (if has_frameworks this plugin then [PrepBuildFiles (builder this)] else []).
Proof.
  unfold updateBuildFiles, has_frameworks.
  destruct (length _ =? 0)%nat; simpl; [by rewrite app_nil_r|].
  unfold mbind, M_bind, bind, emit, modify, getBuilder_prepBuildFiles. simpl.
  destruct (builder_prepBuildFiles e (root this) (files w)); reflexivity.
Qed.

Ltac after_updateBuildFiles :=
  match goal with
  | |- context [updateBuildFiles ?e ?this ?plugin ?W] =>
      let Hu := fresh "Hu" in
      pose proof (updateBuildFiles_spec e this plugin W) as Hu;
      destruct (updateBuildFiles e this plugin W) as [[[[]|?]|?] ?];
      try match goal with |- context [is_exit ?err] => destruct (is_exit err) end;
      cbn [snd calls add_call] in Hu |- *; rewrite Hu; clear Hu
  end.

(** The calls of [addPlugin], from the world its option bag was
    completed in. *)
Lemma addPlugin_calls e x this plugin io w :
  let r := addPlugin_options x this io w in
  let lo := fresh (dom (heap r.2)) in
  let hc := heap_set lo "noPrepare" (VBool true) (<[lo := ∅]> (heap r.2)) in
  new_calls w (addPlugin e x this plugin io w).2
  = match r.1 with
    | Throw _ => []
    | Ret io' =>
        (if needs_clean x this w
         then ApiClean (VRef lo) hc :: clean_tail x (VRef lo) else [])
        ++ (if negb (needs_clean x this w) || clean_resolves x (VRef lo)
            then PMAddPlugin (platform this) plugin io' hc
                 :: (if is_resolved (pm_addPlugin x plugin) && has_frameworks this plugin
                     then [PrepBuildFiles (builder this)] else [])
            else [])
    end.
Proof.
  cbv zeta. unfold addPlugin, bind at 1.
  destruct (silent_addPlugin_options x this io w) as [Hc Hf].
  destruct (addPlugin_options x this io w) as [[io'|err] w1]; simpl in Hc, Hf |- *;
    [|by apply new_calls_same].
  unfold thenResolve, then_, Q_, ret. simpl.
  destruct (addPlugin_clean_spec x this w1) as (r & wc & -> & Hcc & Hh & Hfc & Hr).
  assert (needs_clean x this w1 = needs_clean x this w) as Hn
    by (unfold needs_clean; by rewrite Hf).
  rewrite Hn in *. rewrite <- Hr.
  destruct r as [[]|err]; simpl.
  - unfold PluginManager_addPlugin, bind, get_world, external, mbind, M_bind, bind, modify.
    simpl. rewrite Hh.
    destruct (pm_addPlugin x plugin) as [[]|err]; simpl.
    + apply new_calls_app.
      after_updateBuildFiles; rewrite Hcc, Hc, <- !app_assoc; reflexivity.
    + apply new_calls_app. simpl. rewrite Hcc, Hc, <- !app_assoc. reflexivity.
  - apply new_calls_app. rewrite Hcc, Hc, app_nil_r. reflexivity.
Qed.

(** The calls of [removePlugin]. *)
Lemma removePlugin_calls e x this plugin uo w :
  let w1 := (removePlugin_options this uo w).2 in
  new_calls w (removePlugin e x this plugin uo w).2
  = PMRemovePlugin (platform this) plugin uo (heap w1)
    :: (if is_resolved (pm_removePlugin x plugin) && has_frameworks this plugin
        then [PrepBuildFiles (builder this)] else []).
Proof.
  cbv zeta. unfold removePlugin, mbind, M_bind, bind at 1.
  destruct (silent_removePlugin_options this uo w) as [Hc Hf].
  destruct (removePlugin_options this uo w) as [[[]|err] w1] eqn:E; simpl in Hc, Hf |- *.
  - unfold thenResolve, then_, PluginManager_removePlugin, bind, get_world, external,
      mbind, M_bind, bind, modify. simpl.
    destruct (pm_removePlugin x plugin) as [[]|err]; simpl.
    + apply new_calls_app.
      after_updateBuildFiles; rewrite Hc, <- !app_assoc; reflexivity.
    + apply new_calls_app. simpl. rewrite Hc. reflexivity.
  - exfalso. revert E. unfold removePlugin_options, bind.
    destruct (truthy uo) eqn:Et; simpl.
    + destruct uo; try discriminate; simpl;
        repeat match goal with |- context [if ?b then _ else _] => destruct b end;
        discriminate.
    + discriminate.
Qed.

(** ** Counting the regenerations *)

Lemma count_prep_app cs1 cs2 :
  count_prep (cs1 ++ cs2) = (count_prep cs1 + count_prep cs2)%nat.
Proof. unfold count_prep. by rewrite filter_app, length_app. Qed.

Lemma clean_tail_quiet x o :
  count_prep (clean_tail x o) = 0%nat
  /\ existsb is_pm_add (clean_tail x o) = false
  /\ forallb is_clean_call (clean_tail x o) = true.
Proof.
  unfold clean_tail.
  destruct (check_reqs_run x); [destruct (build_runClean x o)|]; repeat split.
Qed.

(** ** Completing the option bag *)

Lemma step_world {A} (f : world -> M A) w : bind get_world f w = f w w.
Proof. reflexivity. Qed.

Lemma step_assoc {A B' C} (m : M A) (f : A -> M B') (g : B' -> M C) w :
  bind (bind m f) g w = bind m (fun a => bind (f a) g) w.
Proof. unfold bind. destruct (m w) as [[a|err] w1]; reflexivity. Qed.

Lemma step_get_prim {A} v key (f : jsval -> M A) w :
  primitive v -> bind (get_prop v key) f w = f VUndef w.
Proof. destruct v; intros []; reflexivity. Qed.

Lemma step_set_prim {A} v key x (k : unit -> M A) w :
  primitive v -> bind (set_prop v key x) k w = k tt w.
Proof. destruct v; intros []; reflexivity. Qed.

Lemma step_set' {A} l key x (k : unit -> M A) w :
  bind (set_prop (VRef l) key x) k w = k tt (set_heap (heap_set l key x) w).
Proof. reflexivity. Qed.

Ltac step :=
  first [ rewrite step_assoc | rewrite step_ret | rewrite step_get | rewrite step_new
        | rewrite step_set' | rewrite step_world
        | rewrite step_get_prim by exact I | rewrite step_set_prim by exact I ];
  cbv beta; cbn [heap set_heap files].

Lemma read_heap_set_same l key x h : read (heap_set l key x h) (VRef l) key = x.
Proof. rewrite read_heap_set. by rewrite bool_decide_eq_true_2. Qed.

Lemma read_heap_set_key l key x h v key' :
  key' <> key -> read (heap_set l key x h) v key' = read h v key'.
Proof. intros H. rewrite read_heap_set. by rewrite bool_decide_eq_false_2 by tauto. Qed.

Ltac reads1 :=
  match goal with
  | |- context [read (heap_set ?l ?key ?x ?h) (VRef ?l) ?key] =>
      rewrite (read_heap_set_same l key x h)
  | |- context [read (heap_set ?l ?key ?x ?h) ?v ?key'] =>
      rewrite (read_heap_set_key l key x h v key') by discriminate
  | |- context [read (<[fresh (dom ?h) := ∅]> ?h) ?v ?key] =>
      rewrite (read_new h v key)
  | |- context [read ?h (VRef (fresh (dom ?h))) ?key] =>
      rewrite (read_fresh h key)
  end.

Ltac reads := repeat reads1.

Ltac branch :=
  match goal with
  | |- context [bind (if negb ?b then _ else _) _ _] => destruct b eqn:?
  | |- context [bind (if ?b then _ else _) _ _] => destruct b eqn:?
  end.

Ltac run := repeat first [ step | reads1 | progress cbn [truthy negb] ].

Lemma addPlugin_options_falsy x this io w :
  truthy io = false ->
  addPlugin_options x this io w
  = addPlugin_options x this (VRef (fresh (dom (heap w))))
      (set_heap (insert (fresh (dom (heap w))) ∅) w).
Proof. intros H. unfold addPlugin_options. rewrite H. reflexivity. Qed.

Lemma addPlugin_options_ref x this l w :
  exists w1, addPlugin_options x this (VRef l) w = (Ret (VRef l), w1)
    /\ (variables_ok (heap w) (VRef l) ->
        PACKAGE_NAME_of (heap w1) (VRef l) = expected_PACKAGE_NAME x this w (VRef l)).
Proof.
  unfold addPlugin_options, variables_ok, expected_PACKAGE_NAME, PACKAGE_NAME_of,
    mbind, M_bind.
  change (truthy (VRef l)) with true. cbv iota. run.
  remember (read (heap w) (VRef l) "variables") as v eqn:Ev.
  destruct (truthy v) eqn:Ht.
  - run. destruct v as [| |b|s|z|lv]; try discriminate Ht;
      repeat (run; try branch);
      (eexists; split; [reflexivity|]); cbn [heap set_heap]; run.
    all: try (intros [?|[? ?]]; discriminate).
    all: intros _; reflexivity.
  - repeat (run; try branch); (eexists; split; [reflexivity|]); cbn [heap set_heap]; run.
    all: intros _; destruct v; try discriminate Ht; reflexivity.
Qed.

Lemma addPlugin_options_spec x this io w io' w1 :
  variables_ok (heap w) io ->
  addPlugin_options x this io w = (Ret io', w1) ->
  PACKAGE_NAME_of (heap w1) io' = expected_PACKAGE_NAME x this w io.
Proof.
  intros Hv E. destruct (truthy io) eqn:Ht.
  - destruct io as [| |b|s|z|l]; try discriminate Ht;
      try (exfalso; revert E; unfold addPlugin_options, mbind, M_bind; rewrite Ht;
           run; discriminate).
    destruct (addPlugin_options_ref x this l w) as (w1' & E' & H).
    rewrite E' in E. injection E as <- <-. auto.
  - rewrite addPlugin_options_falsy in E by done.
    destruct (addPlugin_options_ref x this (fresh (dom (heap w)))
                (set_heap (insert (fresh (dom (heap w))) ∅) w)) as (w1' & E' & H).
    rewrite E' in E. injection E as <- <-. rewrite H.
    + unfold expected_PACKAGE_NAME, PACKAGE_NAME_of. cbn [heap set_heap files]. reads.
      destruct io; try discriminate Ht; reflexivity.
    + left. cbn [heap set_heap]. reads. reflexivity.
Qed.

Lemma addPlugin_options_returns x this io w :
  options_ok io -> exists io' w1, addPlugin_options x this io w = (Ret io', w1).
Proof.
  intros Hio. destruct (truthy io) eqn:Ht.
  - destruct io as [| |b|s|z|l]; try (cbv [options_ok] in Hio; congruence).
    destruct (addPlugin_options_ref x this l w) as (w1 & E & _); eauto.
  - rewrite addPlugin_options_falsy by done.
    edestruct addPlugin_options_ref as (w1 & E & _); eauto.
Qed.

Lemma heap_removePlugin_options this uo w :
  heap (removePlugin_options this uo w).2
  = if asks_platform_www this (heap w) uo then rewritten (heap w) uo else heap w.
Proof.
  unfold removePlugin_options, asks_platform_www, rewritten, mbind, M_bind.
  destruct uo as [| |b|s|z|l]; try reflexivity.
  - destruct b; reflexivity.
  - destruct (truthy (VStr s)); reflexivity.
  - destruct (truthy (VNum z)); reflexivity.
  - change (truthy (VRef l)) with true. cbv iota. run. cbn [andb].
    destruct (is_true (read (heap w) (VRef l) "usePlatformWww")); [|reflexivity].
    destruct (is_true (android_studio this)); reflexivity.
Qed.

(** The flag the constructor leaves on the facade tells the layout
    it found. *)
Lemma Api_android_studio x d p r ev w this w' :
  Api x d p r ev w = (Ret this, w') ->
  is_true (android_studio this) = isAndroidStudioProject x (root this) (files w).
Proof.
  unfold Api, bind, mbind, M_bind, bind, get_world.
  destruct (setupEvents ev w) as [[ev'|err] w1] eqn:E; [|discriminate].
  assert (files w1 = files w) as ->
    by (revert E; destruct ev as [[?|]|]; intros [= <- <-]; reflexivity).
  cbv beta iota zeta.
  destruct (isAndroidStudioProject x (dirname d) (files w)) eqn:Ea;
    intros [= <- _]; cbn [android_studio root is_true]; by rewrite Ea.
Qed.

Lemma clean_tail_hands_on v x o : Forall (hands_on_PACKAGE_NAME v) (clean_tail x o).
Proof.
  unfold clean_tail.
  destruct (check_reqs_run x); [destruct (build_runClean x o)|]; repeat constructor.
Qed.

(** ** The claims about the facade *)

(** C2, as the code has it: a call of addPlugin or of removePlugin
    regenerates the build files once when the plugin declares a
    framework and the plugin manager was reached and resolved, and
    not at all otherwise; a plugin without frameworks never
    regenerates them. *)
Theorem prepBuildFiles_once_after_plugin_manager e x this plugin opts w :
  let added := new_calls w (addPlugin e x this plugin opts w).2 in
  let removed := new_calls w (removePlugin e x this plugin opts w).2 in
  count_prep added
  = (if has_frameworks this plugin && existsb is_pm_add added
        && is_resolved (pm_addPlugin x plugin) then 1 else 0)%nat
  /\ count_prep removed
  = (if has_frameworks this plugin && is_resolved (pm_removePlugin x plugin)
     then 1 else 0)%nat.
Proof.
  cbv zeta. split.
  - rewrite addPlugin_calls. cbv zeta.
    destruct (addPlugin_options x this opts w).1 as [io'|err];
      [|by rewrite andb_false_r].
    match goal with |- context [clean_tail x ?o] =>
      destruct (clean_tail_quiet x o) as (Hp & Ha & _) end.
    rewrite count_prep_app, existsb_app.
    destruct (needs_clean x this w); cbn [negb orb].
    + change (count_prep (ApiClean ?o ?h :: ?cs)) with (count_prep cs).
      cbn [existsb is_pm_add orb]. rewrite Hp, Ha.
      match goal with |- context [clean_resolves x ?o] =>
        destruct (clean_resolves x o) end; cbn [existsb orb];
        [|by rewrite andb_false_r].
      destruct (is_resolved (pm_addPlugin x plugin)), (has_frameworks this plugin);
        reflexivity.
    + destruct (is_resolved (pm_addPlugin x plugin)), (has_frameworks this plugin);
        reflexivity.
  - rewrite removePlugin_calls. cbv zeta.
    destruct (is_resolved (pm_removePlugin x plugin)), (has_frameworks this plugin);
      reflexivity.
Qed.

(** C2, the claim as it stands fails: the plugin declares a
    framework, the plugin manager fails to install it, and the build
    files are not regenerated. *)
Lemma addPlugin_failed_install_regenerates_nothing :
  let added := new_calls (world_with ∅)
    (addPlugin sample_env failing_ext flat_api maps_plugin VUndef (world_with ∅)).2 in
  has_frameworks flat_api maps_plugin = true
  /\ existsb is_pm_add added = true
  /\ count_prep added = 0%nat.
Proof. cbv zeta. split; [reflexivity|]. split; vm_compute; reflexivity. Qed.

(** C5, as the code has it: when the variables of the option bag are
    an object or left out, every call of the plugin manager finds
    PACKAGE_NAME in them, the caller's when that one is truthy and
    the project's otherwise; and the plugin manager is called when
    the option bag is an object or left out and no clean is due. *)
Theorem addPlugin_hands_on_PACKAGE_NAME e x this plugin io w :
  variables_ok (heap w) io ->
  let added := new_calls w (addPlugin e x this plugin io w).2 in
  Forall (hands_on_PACKAGE_NAME (expected_PACKAGE_NAME x this w io)) added
  /\ (options_ok io -> needs_clean x this w = false ->
      existsb is_pm_add added = true).
Proof.
  intros Hv. cbv zeta. rewrite addPlugin_calls. cbv zeta. split.
  - destruct (addPlugin_options x this io w) as [[io'|err] w1] eqn:E;
      cbn [fst snd]; [|constructor].
    pose proof (addPlugin_options_spec _ _ _ _ _ _ Hv E) as Hpn.
    apply Forall_app. split.
    + destruct (needs_clean x this w); [|constructor].
      constructor; [exact I | apply clean_tail_hands_on].
    + destruct (_ || _); [|constructor]. constructor.
      * cbn [hands_on_PACKAGE_NAME]. unfold PACKAGE_NAME_of in *. reads. exact Hpn.
      * destruct (_ && _); repeat constructor.
  - intros Hio Hn. destruct (addPlugin_options_returns x this io w Hio) as (io' & w1 & E).
    rewrite E, Hn. reflexivity.
Qed.

(** The same on the sample: the caller's PACKAGE_NAME is handed on. *)
Lemma addPlugin_hands_on_PACKAGE_NAME_witness :
  let w := world_with custom_name_heap in
  let added := new_calls w
    (addPlugin sample_env sample_ext flat_api plain_plugin (VRef 0) w).2 in
  variables_ok (heap w) (VRef 0)
  /\ Forall (hands_on_PACKAGE_NAME (VStr "org.custom.app")) added
  /\ (options_ok (VRef 0) -> needs_clean sample_ext flat_api w = false ->
      existsb is_pm_add added = true).
Proof.
  cbv zeta. split; [right; by exists 1%nat|].
  apply (addPlugin_hands_on_PACKAGE_NAME sample_env sample_ext flat_api plain_plugin
           (VRef 0) (world_with custom_name_heap)).
  right. by exists 1%nat.
Defined.

(** C5, the claim as it stands fails: the caller supplies the empty
    string as PACKAGE_NAME, and the plugin manager finds the package
    name of the project in its place. *)
Lemma addPlugin_replaces_empty_PACKAGE_NAME :
  let w := world_with empty_name_heap in
  PACKAGE_NAME_of (heap w) (VRef 0) = VStr ""
  /\ exists h rest,
       new_calls w (addPlugin sample_env sample_ext flat_api plain_plugin (VRef 0) w).2
       = PMAddPlugin "android" plain_plugin (VRef 0) h :: rest
       /\ PACKAGE_NAME_of h (VRef 0) = VStr "com.example.App".
Proof.
  cbv zeta. split; [reflexivity|]. eexists _, _. split.
  - vm_compute. reflexivity.
  - vm_compute. reflexivity.
Qed.

(** C6: when the option bag is an object or left out, addPlugin on a
    project of the flat layout whose build state is not clean starts
    with a clean, called with an object whose noPrepare is true; the
    plugin manager comes after it, when the clean resolved.  In every
    other case no clean is made. *)
Theorem addPlugin_cleans_first e x this plugin io w :
  options_ok io ->
  let added := new_calls w (addPlugin e x this plugin io w).2 in
  if needs_clean x this w
  then exists opts h rest,
         added = ApiClean opts h :: clean_tail x opts ++ rest
         /\ read h opts "noPrepare" = VBool true
         /\ existsb is_clean_call rest = false
         /\ existsb is_pm_add rest = clean_resolves x opts
  else existsb is_clean_call added = false
       /\ existsb is_pm_add added = true.
Proof.
  intros Hio. cbv zeta. rewrite addPlugin_calls. cbv zeta.
  destruct (addPlugin_options_returns x this io w Hio) as (io' & w1 & E).
  rewrite E. cbn [fst snd].
  destruct (needs_clean x this w); cbn [negb orb].
  - eexists _, _, _. split; [reflexivity|]. split; [by reads|].
    destruct (clean_resolves x _); [|split; reflexivity].
    destruct (_ && _); split; reflexivity.
  - destruct (_ && _); split; reflexivity.
Qed.

(** The same on the sample project after a build: the clean comes
    first. *)
Lemma addPlugin_cleans_first_witness :
  options_ok VUndef
  /\ exists opts h rest,
       new_calls built_world
         (addPlugin sample_env sample_ext flat_api plain_plugin VUndef built_world).2
       = ApiClean opts h :: clean_tail sample_ext opts ++ rest
       /\ read h opts "noPrepare" = VBool true
       /\ existsb is_clean_call rest = false
       /\ existsb is_pm_add rest = clean_resolves sample_ext opts.
Proof.
  split; [reflexivity|].
  pose proof (addPlugin_cleans_first sample_env sample_ext flat_api plain_plugin
                VUndef built_world eq_refl) as H.
  cbv zeta in H.
  replace (needs_clean sample_ext flat_api built_world) with true in H
    by (vm_compute; reflexivity).
  exact H.
Defined.

(** C10: removePlugin hands the caller's own option bag to the plugin
    manager.  When its usePlatformWww is true and the facade is of
    the Android Studio layout, the bag was rewritten in place before:
    usePlatformWww is false and android_studio is true; in every
    other case the objects are as the caller left them. *)
Theorem removePlugin_rewrites_options e x this plugin uo w :
  exists h rest,
    new_calls w (removePlugin e x this plugin uo w).2
    = PMRemovePlugin (platform this) plugin uo h :: rest
    /\ h = (if asks_platform_www this (heap w) uo
            then rewritten (heap w) uo else heap w)
    /\ (if asks_platform_www this (heap w) uo
        then read h uo "usePlatformWww" = VBool false
             /\ read h uo "android_studio" = VBool true
        else h = heap w).
Proof.
  rewrite removePlugin_calls. cbv zeta. eexists _, _. split; [reflexivity|].
  rewrite heap_removePlugin_options. split; [reflexivity|].
  destruct (asks_platform_www this (heap w) uo) eqn:Ha; [|reflexivity].
  unfold asks_platform_www in Ha.
  destruct uo as [| | | | |l]; try discriminate Ha.
  unfold rewritten. split; by reads.
Qed.


(** The rewriting on the sample: the caller's bag, at 0, asked for the
    platform's www on a facade of the Android Studio layout. *)
Example removePlugin_rewrites_sample :
  let w := world_with platform_www_heap in
  exists h rest,
    new_calls w (removePlugin sample_env sample_ext studio_api plain_plugin (VRef 0) w).2
    = PMRemovePlugin "android" plain_plugin (VRef 0) h :: rest
    /\ read h (VRef 0) "usePlatformWww" = VBool false
    /\ read h (VRef 0) "android_studio" = VBool true.
Proof.
  cbv zeta. eexists _, _. split; [vm_compute; reflexivity|].
  split; vm_compute; reflexivity.
Qed.

End ApiClaims.

(** * Promises of create and update *)
Section Promises.
Import Js Node Shell Regex Create Spec Sample PlatformApi Behaviour.

Lemma relative_plain from p :
  is_absolute from = true -> plain_relative p = true -> relative from p = p.
Proof.
  unfold plain_relative, is_absolute, relative. intros Hf Hp.
  apply andb_true_iff in Hp as [_ Hp]. apply negb_true_iff in Hp.
  destruct from as [|c from]; [discriminate|]. cbn [String.prefix] in Hf.
  destruct (ascii_dec "/" c) as [<-|]; [|discriminate].
  destruct p as [|d p]; [reflexivity|]. cbn [String.prefix strip_prefix] in Hp |- *.
  destruct (ascii_dec "/" d) as [|Hd]; [by destruct p|].
  apply Ascii.eqb_neq in Hd. by rewrite Hd.
Qed.

Lemma thenResolve_resolved {A B} (p : M (promise A)) (v a : B) w :
  (thenResolve p v w).1 = Ret (Resolved a) -> a = v.
Proof.
  unfold thenResolve, then_, ret.
  destruct (p w) as [[[u|err]|err] w1]; simpl; try discriminate.
  by intros [= <-].
Qed.

(** X3.  When the promise of create is resolved, its value is the
    destination, and the destination was not there when create was
    called.  The destination is a plain relative path, which
    path.relative gives back as it is. *)
Theorem create_resolves_with_path e p cfg o w v :
  is_absolute (cwd e) = true ->
  plain_relative (js_or p "CordovaExample") = true ->
  (create e p cfg o w).1 = Ret (Resolved v) ->
  v = js_or p "CordovaExample"
  /\ exists_ (files w) (js_or p "CordovaExample") = false.
Proof.
  intros Hc Hp. unfold create, bind, existsSync. cbv zeta.
  rewrite (relative_plain _ _ Hc Hp).
  destruct (exists_ (files w) (js_or p "CordovaExample")) eqn:E; [discriminate|].
  intros H. apply thenResolve_resolved in H. by split.
Qed.

Lemma create_resolves_with_path_sample :
  "proj" = js_or (Some "proj") "CordovaExample"
  /\ exists_ (files (world0 store)) (js_or (Some "proj") "CordovaExample") = false.
Proof.
  apply (create_resolves_with_path sample_env (Some "proj") config_CordovaActivity None
           (world0 store) "proj"); vm_compute; reflexivity.
Defined.

(** X5.  Without a manifest at the root of the project, update rejects and
    leaves the world as it found it: nothing is written and no event is
    emitted.  The path of the project is a plain one, to which path.join
    appends the name of the manifest. *)
Theorem update_rejects_without_manifest e projectPath o w :
  plain_path projectPath = true ->
  (forall d, files w !! manifest_path projectPath <> Some (File (Xml d))) ->
  exists err, update e projectPath o w = (Ret (Rejected err), w).
Proof.
  intros _ H. unfold update, thenResolve, then_, Q_, ret, bind, Manifest.new.
  cbv zeta. fold (manifest_path projectPath).
  destruct (files w !! manifest_path projectPath) as [[[s|d]| |t]|] eqn:E;
    try (eexists; reflexivity).
  by destruct (H d).
Qed.

Lemma update_rejects_without_manifest_sample :
  exists err,
    update sample_env "proj" None (world0 created)
    = (Ret (Rejected err), world0 created).
Proof.
  apply update_rejects_without_manifest; [reflexivity|].
  intros d. vm_compute. discriminate.
Defined.

End Promises.

(** * The references of project.properties *)
Section References.
Import Js Node Shell Regex Create Spec Sample PlatformApi Behaviour.

Lemma run_eq {A} (m : M A) w a : (m w).1 = Ret a -> m w = (Ret a, (m w).2).
Proof. destruct (m w). simpl. by intros ->. Qed.


Lemma NoDup_nub l : NoDup (nub l).
Proof.
  induction l as [|y l IH]; simpl; constructor.
  - rewrite list_elem_of_filter. tauto.
  - by apply NoDup_filter.
Qed.

Lemma insert_by_index_perm k l : insert_by_index k l ≡ₚ k :: l.
Proof.
  induction l as [|x l IH]; simpl; [reflexivity|].
  destruct (index_of k <=? index_of x)%N; [reflexivity|].
  rewrite IH. apply perm_swap.
Qed.

Lemma sort_by_index_perm l : foldr insert_by_index [] l ≡ₚ l.
Proof.
  induction l as [|x l IH]; simpl; [reflexivity|].
  by rewrite insert_by_index_perm, IH.
Qed.

Lemma Object_keys_perm l :
  Object_keys l ≡ₚ nub (filter (fun k => k ≠ "__proto__") l).
Proof.
  unfold Object_keys. cbv zeta. rewrite sort_by_index_perm.
  induction (nub _) as [|x t IH]; [reflexivity|].
  rewrite !filter_cons.
  destruct (is_array_index x) eqn:E.
  - rewrite decide_True by reflexivity. rewrite decide_False by discriminate.
    simpl. by rewrite IH.
  - rewrite decide_False by discriminate. rewrite decide_True by reflexivity.
    rewrite <- Permutation_middle. by rewrite IH.
Qed.


Lemma append_references_lines ps : forall i data,
  append_references i ps data = (data ++ reference_lines (i + 1) ps)%string.
Proof.
  induction ps as [|p ps IH]; intros i data; simpl.
  - by rewrite string_app_nil_r.
  - rewrite IH, !string_app_assoc. reflexivity.
Qed.

Lemma ends_with_LF (s : string) :
  test (Flags false false) ENDS_WITH_LF s = true -> exists body, s = (body ++ LF)%string.
Proof.
  rewrite test_spec. intros (s1 & w & post & Hs & Hd).
  unfold ENDS_WITH_LF, seqs in Hd. cbn [foldr] in Hd.
  apply den_seq_inv in Hd as (w1 & w2 & -> & H1 & H2).
  apply den_lit_inv in H1 as ->.
  apply den_seq_inv in H2 as (w3 & w4 & -> & H3 & H4).
  apply den_eol_inv in H3 as [-> H3]. apply den_eps_inv in H4 as ->.
  apply at_eol_nomulti in H3. simpl in H3. subst post.
  exists (string_of_list_ascii s1).
  apply (f_equal string_of_list_ascii) in Hs.
  rewrite string_of_list_ascii_of_string in Hs. rewrite Hs.
  clear. simpl. induction s1 as [|c s1 IH]; simpl; [reflexivity|].
  by rewrite string_app_cons, IH.
Qed.

Lemma CordovaLib_is_stale : test (Flags true false) STALE_NESTED "CordovaLib" = true.
Proof. vm_compute. reflexivity. Qed.

Lemma updatedProperties_appends data target :
  exists body ps,
    updatedProperties data target
    = (body ++ LF ++ reference_lines 1 ("CordovaLib" :: ps))%string
    /\ NoDup ps /\ "CordovaLib" ∉ ps.
Proof.
  unfold updatedProperties. cbv zeta. rewrite append_references_lines.
  match goal with |- context [List.filter ?f ?l] => set (ps := List.filter f l) end.
  assert (Hnd : NoDup ps).
  { unfold ps. apply NoDup_ListNoDup, List.NoDup_filter, NoDup_ListNoDup.
    unfold extractSubProjectPaths. rewrite Object_keys_perm. apply NoDup_nub. }
  assert (Hin : "CordovaLib" ∉ ps).
  { unfold ps. intros H. apply list_elem_of_In, filter_In in H as [_ H].
    rewrite CordovaLib_is_stale in H. discriminate. }
  match goal with |- context [if test ?fl ?r ?d then _ else _] =>
    destruct (test fl r d) eqn:E;
      [apply ends_with_LF in E as [body E]; exists body, ps; rewrite E
      |exists d, ps] end;
    rewrite ?string_app_assoc; auto.
Qed.

(** X7.  When writeProjectProperties comes back, the file it wrote ends in
    a block of reference lines numbered from 1, CordovaLib first, with
    no path twice and CordovaLib nowhere else in the block, after a text
    that ends in a line feed; nothing else on the disk has changed. *)
Theorem writeProjectProperties_appends e projectPath target w w' :
  writeProjectProperties e projectPath target w = (Ret tt, w') ->
  (exists body ps,
     files w' !! join [projectPath; "project.properties"]
     = Some (File (Text (body ++ LF ++ reference_lines 1 ("CordovaLib" :: ps))))
     /\ NoDup ps /\ "CordovaLib" ∉ ps)
  /\ (forall p, p <> join [projectPath; "project.properties"] ->
                files w' !! p = files w !! p).
Proof.
  unfold writeProjectProperties, bind, existsSync, readFileSync, writeFileSync.
  cbv zeta. set (dst := join [projectPath; "project.properties"]).
  set (src := if exists_ (files w) dst then dst else _).
  destruct (files w !! src) as [[[data|d]| |t]|]; try discriminate.
  destruct (writable (files w) dst); [|discriminate].
  intros [= <-]. cbn [files set_files]. split.
  - destruct (updatedProperties_appends data target) as (body & ps & -> & H1 & H2).
    exists body, ps. by rewrite lookup_insert_eq.
  - intros p Hp. by rewrite lookup_insert_ne.
Qed.

Lemma writeProjectProperties_appends_sample :
  let w := world0 (project_with listed_properties) in
  let r := writeProjectProperties sample_env "proj" "android-25" w in
  r.1 = Ret tt
  /\ exists body ps,
       files r.2 !! join ["proj"; "project.properties"]
       = Some (File (Text (body ++ LF ++ reference_lines 1 ("CordovaLib" :: ps))))
       /\ NoDup ps /\ "CordovaLib" ∉ ps.
Proof.
  cbv zeta.
  assert (H : (writeProjectProperties sample_env "proj" "android-25"
                 (world0 (project_with listed_properties))).1 = Ret tt)
    by (vm_compute; reflexivity).
  split; [exact H|].
  exact (proj1 (writeProjectProperties_appends _ _ _ _ _ (run_eq _ _ _ H))).
Defined.

End References.

(** * Names: what passes the validator, what the sanitising leaves *)
Section Names.
Import Js Node Shell Regex Create Spec Sample PlatformApi Behaviour.

Lemma alpha_is_word a : is_alpha a = true -> is_word a = true.
Proof. unfold is_word. intros ->. reflexivity. Qed.

Lemma segment_chars w :
  segment w -> In "."%char w /\ Forall (fun c => name_char c = true) w.
Proof.
  intros (a & t & -> & Ha & Ht). split; [by left|].
  constructor; [reflexivity|]. constructor.
  - unfold name_char. by rewrite (alpha_is_word a Ha).
  - eapply Forall_impl; [exact Ht|]. intros c Hc. unfold name_char. by rewrite Hc.
Qed.

Lemma segments_chars segs :
  segs <> [] -> Forall segment segs ->
  In "."%char (concat segs) /\ Forall (fun c => name_char c = true) (concat segs).
Proof.
  intros Hne Hs. split.
  - destruct segs as [|s segs]; [done|]. simpl. apply in_or_app. left.
    apply Forall_cons in Hs as [Hs _]. by apply segment_chars.
  - clear Hne. induction Hs as [|s segs Hs _ IH]; simpl; [constructor|].
    apply Forall_app. split; [by apply segment_chars | exact IH].
Qed.

(** X8.  A package name that validatePackageName resolves begins with a
    letter and a second letter, digit or underscore, so that its first
    part has two characters at least; it has a dot further on, and
    holds nothing but letters, digits, underscores and dots. *)
Theorem validatePackageName_shape s :
  validatePackageName s = Resolved tt ->
  exists a b rest,
    s = String a (String b rest)
    /\ is_alpha a = true /\ is_word b = true
    /\ In "."%char (list_ascii_of_string rest)
    /\ Forall (fun c => name_char c = true) (list_ascii_of_string s).
Proof.
  unfold validatePackageName.
  destruct (test (Flags false false) PACKAGE_NAME_RE s) eqn:E; [|discriminate].
  intros _. apply package_name_re_spec in E as (a & t & segs & Hs & Ha & Hne & Ht & Hsn & Hsegs).
  destruct t as [|b t]; [done|].
  apply Forall_cons in Ht as [Hb Ht].
  destruct (segments_chars segs Hsn Hsegs) as [Hdot Hall].
  exists a, b, (string_of_list_ascii (t ++ concat segs)).
  rewrite list_ascii_of_string_of_list_ascii.
  split; [|split; [exact Ha|split; [exact Hb|split]]].
  - rewrite <- (string_of_list_ascii_of_string s), Hs. reflexivity.
  - apply in_or_app. by right.
  - rewrite Hs. constructor; [unfold name_char; by rewrite (alpha_is_word a Ha)|].
    constructor; [unfold name_char; by rewrite Hb|].
    apply Forall_app. split; [|exact Hall].
    eapply Forall_impl; [exact Ht|]. intros c Hc. unfold name_char. by rewrite Hc.
Qed.

Lemma validatePackageName_shape_sample :
  exists a b rest,
    "io.cordova" = String a (String b rest)
    /\ is_alpha a = true /\ is_word b = true
    /\ In "."%char (list_ascii_of_string rest)
    /\ Forall (fun c => name_char c = true) (list_ascii_of_string "io.cordova").
Proof. apply validatePackageName_shape. vm_compute. reflexivity. Defined.

(** So a name whose first part is a single letter is rejected. *)
Lemma validatePackageName_rejects_short_first_part :
  is_rejected (validatePackageName "a.bc") = true.
Proof. vm_compute. reflexivity. Qed.

(** ** Replacing every character of a class *)

Section OneCharacter.
Variables (fl : flags) (r : re) (pr : ascii -> bool).
Hypothesis Hr : forall st k, step fl r st k = eat pr st k.

Lemma match_here_char pre c rest :
  match_here fl r pre (c :: rest)
  = if pr c then Some (Match pre [c] rest ∅) else None.
Proof.
  unfold match_here. rewrite Hr. unfold eat. simpl.
  destruct (pr c); [|reflexivity].
  unfold consumed. simpl. by rewrite Nat.sub_succ_l, Nat.sub_diag by lia.
Qed.

Lemma match_here_end pre : match_here fl r pre [] = None.
Proof. unfold match_here. by rewrite Hr. Qed.

Lemma search_char pre c rest :
  search fl r pre (c :: rest)
  = if pr c then Some (Match pre [c] rest ∅) else search fl r (c :: pre) rest.
Proof. simpl. rewrite match_here_char. by destruct (pr c). Qed.

Lemma matches_from_skip fuel pre c rest :
  pr c = false ->
  matches_from fl r (S fuel) pre (c :: rest) = matches_from fl r (S fuel) (c :: pre) rest.
Proof.
  intros Hc. cbn [matches_from]. rewrite search_char, Hc. reflexivity.
Qed.

Lemma splice_ext (f g : rmatch -> list ascii) ms whole :
  (forall x, f x = g x) -> forall from, splice from ms f whole = splice from ms g whole.
Proof.
  intros Hfg. induction ms as [|x ms IH]; intros from; simpl; [reflexivity|].
  by rewrite Hfg, IH.
Qed.

Lemma splice_chars by_ : forall rest pre fuel from,
  (from <= length pre)%nat -> (length rest < fuel)%nat ->
  splice from (matches_from fl r fuel pre rest) (fun _ => by_) (rev pre ++ rest)
  = take (length pre - from) (drop from (rev pre ++ rest)) ++ substitute pr by_ rest.
Proof.
  induction rest as [|c rest IH]; intros pre fuel from Hfrom Hfuel;
    (destruct fuel as [|fuel]; [simpl in Hfuel; lia|]).
  - cbn [matches_from search]. rewrite match_here_end. cbn [splice substitute flat_map].
    rewrite !app_nil_r. symmetry. apply take_ge. rewrite length_drop, length_rev. lia.
  - destruct (pr c) eqn:Hc.
    + cbn [matches_from]. rewrite search_char, Hc. cbn [m_text m_after m_before rev].
      change ([] ++ [c]) with [c]. cbn [splice m_before m_text length app].
      f_equal. unfold substitute. cbn [flat_map]. rewrite Hc. fold (substitute pr by_ rest).
      f_equal.
      replace (rev pre ++ c :: rest) with (rev (c :: pre) ++ rest)
        by (simpl; by rewrite <- app_assoc).
      rewrite (IH (c :: pre) fuel (length pre + 1)%nat) by (simpl in *; lia).
      simpl length. replace (S (length pre) - (length pre + 1))%nat with 0%nat by lia.
      reflexivity.
    + rewrite matches_from_skip by exact Hc.
      replace (rev pre ++ c :: rest) with (rev (c :: pre) ++ rest)
        by (simpl; by rewrite <- app_assoc).
      rewrite (IH (c :: pre) (S fuel) from) by (simpl in *; lia).
      unfold substitute. cbn [flat_map]. rewrite Hc. fold (substitute pr by_ rest).
      rewrite (app_assoc _ [c]). f_equal.
      simpl length. replace (S (length pre) - from)%nat with (S (length pre - from)) by lia.
      apply take_S_r. rewrite lookup_drop.
      replace (from + (length pre - from))%nat with (length (rev pre) + 0)%nat
        by (rewrite length_rev; lia).
      simpl rev. rewrite <- app_assoc. by rewrite lookup_app_r, Nat.add_0_r, Nat.sub_diag
        by lia.
Qed.

(** With the flag g, replace puts [by_], a text without dollar
    patterns, for each character the expression takes and keeps the
    others. *)
Lemma replace_chars (m : bool) (by_ s : string) :
  fl = Flags m true ->
  (forall x, substitution (max_group r) x (list_ascii_of_string by_)
             = list_ascii_of_string by_) ->
  replace fl r by_ s
  = string_of_list_ascii
      (substitute pr (list_ascii_of_string by_) (list_ascii_of_string s)).
Proof.
  intros Hfl Hby. unfold replace. cbv zeta. rewrite Hfl at 1. cbn [fl_g]. f_equal.
  rewrite (splice_ext _ (fun _ => list_ascii_of_string by_)) by exact Hby.
  rewrite (splice_chars _ (list_ascii_of_string s) [] _ 0%nat) by (simpl; lia).
  reflexivity.
Qed.

End OneCharacter.

Lemma not_word_or_dot c : cls_mem true [ClsW; One "."] c = negb (name_char c).
Proof.
  unfold cls_mem, name_char. cbn [existsb citem_mem xorb].
  by rewrite orb_false_r, (Ascii.eqb_sym "." c).
Qed.

Lemma length_list_ascii (s : string) :
  length (list_ascii_of_string s) = String.length s.
Proof. induction s as [|c s IH]; simpl; [reflexivity | by rewrite IH]. Qed.

Lemma substitute_map (p : ascii -> bool) (b : ascii) l :
  substitute p [b] l = map (fun c => if p c then b else c) l.
Proof.
  unfold substitute. induction l as [|c l IH]; simpl; [reflexivity|].
  rewrite IH. by destruct (p c).
Qed.

Lemma map_kept (p : ascii -> bool) (b : ascii) l :
  Forall (fun c => p c = true) l -> map (fun c => if p c then c else b) l = l.
Proof. induction 1 as [|c l Hc _ IH]; simpl; [reflexivity|]. by rewrite Hc, IH. Qed.

Lemma sanitised_list (n : string) :
  list_ascii_of_string (replace (Flags false true) NOT_WORD_OR_DOT "_" n)
  = map (fun c => if name_char c then c else "_"%char) (list_ascii_of_string n).
Proof.
  rewrite (replace_chars (Flags false true) NOT_WORD_OR_DOT
             (cls_mem true [ClsW; One "."]) (fun _ _ => eq_refl) false "_" n eq_refl
             (fun _ => eq_refl)).
  rewrite list_ascii_of_string_of_list_ascii.
  change (list_ascii_of_string "_") with ["_"%char]. rewrite substitute_map.
  apply map_ext. intros c. rewrite not_word_or_dot. by destruct (name_char c).
Qed.

(** X9.  The project name create works with, the configured name after
    its replace: each character that is no letter, digit, underscore or
    dot has become an underscore and the others are kept, so the name
    keeps its length and holds only such characters; a name that holds
    only such characters is kept as it is. *)
Theorem project_name_sanitised (n : string) :
  let n' := replace (Flags false true) NOT_WORD_OR_DOT "_" n in
  list_ascii_of_string n'
  = map (fun c => if name_char c then c else "_"%char) (list_ascii_of_string n)
  /\ String.length n' = String.length n
  /\ Forall (fun c => name_char c = true) (list_ascii_of_string n')
  /\ (Forall (fun c => name_char c = true) (list_ascii_of_string n) -> n' = n).
Proof.
  cbv zeta. pose proof (sanitised_list n) as H.
  split; [exact H|]. split; [|split].
  - rewrite <- !length_list_ascii, H. apply length_map.
  - rewrite H. apply Forall_map, Forall_forall. intros c _. simpl.
    by destruct (name_char c) eqn:E.
  - intros Hn. rewrite <- (string_of_list_ascii_of_string n) at 2.
    rewrite <- (string_of_list_ascii_of_string (replace _ _ _ _)), H. f_equal.
    by apply map_kept.
Qed.

(** X10.  The directory of the activity: each dot of the package name has
    become a separator, nothing else has changed. *)
Theorem package_path_dots (package_name : string) :
  list_ascii_of_string (replace (Flags false true) EVERY_DOT sep package_name)
  = map (fun c => if Ascii.eqb "." c then "/"%char else c)
      (list_ascii_of_string package_name).
Proof.
  rewrite (replace_chars (Flags false true) EVERY_DOT (Ascii.eqb ".")
             (fun _ _ => eq_refl) false sep package_name eq_refl (fun _ => eq_refl)).
  rewrite list_ascii_of_string_of_list_ascii.
  change (list_ascii_of_string sep) with ["/"%char]. apply substitute_map.
Qed.

(** A dollar in the replacement is read as String.prototype.replace
    reads it. *)
Example replace_dollar_patterns :
  replace (Flags false false) (Str "__ID__") "a$&b$$c$1" "x __ID__ y" = "x a__ID__b$c$1 y"
  /\ replace (Flags false false) (Group 1 (Str "__ID__")) "a$`b$1c$'" "x __ID__ y"
     = "x ax b__ID__c y y".
Proof. split; vm_compute; reflexivity. Qed.

End Names.

(** * The facade: results and failures *)
Section Facade.
Import Js Node Shell Regex Create Spec Sample PlatformApi Behaviour.

Implicit Types (h : gmap nat (gmap string jsval)) (w : world) (v : jsval).

(** X11.  The steps of clean are called in their order, each only when
    the one before it resolved: check_reqs.run, then the clean of the
    build, then the clean of prepare.  The promise clean hands back is
    the first rejection among them, or else what the last step
    answers. *)
Theorem clean_runs_in_order x this opts w :
  let r := clean x this opts w in
  (forall p, r.1 = Ret p ->
     p = match check_reqs_run x with
         | Rejected err => Rejected err
         | Resolved _ =>
             match build_runClean x opts with
             | Rejected err => Rejected err
             | Resolved _ => prepare_clean x opts
             end
         end)
  /\ new_calls w r.2
     = ApiClean opts (heap w) :: CheckReqsRun ::
       match check_reqs_run x with
       | Rejected _ => []
       | Resolved _ =>
           BuildRunClean opts ::
           match build_runClean x opts with
           | Rejected _ => []
           | Resolved _ => [PrepareClean opts]
           end
       end.
Proof.
  cbv zeta.
  unfold clean, bind, get_world, mbind, M_bind, bind, modify, then_, external.
  unfold mbind, M_bind, bind, modify, mret, M_ret, ret. simpl.
  destruct (check_reqs_run x) as [[]|err1]; simpl;
    [destruct (build_runClean x opts) as [[]|err2]; simpl|];
    (split; [by intros p [= <-]|]);
    apply new_calls_app; cbn [calls add_call]; rewrite <- ?app_assoc; reflexivity.
Qed.

(** X13.  When addPlugin hands back a promise, the promise resolves only
    with true, and only when the plugin manager resolved; when no clean
    is due, a rejection of the plugin manager is the rejection of
    addPlugin. *)
Theorem addPlugin_result e x this plugin io w r :
  (addPlugin e x this plugin io w).1 = Ret r ->
  (forall b, r = Resolved b ->
     b = true /\ is_resolved (pm_addPlugin x plugin) = true)
  /\ (forall err, needs_clean x this w = false ->
        pm_addPlugin x plugin = Rejected err -> r = Rejected err).
Proof.
  unfold addPlugin, bind at 1.
  destruct (silent_addPlugin_options x this io w) as [_ Hf].
  destruct (addPlugin_options x this io w) as [[io'|err0] w1]; [|discriminate].
  simpl in Hf. unfold thenResolve, then_, Q_, ret. simpl.
  destruct (addPlugin_clean_spec x this w1) as (rc & wc & -> & _ & _ & _ & Hr).
  assert (needs_clean x this w1 = needs_clean x this w) as Hn
    by (unfold needs_clean; by rewrite Hf).
  rewrite Hn in Hr.
  destruct rc as [[]|errc]; simpl.
  - unfold PluginManager_addPlugin, bind, get_world, external, mbind, M_bind, bind, modify.
    simpl. destruct (pm_addPlugin x plugin) as [[]|errp]; simpl.
    + match goal with |- context [updateBuildFiles e this plugin ?W] =>
        destruct (updateBuildFiles e this plugin W) as [[[[]|?]|err1] ?] end; simpl;
        try destruct (is_exit err1); simpl; try discriminate;
        intros [= <-]; (split; [|discriminate]); try discriminate;
        intros b [= <-]; auto.
    + intros [= <-]. split; [discriminate|]. by intros ? _ [= <-].
  - intros [= <-]. split; [discriminate|].
    intros err Hnc. rewrite Hnc in Hr. discriminate.
Qed.

Lemma addPlugin_result_sample :
  exists r,
    (addPlugin sample_env failing_ext flat_api maps_plugin VUndef (world_with ∅)).1
    = Ret r
    /\ (forall b, r = Resolved b ->
          b = true /\ is_resolved (pm_addPlugin failing_ext maps_plugin) = true)
    /\ (forall err, needs_clean failing_ext flat_api (world_with ∅) = false ->
          pm_addPlugin failing_ext maps_plugin = Rejected err -> r = Rejected err).
Proof.
  eexists. split; [vm_compute; reflexivity|].
  apply (addPlugin_result sample_env failing_ext flat_api maps_plugin VUndef
           (world_with ∅)).
  vm_compute. reflexivity.
Defined.

Ltac step :=
  first [ rewrite step_assoc | rewrite step_ret | rewrite step_get | rewrite step_new
        | rewrite step_set' | rewrite step_world
        | rewrite step_get_prim by exact I | rewrite step_set_prim by exact I ];
  cbv beta; cbn [heap set_heap files].

(** X14.  With an option bag that is a text, a number or true, addPlugin
    throws a TypeError: the write of variables to such a value is
    dropped, and the read of PACKAGE_NAME then meets undefined.  That is
    before the chain of promises: no clean is run, the plugin manager is
    not called, no build files are made and the disk is as it was. *)
Theorem addPlugin_throws_on_primitive_options e x this plugin io w :
  primitive io -> truthy io = true ->
  exists msg w',
    addPlugin e x this plugin io w = (Throw (TypeError msg), w')
    /\ calls w' = calls w /\ files w' = files w.
Proof.
  intros Hp Ht. unfold addPlugin, bind at 1.
  destruct (silent_addPlugin_options x this io w) as [Hc Hf].
  assert (exists msg w', addPlugin_options x this io w = (Throw (TypeError msg), w'))
    as (msg & w' & E).
  { unfold addPlugin_options, mbind, M_bind. rewrite Ht.
    destruct io; try destruct Hp; repeat step; cbn [truthy]; repeat step;
      eexists _, _; reflexivity. }
  rewrite E in *. eauto.
Qed.

Lemma addPlugin_throws_on_primitive_options_sample :
  exists msg w',
    addPlugin sample_env sample_ext flat_api plain_plugin (VStr "force") (world_with ∅)
    = (Throw (TypeError msg), w')
    /\ calls w' = calls (world_with ∅) /\ files w' = files (world_with ∅).
Proof.
  apply addPlugin_throws_on_primitive_options; [exact I | reflexivity].
Defined.

Lemma setupEvents_returns ev w :
  exists events, setupEvents ev w = (Ret events, (setupEvents ev w).2).
Proof. destruct ev as [ev|]; eexists; reflexivity. Qed.

(** X15.  createPlatform passes a rejection of create on as it is: the
    facade of the project is not loaded and nothing further is done. *)
Theorem createPlatform_passes_rejection e x dest cfg o ev w err w1 :
  create e dest cfg o (setupEvents ev w).2 = (Ret (Rejected err), w1) ->
  createPlatform e x dest cfg o ev w = (Ret (Rejected err), w1).
Proof.
  intros H. unfold createPlatform, bind at 1.
  destruct (setupEvents_returns ev w) as [events ->].
  unfold try_catch, then_. by rewrite H.
Qed.

Lemma createPlatform_passes_rejection_sample :
  let w := world0 {[ "proj" := Dir ]} in
  createPlatform sample_env sample_ext (Some "proj") config_CordovaActivity None None w
  = (Ret (Rejected (CordovaError "Project already exists! Delete and recreate")),
     (setupEvents None w).2).
Proof.
  cbv zeta. apply createPlatform_passes_rejection. vm_compute. reflexivity.
Defined.

(** X16.  updatePlatform passes a rejection of update on as it is: the
    promise it returns is rejected with the same error, in the world
    update left, and no Api object is built. *)
Theorem updatePlatform_passes_rejection e x dest o ev w err w1 :
  update e dest o (setupEvents ev w).2 = (Ret (Rejected err), w1) ->
  updatePlatform e x dest o ev w = (Ret (Rejected err), w1).
Proof.
  intros H. unfold updatePlatform, bind at 1.
  destruct (setupEvents_returns ev w) as [events ->].
  unfold try_catch, then_. by rewrite H.
Qed.

Lemma updatePlatform_passes_rejection_sample :
  let w := world0 {[ "proj" := Dir ]} in
  updatePlatform sample_env sample_ext "proj" None None w
  = (Ret (Rejected (IoError "cannot parse proj/AndroidManifest.xml")),
     (setupEvents None w).2).
Proof.
  cbv zeta. apply updatePlatform_passes_rejection. vm_compute. reflexivity.
Defined.

(** When create resolved, createPlatform loads the facade of the new
    project from the scripts create copied there, and resolves with
    it. *)
Example createPlatform_resolves :
  exists api,
    (createPlatform sample_env sample_ext (Some "proj")
       (Config (Some "com.example.App") (Some "MyApp") None) None None
       (world0 store)).1
    = Ret (Resolved api)
    /\ platform api = "android" /\ root api = "/home/dev/proj".
Proof. eexists. split; [vm_compute; reflexivity|]. split; reflexivity. Qed.

End Facade.

(** * What the scripts leave alone: events and shell.config.fatal *)
Create HintDb stable.
Create HintDb calm.

Section Stable.
Import Js Node Shell Regex Create Spec Sample PlatformApi Behaviour.

Context {B : Type} (g : world -> B).
Hypothesis g_files : forall f w, g (set_files f w) = g w.
Hypothesis g_console : forall l w, g (add_console l w) = g w.
Hypothesis g_call : forall c w, g (add_call c w) = g w.

Lemma stable_ret {A} (a : A) : stable g (ret a).
Proof. intros w. reflexivity. Qed.

Lemma stable_mret {A} (a : A) : stable g (mret a).
Proof. intros w. reflexivity. Qed.

Lemma stable_throw {A} err : stable g (@throw A err).
Proof. intros w. reflexivity. Qed.

Lemma stable_get_world : stable g get_world.
Proof. intros w. reflexivity. Qed.

Lemma stable_bind {A C} (m : M A) (f : A -> M C) :
  stable g m -> (forall a, stable g (f a)) -> stable g (bind m f).
Proof.
  intros Hm Hf w. unfold bind. specialize (Hm w).
  destruct (m w) as [[a|err] w1]; simpl in *; [|exact Hm].
  by rewrite (Hf a w1).
Qed.

Lemma stable_seq {A C} (m : M A) (k : M C) :
  stable g m -> stable g k -> stable g (m;; k).
Proof. intros Hm Hk. apply (stable_bind m (fun _ => k)); auto. Qed.

Lemma stable_try_catch {A} (m : M A) h :
  stable g m -> (forall err, stable g (h err)) -> stable g (try_catch m h).
Proof.
  intros Hm Hh w. unfold try_catch. specialize (Hm w).
  destruct (m w) as [[a|err] w1]; simpl in *; [exact Hm|].
  destruct (is_exit err); simpl; [exact Hm|]. by rewrite (Hh err w1).
Qed.

Lemma stable_then {A C} (p : M (promise A)) (f : A -> M (promise C)) :
  stable g p -> (forall a, stable g (f a)) -> stable g (then_ p f).
Proof.
  intros Hp Hf w. unfold then_. specialize (Hp w).
  destruct (p w) as [[[a|err]|err] w1]; simpl in *; try exact Hp.
  specialize (Hf a w1).
  destruct (f a w1) as [[q|err] w2]; [|destruct (is_exit err)]; simpl in *; congruence.
Qed.

Lemma stable_thenResolve {A C} (p : M (promise A)) (v : C) :
  stable g p -> stable g (thenResolve p v).
Proof. intros Hp. apply stable_then; [exact Hp|]. intros a w. reflexivity. Qed.

Lemma stable_for_each {A} (l : list A) (f : A -> M unit) :
  (forall a, stable g (f a)) -> stable g (for_each l f).
Proof.
  intros Hf. induction l as [|a l IH]; simpl; [apply stable_mret|].
  by apply stable_seq.
Qed.

Lemma stable_set_files f : stable g (modify (set_files f)).
Proof. intros w. apply g_files. Qed.

Lemma stable_console_log msg : stable g (console_log msg).
Proof. intros w. apply g_console. Qed.

Lemma stable_shell_error msg : stable g (shell_error msg).
Proof. intros w. unfold shell_error. destruct (shell_fatal w); apply g_console. Qed.

Lemma stable_existsSync p : stable g (existsSync p).
Proof. intros w. reflexivity. Qed.

Lemma stable_readFileSync p : stable g (readFileSync p).
Proof. intros w. unfold readFileSync. by repeat case_match. Qed.

Lemma stable_writeFileSync p data : stable g (writeFileSync p data).
Proof. intros w. unfold writeFileSync. case_match; [apply g_files | reflexivity]. Qed.

Lemma stable_unlinkSync p : stable g (unlinkSync p).
Proof.
  intros w. unfold unlinkSync. repeat case_match; first [apply g_files | reflexivity].
Qed.

Lemma stable_symlinkSync t p : stable g (symlinkSync t p).
Proof. intros w. unfold symlinkSync. case_match; [apply g_files | reflexivity]. Qed.

Lemma stable_manifest_new p : stable g (Manifest.new p).
Proof. intros w. unfold Manifest.new. by repeat case_match. Qed.

Lemma stable_manifest_write dest m : stable g (Manifest.write dest m).
Proof. intros w. unfold Manifest.write. case_match; [apply g_files | reflexivity]. Qed.

Lemma stable_getBuilder e builder p : stable g (getBuilder_prepBuildFiles e builder p).
Proof.
  intros w. unfold getBuilder_prepBuildFiles. case_match; simpl;
    rewrite ?g_files; apply g_call.
Qed.

#[local] Hint Resolve stable_ret stable_mret stable_throw stable_get_world
  stable_set_files stable_console_log stable_shell_error stable_existsSync
  stable_readFileSync stable_writeFileSync stable_unlinkSync stable_symlinkSync
  stable_manifest_new stable_manifest_write stable_getBuilder : stable.

Ltac stable_tac :=
  repeat first
    [ solve [auto with stable]
    | apply stable_seq
    | apply stable_bind; [|intros ?]
    | apply stable_for_each; intros ?
    | apply stable_try_catch; [|intros ?]
    | match goal with
      | |- stable _ (if ?b then _ else _) => destruct b
      | |- stable _ (match ?x with _ => _ end) => destruct x
      end
    | progress cbv zeta ].

Lemma stable_mkdir p : stable g (mkdir p).
Proof. unfold mkdir. stable_tac. Qed.

Lemma stable_mkdir_p p : stable g (mkdir_p p).
Proof. unfold mkdir_p. stable_tac. Qed.

Lemma stable_cp_one r f dest src : stable g (cp_one r f dest src).
Proof. unfold cp_one. stable_tac. Qed.

Lemma stable_cp r f source dest : stable g (cp r f source dest).
Proof.
  pose proof stable_cp_one. unfold cp, wrap. stable_tac.
Qed.

Lemma stable_rm_rf p : stable g (rm_rf p).
Proof. unfold rm_rf. stable_tac. Qed.

Lemma stable_rm_f p : stable g (rm_f p).
Proof. unfold rm_f. stable_tac. Qed.

Lemma stable_ls pat : stable g (ls pat).
Proof. unfold ls. stable_tac. Qed.

Lemma stable_sed_i r by_ file : stable g (sed_i r by_ file).
Proof. unfold sed_i. stable_tac. Qed.

#[local] Hint Resolve stable_mkdir stable_mkdir_p stable_cp stable_rm_rf stable_rm_f
  stable_ls stable_sed_i : stable.

Lemma stable_copyScripts e p : stable g (copyScripts e p).
Proof. unfold copyScripts. stable_tac. Qed.

Lemma stable_copyBuildRules e p : stable g (copyBuildRules e p).
Proof. unfold copyBuildRules. stable_tac. Qed.

Lemma stable_writeProjectProperties e p t : stable g (writeProjectProperties e p t).
Proof. unfold writeProjectProperties. stable_tac. Qed.

Lemma stable_prepBuildFiles e p : stable g (prepBuildFiles e p).
Proof. unfold prepBuildFiles. stable_tac. Qed.

End Stable.

(** ** With shell.config.fatal off, the clearing of old libraries goes
    through *)
Section Calm.
Import Js Node Shell Regex Create Spec Sample PlatformApi Behaviour.

Lemma calm_mret {A} (a : A) : calm (mret a).
Proof. intros w Hw. split; [by eexists | exact Hw]. Qed.

Lemma calm_get_world : calm get_world.
Proof. intros w Hw. split; [by eexists | exact Hw]. Qed.

Lemma calm_bind {A C} (m : M A) (f : A -> M C) :
  calm m -> (forall a, calm (f a)) -> calm (bind m f).
Proof.
  intros Hm Hf w Hw. unfold bind. destruct (Hm w Hw) as [[a Ha] Hm'].
  destruct (m w) as [[a'|err] w1]; simpl in *; [|discriminate].
  apply (Hf a' w1 Hm').
Qed.

Lemma calm_seq {A C} (m : M A) (k : M C) : calm m -> calm k -> calm (m;; k).
Proof. intros Hm Hk. apply (calm_bind m (fun _ => k)); auto. Qed.

Lemma calm_for_each {A} (l : list A) (f : A -> M unit) :
  (forall a, calm (f a)) -> calm (for_each l f).
Proof.
  intros Hf. induction l as [|a l IH]; simpl; [apply calm_mret|].
  by apply calm_seq.
Qed.

Lemma calm_set_files f : calm (modify (set_files f)).
Proof. intros w Hw. split; [by eexists | exact Hw]. Qed.

Lemma calm_console_log msg : calm (console_log msg).
Proof. intros w Hw. split; [by eexists | exact Hw]. Qed.

Lemma calm_shell_error msg : calm (shell_error msg).
Proof.
  intros w Hw. unfold shell_error. rewrite Hw. split; [by eexists | exact Hw].
Qed.

(** try { fs.unlinkSync(p); } catch (e) { wasSymlink = false; } *)
Lemma calm_try_unlink p :
  calm (try_catch (unlinkSync p;; mret true) (fun _ => mret false)).
Proof.
  intros w Hw. unfold try_catch, mbind, M_bind, bind, unlinkSync.
  destruct (files w !! p) as [[c| |t]|]; simpl; (split; [by eexists | exact Hw]).
Qed.

#[local] Hint Resolve calm_mret calm_get_world calm_set_files calm_console_log
  calm_shell_error calm_try_unlink : calm.

Ltac calm_tac :=
  repeat first
    [ solve [auto with calm]
    | apply calm_seq
    | apply calm_bind; [|intros ?]
    | apply calm_for_each; intros ?
    | match goal with
      | |- calm (if ?b then _ else _) => destruct b
      | |- calm (match ?x with _ => _ end) => destruct x
      end
    | progress cbv zeta ].

Lemma calm_rm_rf p : calm (rm_rf p).
Proof. unfold rm_rf. calm_tac. Qed.

Lemma calm_rm_f p : calm (rm_f p).
Proof. unfold rm_f. calm_tac. Qed.

Lemma calm_ls pat : calm (ls pat).
Proof. unfold ls. calm_tac. Qed.

End Calm.

Section Guarded.
Import Js Node Shell Regex Create Spec Sample PlatformApi Behaviour.

Context {B : Type} (g : world -> B).
Hypothesis g_files : forall f w, g (set_files f w) = g w.
Hypothesis g_console : forall l w, g (add_console l w) = g w.
Hypothesis g_guard : forall m : M unit,
  stable g m -> calm m -> stable g (setShellFatal false m).

Lemma stable_copyJsAndLibrary e p shared n : stable g (copyJsAndLibrary e p shared n).
Proof.
  unfold copyJsAndLibrary. cbv zeta.
  repeat (apply stable_seq;
          [first [ by apply stable_cp | by apply stable_mkdir_p | idtac ]|]).
  - apply g_guard.
    + apply stable_bind; [by apply stable_ls|]. intros oldJars.
      apply stable_seq.
      { apply stable_for_each. intros j. apply stable_seq;
          [by apply stable_console_log | by apply stable_rm_f]. }
      apply stable_bind.
      { apply stable_try_catch; [|intros; apply stable_mret].
        apply stable_seq; [by apply stable_unlinkSync | apply stable_mret]. }
      intros wasSymlink. destruct shared; [by apply stable_rm_rf|].
      destruct (negb wasSymlink); [by apply stable_rm_rf | apply stable_mret].
    + apply calm_bind; [apply calm_ls|]. intros oldJars.
      apply calm_seq.
      { apply calm_for_each. intros j. apply calm_seq;
          [apply calm_console_log | apply calm_rm_f]. }
      apply calm_bind; [apply calm_try_unlink|].
      intros wasSymlink. destruct shared; [apply calm_rm_rf|].
      destruct (negb wasSymlink); [apply calm_rm_rf | apply calm_mret].
  - destruct shared; [by apply stable_symlinkSync|].
    repeat (apply stable_seq;
            [first [ by apply stable_cp | by apply stable_mkdir_p ]|]).
    by apply stable_cp.
Qed.

End Guarded.

(** ** The events of update *)
Section Events.
Import Js Node Shell Regex Create Spec Sample PlatformApi Behaviour.

Lemma emitted_files f w : emitted (set_files f w) = emitted w.
Proof. reflexivity. Qed.
Lemma emitted_console l w : emitted (add_console l w) = emitted w.
Proof. reflexivity. Qed.
Lemma emitted_call c w : emitted (add_call c w) = emitted w.
Proof. reflexivity. Qed.

Lemma mute_setShellFatal b (m : M unit) :
  stable emitted m -> stable emitted (setShellFatal b m).
Proof.
  intros Hm. unfold setShellFatal. apply stable_bind; [apply stable_get_world|].
  intros w0. cbv zeta. apply stable_seq; [by intros w|].
  apply stable_seq; [exact Hm | by intros w].
Qed.

Lemma mute_copyJsAndLibrary e p shared n : stable emitted (copyJsAndLibrary e p shared n).
Proof.
  apply stable_copyJsAndLibrary;
    [exact emitted_files | exact emitted_console
    | intros m Hm _; by apply mute_setShellFatal].
Qed.

Ltac mute_leaf :=
  lazymatch goal with
  | |- stable _ (cp _ _ _ _) =>
      apply stable_cp; [exact emitted_files | exact emitted_console]
  | |- stable _ (mkdir _) =>
      apply stable_mkdir; [exact emitted_files | exact emitted_console]
  | |- stable _ (mkdir_p _) =>
      apply stable_mkdir_p; [exact emitted_files | exact emitted_console]
  | |- stable _ (sed_i _ _ _) =>
      apply stable_sed_i; [exact emitted_files | exact emitted_console]
  | |- stable _ (copyJsAndLibrary _ _ _ _) => apply mute_copyJsAndLibrary
  | |- stable _ (Manifest.write _ _) => apply stable_manifest_write; exact emitted_files
  | |- stable _ (copyScripts _ _) =>
      apply stable_copyScripts; [exact emitted_files | exact emitted_console]
  | |- stable _ (copyBuildRules _ _) =>
      apply stable_copyBuildRules; [exact emitted_files | exact emitted_console]
  | |- stable _ (writeProjectProperties _ _ _) =>
      apply stable_writeProjectProperties; exact emitted_files
  | |- stable _ (prepBuildFiles _ _) =>
      apply stable_prepBuildFiles; [exact emitted_files | exact emitted_call]
  end.

Lemma finishes_emit {A} n t (a : A) : finishes [] (n, t) a (emit n t;; mret a).
Proof. intros w. left. split; reflexivity. Qed.

Lemma finishes_seq {A C} (m : M C) ev (a : A) (k : M A) :
  stable emitted m -> finishes [] ev a k -> finishes [] ev a (m;; k).
Proof.
  intros Hm Hk w. unfold mbind, M_bind, bind. specialize (Hm w).
  destruct (m w) as [[c|err] w1]; simpl in *.
  - destruct (Hk w1) as [[H1 H2]|[H1 H2]]; [left|right]; rewrite H2, Hm; auto.
  - right. split; [eauto | by rewrite Hm, app_nil_r].
Qed.

Lemma finishes_after {A} n t pre ev (a : A) (k : M A) :
  finishes pre ev a k -> finishes ((n, t) :: pre) ev a (emit n t;; k).
Proof.
  intros Hk w. unfold mbind, M_bind, bind, emit, modify.
  destruct (Hk (add_emitted (n, t) w)) as [[H1 H2]|[H1 H2]]; [left|right];
    (split; [exact H1|]); rewrite H2; cbn [emitted add_emitted];
    by rewrite <- app_assoc.
Qed.

Lemma update_emits_run e root o w d :
  files w !! manifest_path root = Some (File (Xml d)) ->
  exists r w', update e root o w = (r, w')
    /\ emitted w'
       = emitted w ++ update_events e (default no_options o) d (resolved r).
Proof.
  intros Hd. unfold update, thenResolve, then_, Q_, ret. cbv zeta.
  unfold bind at 1, Manifest.new.
  change (join [root; "AndroidManifest.xml"]) with (manifest_path root). rewrite Hd.
  unfold update_events.
  match goal with |- context [bind (if _ then _ else _) ?k] => set (K := k) end.
  assert (HK : forall m, finishes [] ("log", generateDoneMessage e "update"
                                         (link (default no_options o)))
                          (Resolved tt) (K m)).
  { intros m. unfold K.
    apply finishes_seq;
      [apply stable_manifest_write; exact emitted_files|].
    apply finishes_seq; [apply mute_copyJsAndLibrary|].
    apply finishes_seq;
      [apply stable_copyScripts; [exact emitted_files | exact emitted_console]|].
    apply finishes_seq;
      [apply stable_copyBuildRules; [exact emitted_files | exact emitted_console]|].
    apply finishes_seq; [apply stable_writeProjectProperties; exact emitted_files|].
    apply finishes_seq;
      [apply stable_prepBuildFiles; [exact emitted_files | exact emitted_call]|].
    apply finishes_emit. }
  destruct (js_lt _ _); unfold mbind, M_bind, bind, emit, modify, mret, M_ret, ret;
    cbv beta iota;
    match goal with |- context [K ?m ?W] =>
      destruct (HK m W) as [[H1 H2]|[[err H1] H2]];
      destruct (K m W) as [[q|err'] w2]; simpl in H1, H2 |- *; simplify_eq
    end;
    try destruct (is_exit err);
    eexists _, _; (split; [reflexivity|]); simpl; rewrite H2; simpl;
    rewrite <- ?app_assoc, ?app_nil_r; reflexivity.
Qed.

(** X17.  On a project with a manifest at its root, update emits the raise
    of the minimum SDK version exactly when the declared one reads as a
    number below 16, and the word that it is done exactly when its
    promise is resolved, after the former; it emits nothing else,
    whether its promise is resolved or rejected or the process ends in
    a command of the shell. *)
Theorem update_emits e root o w d :
  files w !! manifest_path root = Some (File (Xml d)) ->
  let r := update e root o w in
  emitted r.2
  = emitted w ++ update_events e (default no_options o) d (resolved r.1).
Proof.
  intros Hd. destruct (update_emits_run e root o w d Hd) as (r & w' & E & H).
  cbv zeta. rewrite E. exact H.
Qed.

Lemma update_emits_sample :
  let w := world0 (legacy_project "15") in
  let r := update sample_env "proj" None w in
  emitted r.2
  = emitted w ++ update_events sample_env no_options (legacy_manifest "15")
                   (resolved r.1).
Proof.
  cbv zeta. apply (update_emits sample_env "proj" None). vm_compute. reflexivity.
Defined.

Lemma create_emits_run e p cfg o w :
  let project_path := relative (cwd e) (js_or p "CordovaExample") in
  exists_ (files w) project_path = false ->
  validatePackageName (js_or (packageName cfg) "my.cordova.project") = Resolved tt ->
  exists r w', create e p cfg o w = (r, w')
    /\ emitted w'
       = emitted w ++ create_events e project_path cfg (default no_options o)
                        (resolved r).
Proof.
  cbv zeta. intros Hex Hv. unfold create, bind at 1, existsSync. cbv zeta.
  rewrite Hex. unfold thenResolve, then_ at 1 2 3. cbn [mret M_ret ret]. rewrite Hv.
  cbv beta iota.
  match goal with |- context [mbind ?f ?m w] => set (K := mbind f m) end.
  assert (HK : finishes
                 (removelast (create_events e (relative (cwd e) (js_or p "CordovaExample"))
                                cfg (default no_options o) true))
                 ("log", generateDoneMessage e "create" (link (default no_options o)))
                 (Resolved tt) K).
  { unfold K, create_events. cbn [app removelast].
    do 7 apply finishes_after.
    apply finishes_seq.
    { apply mute_setShellFatal. cbv zeta.
      repeat first
        [ apply stable_seq; [mute_leaf|]
        | apply stable_bind; [apply stable_manifest_new | intros ?; cbv zeta] ].
      mute_leaf. }
    apply finishes_seq; [mute_leaf|].
    apply finishes_seq; [mute_leaf|].
    apply finishes_emit. }
  destruct (HK w) as [[H1 H2]|[[err H1] H2]];
    destruct (K w) as [[q|err'] w2]; simpl in H1, H2 |- *; simplify_eq;
    try destruct (is_exit err);
    eexists _, _; (split; [reflexivity|]); simpl; rewrite H2; unfold create_events;
    cbn [app removelast is_resolved]; rewrite ?app_nil_r; reflexivity.
Qed.

(** X18.  Once the destination is found free and the package name valid,
    create emits the values it works with and, exactly when its promise
    is resolved, the word that it is done; it emits nothing else,
    whether its promise is resolved or rejected or the process ends in
    a command of the shell.  The destination is a plain relative path,
    which path.relative gives back as it is. *)
Theorem create_emits e p cfg o w :
  let dest := js_or p "CordovaExample" in
  is_absolute (cwd e) = true -> plain_relative dest = true ->
  exists_ (files w) dest = false ->
  validatePackageName (js_or (packageName cfg) "my.cordova.project") = Resolved tt ->
  let r := create e p cfg o w in
  emitted r.2
  = emitted w ++ create_events e dest cfg (default no_options o) (resolved r.1).
Proof.
  cbv zeta. intros Hc Hp Hex Hv.
  pose proof (create_emits_run e p cfg o w) as H. cbv zeta in H.
  rewrite (relative_plain _ _ Hc Hp) in H.
  destruct (H Hex Hv) as (r & w' & E & Hr). rewrite E. exact Hr.
Qed.

Lemma create_emits_sample :
  let cfg := Config (Some "com.example.App") (Some "My App") None in
  let r := create sample_env (Some "proj") cfg None (world0 store) in
  emitted r.2
  = emitted (world0 store)
    ++ create_events sample_env "proj" cfg no_options (resolved r.1).
Proof.
  cbv zeta. apply (create_emits sample_env (Some "proj")); vm_compute; reflexivity.
Defined.

End Events.

(** ** shell.config.fatal after update and after create *)
Section Fatal.
Import Js Node Shell Regex Create Spec Sample PlatformApi Behaviour.

Lemma fatal_files f w : shell_fatal (set_files f w) = shell_fatal w.
Proof. reflexivity. Qed.
Lemma fatal_console l w : shell_fatal (add_console l w) = shell_fatal w.
Proof. reflexivity. Qed.
Lemma fatal_call c w : shell_fatal (add_call c w) = shell_fatal w.
Proof. reflexivity. Qed.

Lemma fatal_emit n t : stable shell_fatal (emit n t).
Proof. intros w. reflexivity. Qed.

(** A function that cannot throw has the flag put back after it. *)
Lemma fatal_guard (m : M unit) :
  stable shell_fatal m -> calm m -> stable shell_fatal (setShellFatal false m).
Proof.
  intros _ Hm w. unfold setShellFatal, bind, get_world, modify, mbind, M_bind, bind.
  simpl. destruct (Hm (set_fatal false w) eq_refl) as [[a Ha] _].
  destruct (m (set_fatal false w)) as [[u|err] w1]; simpl in *;
    [reflexivity | discriminate].
Qed.

Lemma fatal_copyJsAndLibrary e p shared n :
  stable shell_fatal (copyJsAndLibrary e p shared n).
Proof.
  apply stable_copyJsAndLibrary;
    [exact fatal_files | exact fatal_console | exact fatal_guard].
Qed.

Ltac fatal_leaf :=
  lazymatch goal with
  | |- stable _ (cp _ _ _ _) => apply stable_cp; [exact fatal_files | exact fatal_console]
  | |- stable _ (mkdir _) => apply stable_mkdir; [exact fatal_files | exact fatal_console]
  | |- stable _ (mkdir_p _) =>
      apply stable_mkdir_p; [exact fatal_files | exact fatal_console]
  | |- stable _ (sed_i _ _ _) => apply stable_sed_i; [exact fatal_files | exact fatal_console]
  | |- stable _ (copyJsAndLibrary _ _ _ _) => apply fatal_copyJsAndLibrary
  | |- stable _ (Manifest.write _ _) => apply stable_manifest_write; exact fatal_files
  | |- stable _ (copyScripts _ _) =>
      apply stable_copyScripts; [exact fatal_files | exact fatal_console]
  | |- stable _ (copyBuildRules _ _) =>
      apply stable_copyBuildRules; [exact fatal_files | exact fatal_console]
  | |- stable _ (writeProjectProperties _ _ _) =>
      apply stable_writeProjectProperties; exact fatal_files
  | |- stable _ (prepBuildFiles _ _) =>
      apply stable_prepBuildFiles; [exact fatal_files | exact fatal_call]
  | |- stable _ (emit _ _) => apply fatal_emit
  end.

(** X19.  update leaves shell.config.fatal as it found it, whether it
    resolves or rejects: the one function it runs under setShellFatal
    cannot throw with the flag off. *)
Theorem update_keeps_shell_fatal e root o w :
  shell_fatal (update e root o w).2 = shell_fatal w.
Proof.
  revert w. change (stable shell_fatal (update e root o)).
  unfold update. cbv zeta. apply stable_thenResolve, stable_then; [apply stable_ret|].
  intros _. apply stable_bind; [apply stable_manifest_new|]. intros m.
  apply stable_bind.
  { destruct (js_lt _ _); [|apply stable_mret].
    apply stable_seq; [apply fatal_emit | apply stable_mret]. }
  intros m'. cbv zeta.
  apply stable_seq; [apply stable_manifest_write; exact fatal_files|].
  apply stable_seq; [apply fatal_copyJsAndLibrary|].
  apply stable_seq;
    [apply stable_copyScripts; [exact fatal_files | exact fatal_console]|].
  apply stable_seq;
    [apply stable_copyBuildRules; [exact fatal_files | exact fatal_console]|].
  apply stable_seq; [apply stable_writeProjectProperties; exact fatal_files|].
  apply stable_seq;
    [apply stable_prepBuildFiles; [exact fatal_files | exact fatal_call]|].
  apply stable_seq; [apply fatal_emit | apply stable_mret].
Qed.

(** The same, as a property of the computation. *)
Lemma fatal_update e root o : stable shell_fatal (update e root o).
Proof.
  unfold update. cbv zeta. apply stable_thenResolve, stable_then; [apply stable_ret|].
  intros _. apply stable_bind; [apply stable_manifest_new|]. intros m.
  apply stable_bind.
  { destruct (js_lt _ _); [|apply stable_mret].
    apply stable_seq; [apply fatal_emit | apply stable_mret]. }
  intros m'. cbv zeta.
  apply stable_seq; [apply stable_manifest_write; exact fatal_files|].
  apply stable_seq; [apply fatal_copyJsAndLibrary|].
  apply stable_seq;
    [apply stable_copyScripts; [exact fatal_files | exact fatal_console]|].
  apply stable_seq;
    [apply stable_copyBuildRules; [exact fatal_files | exact fatal_console]|].
  apply stable_seq; [apply stable_writeProjectProperties; exact fatal_files|].
  apply stable_seq;
    [apply stable_prepBuildFiles; [exact fatal_files | exact fatal_call]|].
  apply stable_seq; [apply fatal_emit | apply stable_mret].
Qed.

Lemma leaves_stable {A} (m : M A) : stable shell_fatal m -> leaves_fatal_on thrown m.
Proof. intros H w. left. apply H. Qed.

Lemma leaves_bind {A C} (m : M A) (f : A -> M C) :
  leaves_fatal_on thrown m -> (forall a, leaves_fatal_on thrown (f a)) ->
  leaves_fatal_on thrown (bind m f).
Proof.
  intros Hm Hf w. unfold bind. specialize (Hm w).
  destruct (m w) as [[a|err] w1]; simpl in *.
  - destruct Hm as [Hm|[_ [err Hm]]]; [|discriminate].
    rewrite <- Hm. apply Hf.
  - destruct Hm as [Hm|[Hm _]]; [by left|]. right. split; [exact Hm | by eexists].
Qed.

Lemma leaves_after_stable {A C} (F : result C -> Prop) (m : M A) (f : A -> M C) :
  stable shell_fatal m -> (forall a, leaves_fatal_on F (f a)) ->
  leaves_fatal_on F (bind m f).
Proof.
  intros Hm Hf w. unfold bind. specialize (Hm w).
  destruct (m w) as [[a|err] w1]; simpl in *; [|by left].
  rewrite <- Hm. apply Hf.
Qed.

Lemma leaves_seq {A C} (m : M A) (k : M C) :
  leaves_fatal_on thrown m -> leaves_fatal_on thrown k ->
  leaves_fatal_on thrown (m;; k).
Proof. intros Hm Hk. apply (leaves_bind m (fun _ => k)); auto. Qed.

(** setShellFatal has no finally: the flag is put back when the
    function returns, and stays as it was set when the function
    throws. *)
Lemma leaves_setShellFatal (m : M unit) :
  stable shell_fatal m -> leaves_fatal_on thrown (setShellFatal true m).
Proof.
  intros Hm w. unfold setShellFatal, bind, get_world, modify, mbind, M_bind, bind.
  simpl. specialize (Hm (set_fatal true w)).
  destruct (m (set_fatal true w)) as [[u|err] w1]; simpl in *; [by left|].
  right. split; [exact Hm | by eexists].
Qed.

Lemma leaves_then {A C} (p : M (promise A)) (f : A -> M (promise C)) :
  stable shell_fatal p -> (forall a, leaves_fatal_on thrown (f a)) ->
  leaves_fatal_on unresolved (then_ p f).
Proof.
  intros Hp Hf w. unfold then_. specialize (Hp w).
  destruct (p w) as [[[a|err]|err] w1]; simpl in *; try by left.
  specialize (Hf a w1). rewrite <- Hp.
  destruct (f a w1) as [[q|err] w2]; simpl in *.
  - destruct Hf as [Hf|[_ [err Hf]]]; [by left | discriminate].
  - destruct Hf as [Hf|[Hf _]]; destruct (is_exit err); simpl;
      [by left | by left | by right | by right].
Qed.

Lemma leaves_thenResolve {A C} (p : M (promise A)) (v : C) :
  leaves_fatal_on unresolved p -> leaves_fatal_on unresolved (thenResolve p v).
Proof.
  intros Hp w. unfold thenResolve, then_, ret. specialize (Hp w).
  destruct (p w) as [[[a|err]|err] w1]; simpl in *.
  - destruct Hp as [Hp|[_ Hp]]; [by left | discriminate].
  - destruct Hp as [Hp|[Hp _]]; [by left|]. by right.
  - destruct Hp as [Hp|[Hp _]]; [by left|]. by right.
Qed.

(** X20.  create has shell.config.fatal as it found it when its promise
    is resolved; otherwise the flag is as it was found or on: what
    throws inside the function run under setShellFatal(true) leaves it
    on, and so does the end of the process in a command of the
    shell. *)
Theorem create_leaves_shell_fatal e p cfg o w :
  let r := create e p cfg o w in
  shell_fatal r.2 = shell_fatal w
  \/ (shell_fatal r.2 = true /\ resolved r.1 = false).
Proof.
  cbv zeta. revert w. change (leaves_fatal_on unresolved (create e p cfg o)).
  unfold create. cbv zeta.
  apply leaves_after_stable; [apply stable_existsSync|]. intros ex.
  destruct ex; [by left|].
  apply leaves_thenResolve, leaves_then.
  { apply stable_then; [apply stable_mret|]. intros _. apply stable_mret. }
  intros _.
  do 7 (apply leaves_seq; [apply leaves_stable, fatal_emit|]).
  apply leaves_seq.
  { apply leaves_setShellFatal. cbv zeta.
    repeat first
      [ apply stable_seq; [fatal_leaf|]
      | apply stable_bind; [apply stable_manifest_new | intros ?; cbv zeta] ].
    fatal_leaf. }
  apply leaves_seq;
    [apply leaves_stable, stable_writeProjectProperties; exact fatal_files|].
  apply leaves_seq;
    [apply leaves_stable, stable_prepBuildFiles; [exact fatal_files | exact fatal_call]|].
  apply leaves_seq; [apply leaves_stable, fatal_emit | apply leaves_stable, stable_mret].
Qed.

(** The flag left on by a promise that is rejected: the template has no
    manifest, which the function run under setShellFatal(true) finds
    when it has copied the rest. *)
Example create_leaves_shell_fatal_on :
  let r := create sample_env (Some "proj")
             (Config (Some "com.example.App") (Some "App") None) None
             (world0 (delete (Sample.root ++ "/bin/templates/project/AndroidManifest.xml")%string
                        store)) in
  r.1 = Ret (Rejected (IoError
              ("cannot parse " ++ Sample.root ++ "/bin/templates/project/AndroidManifest.xml")))
  /\ shell_fatal r.2 = true.
Proof. cbv zeta. split; vm_compute; reflexivity. Qed.

(** The process ended: the template is missing, and the first copy
    fails with the flag on. *)
Example create_exits :
  let r := create sample_env (Some "proj")
             (Config (Some "com.example.App") (Some "App") None) None (world0 ∅) in
  r.1 = Throw (ProcessExit 1) /\ shell_fatal r.2 = true.
Proof. cbv zeta. split; vm_compute; reflexivity. Qed.

End Fatal.

(** ** Where the process can end *)
Create HintDb exits.

Section Exits.
Import Js Node Shell Regex Create Spec Sample PlatformApi Behaviour.

Lemma exits_never {A} (m : M A) :
  (forall w, exited (m w).1 = false) -> exits_under_fatal m.
Proof. intros H w. rewrite H. discriminate. Qed.

Lemma exits_mret {A} (a : A) : exits_under_fatal (mret a).
Proof. by apply exits_never. Qed.

Lemma exits_ret {A} (a : A) : exits_under_fatal (ret a).
Proof. by apply exits_never. Qed.

Lemma exits_throw {A} err : is_exit err = false -> exits_under_fatal (@throw A err).
Proof. intros H. by apply exits_never. Qed.

Lemma exits_get_world : exits_under_fatal get_world.
Proof. by apply exits_never. Qed.

Lemma exits_modify f : exits_under_fatal (modify f).
Proof. by apply exits_never. Qed.

Lemma exits_bind {A C} (m : M A) (f : A -> M C) :
  exits_under_fatal m -> (forall a, exits_under_fatal (f a)) ->
  exits_under_fatal (bind m f).
Proof.
  intros Hm Hf w. unfold bind. specialize (Hm w).
  destruct (m w) as [[a|err] w1]; simpl in *; [apply Hf | exact Hm].
Qed.

Lemma exits_seq {A C} (m : M A) (k : M C) :
  exits_under_fatal m -> exits_under_fatal k -> exits_under_fatal (m;; k).
Proof. intros Hm Hk. apply (exits_bind m (fun _ => k)); auto. Qed.

Lemma exits_try_catch {A} (m : M A) h :
  exits_under_fatal m -> (forall err, exits_under_fatal (h err)) ->
  exits_under_fatal (try_catch m h).
Proof.
  intros Hm Hh w. unfold try_catch. specialize (Hm w).
  destruct (m w) as [[a|err] w1]; simpl in *; [discriminate|].
  destruct (is_exit err) eqn:E; simpl; [by rewrite E | apply Hh].
Qed.

Lemma exits_then {A C} (p : M (promise A)) (f : A -> M (promise C)) :
  exits_under_fatal p -> (forall a, exits_under_fatal (f a)) ->
  exits_under_fatal (then_ p f).
Proof.
  intros Hp Hf w. unfold then_. specialize (Hp w).
  destruct (p w) as [[[a|err]|err] w1]; simpl in *; try discriminate; [|exact Hp].
  specialize (Hf a w1).
  destruct (f a w1) as [[q|err] w2]; simpl in *; [discriminate|].
  destruct (is_exit err) eqn:E; simpl; [by rewrite E | discriminate].
Qed.

Lemma exits_thenResolve {A C} (p : M (promise A)) (v : C) :
  exits_under_fatal p -> exits_under_fatal (thenResolve p v).
Proof. intros Hp. apply exits_then; [exact Hp|]. intros a. apply exits_ret. Qed.

Lemma exits_for_each {A} (l : list A) (f : A -> M unit) :
  (forall a, exits_under_fatal (f a)) -> exits_under_fatal (for_each l f).
Proof.
  intros Hf. induction l as [|a l IH]; simpl; [apply exits_mret|].
  apply exits_seq; auto.
Qed.

Lemma exits_shell_error msg : exits_under_fatal (shell_error msg).
Proof.
  intros w. unfold shell_error. destruct (shell_fatal w) eqn:E; simpl; [|discriminate].
  intros _. exact E.
Qed.

Lemma exits_console_log msg : exits_under_fatal (console_log msg).
Proof. apply exits_modify. Qed.

Lemma exits_emit n t : exits_under_fatal (emit n t).
Proof. apply exits_modify. Qed.

Lemma exits_existsSync p : exits_under_fatal (existsSync p).
Proof. by apply exits_never. Qed.

Lemma exits_readFileSync p : exits_under_fatal (readFileSync p).
Proof. apply exits_never. intros w. unfold readFileSync. by repeat case_match. Qed.

Lemma exits_writeFileSync p data : exits_under_fatal (writeFileSync p data).
Proof. apply exits_never. intros w. unfold writeFileSync. by repeat case_match. Qed.

Lemma exits_unlinkSync p : exits_under_fatal (unlinkSync p).
Proof. apply exits_never. intros w. unfold unlinkSync. by repeat case_match. Qed.

Lemma exits_symlinkSync t p : exits_under_fatal (symlinkSync t p).
Proof. apply exits_never. intros w. unfold symlinkSync. by repeat case_match. Qed.

Lemma exits_manifest_new p : exits_under_fatal (Manifest.new p).
Proof. apply exits_never. intros w. unfold Manifest.new. by repeat case_match. Qed.

Lemma exits_manifest_write dest m : exits_under_fatal (Manifest.write dest m).
Proof. apply exits_never. intros w. unfold Manifest.write. by repeat case_match. Qed.

Lemma exits_setShellFatal b (m : M unit) :
  exits_under_fatal m -> exits_under_fatal (setShellFatal b m).
Proof.
  intros Hm. unfold setShellFatal. apply exits_bind; [apply exits_get_world|].
  intros w0. cbv zeta. apply exits_seq; [apply exits_modify|].
  apply exits_seq; [exact Hm | apply exits_modify].
Qed.

#[local] Hint Resolve exits_mret exits_ret exits_get_world exits_modify exits_shell_error
  exits_console_log exits_emit exits_existsSync exits_readFileSync exits_writeFileSync
  exits_unlinkSync exits_symlinkSync exits_manifest_new exits_manifest_write : exits.

Ltac exits_tac :=
  repeat first
    [ solve [auto with exits]
    | apply exits_throw; reflexivity
    | apply exits_seq
    | apply exits_bind; [|intros ?]
    | apply exits_for_each; intros ?
    | apply exits_try_catch; [|intros ?]
    | apply exits_setShellFatal
    | match goal with
      | |- exits_under_fatal (if ?b then _ else _) => destruct b
      | |- exits_under_fatal (match ?x with _ => _ end) => destruct x
      end
    | progress cbv zeta ].

Lemma exits_mkdir p : exits_under_fatal (mkdir p).
Proof. unfold mkdir. exits_tac. Qed.

Lemma exits_mkdir_p p : exits_under_fatal (mkdir_p p).
Proof. unfold mkdir_p. exits_tac. Qed.

Lemma exits_cp_one r f dest src : exits_under_fatal (cp_one r f dest src).
Proof. unfold cp_one. exits_tac. Qed.

Lemma exits_cp r f source dest : exits_under_fatal (cp r f source dest).
Proof. pose proof exits_cp_one. unfold cp, wrap. exits_tac. Qed.

Lemma exits_rm_rf p : exits_under_fatal (rm_rf p).
Proof. unfold rm_rf. exits_tac. Qed.

Lemma exits_rm_f p : exits_under_fatal (rm_f p).
Proof. unfold rm_f. exits_tac. Qed.

Lemma exits_ls pat : exits_under_fatal (ls pat).
Proof. unfold ls. exits_tac. Qed.

#[local] Hint Resolve exits_mkdir exits_mkdir_p exits_cp exits_rm_rf exits_rm_f
  exits_ls : exits.

Lemma exits_copyJsAndLibrary e p shared n :
  exits_under_fatal (copyJsAndLibrary e p shared n).
Proof. unfold copyJsAndLibrary. exits_tac. Qed.

Lemma exits_copyScripts e p : exits_under_fatal (copyScripts e p).
Proof. unfold copyScripts. exits_tac. Qed.

Lemma exits_copyBuildRules e p : exits_under_fatal (copyBuildRules e p).
Proof. unfold copyBuildRules. exits_tac. Qed.

Lemma exits_writeProjectProperties e p t :
  exits_under_fatal (writeProjectProperties e p t).
Proof. unfold writeProjectProperties. exits_tac. Qed.

Lemma exits_prepBuildFiles e p : builder_stays e -> exits_under_fatal (prepBuildFiles e p).
Proof.
  intros He. unfold prepBuildFiles. apply exits_bind; [apply exits_existsSync|].
  intros ex. destruct (negb ex); [by apply exits_throw|].
  apply exits_never. intros w. unfold getBuilder_prepBuildFiles.
  destruct (builder_prepBuildFiles e p (files w)) as [fs'|err] eqn:E; [reflexivity|].
  simpl. by apply He in E.
Qed.

(** In [update] the process ends only with the flag on. *)
Lemma exits_update e root o : builder_stays e -> exits_under_fatal (update e root o).
Proof.
  intros He. unfold update. cbv zeta.
  apply exits_thenResolve, exits_then; [apply exits_ret|]. intros _.
  apply exits_bind; [apply exits_manifest_new|]. intros m.
  apply exits_bind.
  { destruct (js_lt _ _); [|apply exits_mret].
    apply exits_seq; [apply exits_emit | apply exits_mret]. }
  intros m'. cbv zeta.
  apply exits_seq; [apply exits_manifest_write|].
  apply exits_seq; [apply exits_copyJsAndLibrary|].
  apply exits_seq; [apply exits_copyScripts|].
  apply exits_seq; [apply exits_copyBuildRules|].
  apply exits_seq; [apply exits_writeProjectProperties|].
  apply exits_seq; [by apply exits_prepBuildFiles|].
  apply exits_seq; [apply exits_emit | apply exits_mret].
Qed.

(** update throws no exception: it hands back a promise, or the
    process has ended. *)
Lemma update_outcome e projectPath o w :
  (exists r, (update e projectPath o w).1 = Ret r
             /\ (forall v, r = Resolved v -> v = projectPath))
  \/ exited (update e projectPath o w).1 = true.
Proof.
  unfold update, thenResolve, then_, Q_, ret. cbv zeta.
  match goal with |- context [bind ?m ?k w] =>
    destruct (bind m k w) as [[[a|err]|err] w1] end; simpl.
  - left. eexists. split; [reflexivity|]. by intros v [= <-].
  - left. eexists. split; [reflexivity|]. discriminate.
  - destruct (is_exit err) eqn:E; simpl.
    + right. exact E.
    + left. eexists. split; [reflexivity|]. discriminate.
Qed.

(** X4.  With shell.config.fatal off, update hands back a promise
    whatever goes wrong: what its steps throw rejects the promise, and
    no command of the shell ends the process.  When the promise is
    resolved its value is the path update was given.  The builder of
    the build files is taken not to end the process. *)
Theorem update_returns_promise e projectPath o w :
  shell_fatal w = false -> builder_stays e ->
  exists r, (update e projectPath o w).1 = Ret r
    /\ (forall v, r = Resolved v -> v = projectPath).
Proof.
  intros Hw He.
  destruct (update_outcome e projectPath o w) as [H|H]; [exact H|].
  apply (exits_update e projectPath o He w) in H.
  rewrite (fatal_update e projectPath o w), Hw in H. discriminate.
Qed.

Lemma sample_builder_stays : builder_stays sample_env.
Proof. intros root fs err. discriminate. Qed.

Lemma update_returns_promise_sample :
  exists r, (update sample_env "proj" None (world0 (legacy_project "15"))).1 = Ret r
    /\ (forall v, r = Resolved v -> v = "proj").
Proof.
  apply update_returns_promise; [reflexivity | exact sample_builder_stays].
Defined.

(** With the flag on, a command of the shell that fails ends the
    process: here the copy of cordova.js from a tool tree that is not
    there. *)
Example update_exits_under_fatal :
  let w := World flat_project true [] [] ∅ [] in
  (update sample_env "proj" None w).1 = Throw (ProcessExit 1).
Proof. vm_compute. reflexivity. Qed.

End Exits.

(** * The name of a project, the layout flag of an installation *)
Section Further.
Import Js Node Shell Regex Create Spec Sample PlatformApi Behaviour.

(** X21.  The name create gives the project is never empty: a configured
    name that is empty gives way to CordovaExample, and the replace
    keeps the length of any other. *)
Theorem project_name_never_empty cfg :
  exists c rest, project_name_of cfg = String c rest.
Proof.
  unfold project_name_of, js_or_opt.
  destruct (name cfg) as [n|]; [|by eexists _, _].
  destruct (String.eqb n "") eqn:E; [by eexists _, _|].
  apply String.eqb_neq in E.
  pose proof (sanitised_list n) as H.
  destruct (replace _ _ _ n) as [|c rest]; [|by eexists _, _].
  destruct n; [done | discriminate].
Qed.

Ltac step :=
  first [ rewrite step_assoc | rewrite step_ret | rewrite step_get | rewrite step_new
        | rewrite step_set' | rewrite step_world
        | rewrite step_get_prim by exact I | rewrite step_set_prim by exact I ];
  cbv beta; cbn [heap set_heap files].

Ltac reads1 :=
  match goal with
  | |- context [read (heap_set ?l ?key ?x ?h) (VRef ?l) ?key] =>
      rewrite (read_heap_set_same l key x h)
  | |- context [read (heap_set ?l ?key ?x ?h) ?v ?key'] =>
      rewrite (read_heap_set_key l key x h v key') by discriminate
  | |- context [read (<[fresh (dom ?h) := ∅]> ?h) ?v ?key] =>
      rewrite (read_new h v key)
  | |- context [read ?h (VRef (fresh (dom ?h))) ?key] =>
      rewrite (read_fresh h key)
  end.

Ltac branch :=
  match goal with
  | |- context [bind (if negb ?b then _ else _) _ _] => destruct b eqn:?
  | |- context [bind (if ?b then _ else _) _ _] => destruct b eqn:?
  end.

Ltac run := repeat first [ step | reads1 | progress cbn [truthy negb] ].

Lemma addPlugin_options_studio x this l w :
  exists w1, addPlugin_options x this (VRef l) w = (Ret (VRef l), w1)
    /\ read (heap w1) (VRef l) "android_studio"
       = if is_true (android_studio this) then VBool true
         else read (heap w) (VRef l) "android_studio".
Proof.
  unfold addPlugin_options, mbind, M_bind.
  change (truthy (VRef l)) with true. cbv iota. run.
  remember (read (heap w) (VRef l) "variables") as v eqn:Ev.
  destruct (truthy v) eqn:Ht.
  - run. destruct v as [| |b|s|z|lv]; try discriminate Ht;
      repeat (run; try branch);
      (eexists; split; [reflexivity|]); cbn [heap set_heap]; run; reflexivity.
  - repeat (run; try branch); (eexists; split; [reflexivity|]); cbn [heap set_heap];
      run; reflexivity.
Qed.

(** X22.  With an option bag that is an object or left out, the plugin
    manager finds android_studio true in it when the facade is of the
    Android Studio layout, and as the caller left it otherwise. *)
Theorem addPlugin_hands_on_android_studio e x this plugin io w :
  options_ok io ->
  Forall (hands_on_android_studio
            (if is_true (android_studio this) then VBool true
             else read (heap w) io "android_studio"))
    (new_calls w (addPlugin e x this plugin io w).2).
Proof.
  intros Hio. rewrite addPlugin_calls. cbv zeta.
  assert (exists io' w1, addPlugin_options x this io w = (Ret io', w1)
            /\ read (heap w1) io' "android_studio"
               = if is_true (android_studio this) then VBool true
                 else read (heap w) io "android_studio") as (io' & w1 & E & Hs).
  { destruct (truthy io) eqn:Ht.
    - destruct io as [| |b|s|z|l]; try (cbv [options_ok] in Hio; congruence).
      destruct (addPlugin_options_studio x this l w) as (w1 & E & H); eauto.
    - rewrite addPlugin_options_falsy by done.
      edestruct addPlugin_options_studio as (w1 & E & H).
      eexists _, _. split; [exact E|]. rewrite H. cbn [heap set_heap]. reads1. reads1.
      destruct io; try discriminate Ht; reflexivity. }
  rewrite E. cbn [fst snd]. apply Forall_app. split.
  - destruct (needs_clean x this w); [|constructor]. constructor; [exact I|].
    unfold clean_tail.
    destruct (check_reqs_run x); [destruct (build_runClean x _)|]; repeat constructor.
  - destruct (_ || _); [|constructor]. constructor.
    + cbn [hands_on_android_studio]. reads1. reads1. exact Hs.
    + destruct (_ && _); repeat constructor.
Qed.

Lemma addPlugin_hands_on_android_studio_sample :
  options_ok VUndef
  /\ Forall (hands_on_android_studio (VBool true))
       (new_calls (world_with ∅)
          (addPlugin sample_env sample_ext studio_api plain_plugin VUndef
             (world_with ∅)).2).
Proof.
  split; [reflexivity|].
  exact (addPlugin_hands_on_android_studio sample_env sample_ext studio_api
           plain_plugin VUndef (world_with ∅) eq_refl).
Defined.

End Further.

(** * What create leaves alone *)
Section CreateFrames.
Import Js Node Shell Regex Create Spec Sample Behaviour.





Lemma join2_left_nonempty a b : a <> "" -> join2 a b <> "".
Proof.
  intros Ha. unfold join2. destruct (String.eqb_spec a ""); [done|].
  destruct (String.eqb b ""); [exact Ha|]. by destruct a.
Qed.

Variable e : env.
Variable root : string.
Variable B : string -> Prop.
Hypothesis Hroot : root <> "".
Hypothesis Hstar : has_star root = false.
Hypothesis HB : builder_confined e root B.

Local Abbreviation G := (fun p => under root p = true \/ B p).

Lemma under_root_2 a p : under (join [root; a]) p = true -> under root p = true.
Proof. apply under_join2, Hroot. Qed.

Lemma join_root_nonempty a : join [root; a] <> "".
Proof. rewrite join_pair. apply join2_left_nonempty, Hroot. Qed.

Lemma under_root_3 a b p : under (join [root; a; b]) p = true -> under root p = true.
Proof.
  rewrite join_snoc3. intros H. apply under_join2 in H; [|apply join_root_nonempty].
  by apply under_root_2 in H.
Qed.

Lemma under_root_4 a b c p : under (join [root; a; b; c]) p = true -> under root p = true.
Proof.
  rewrite join_snoc4. intros H. apply under_join2 in H.
  - by apply under_root_3 in H.
  - rewrite join_snoc3. apply join2_left_nonempty, join_root_nonempty.
Qed.




Ltac inside :=
  let H := fresh in
  intros ? H; left;
  first [ exact H
        | by apply under_root_2 in H
        | by apply under_root_3 in H
        | by apply under_root_4 in H ].





End CreateFrames.

Section CreateKeeps.
Import Js Node Shell Regex Create Spec Sample Behaviour.



End CreateKeeps.

(** * What create has written when it resolves *)
Section CreateWrites.
Import Js Node Shell Regex Create Spec Sample Behaviour.

Variable P : world -> Prop.

Local Abbreviation ensures := (Behaviour.ensures P).
Local Abbreviation ensures_resolved := (Behaviour.ensures_resolved P).
Local Abbreviation preserves := (Behaviour.preserves P).

Lemma ensures_bind_right {A B} (m : M A) (f : A -> M B) :
  (forall a, ensures (f a)) -> ensures (bind m f).
Proof.
  intros Hf w b w'. unfold bind. destruct (m w) as [[a|err] w1]; [|discriminate].
  apply Hf.
Qed.

Lemma ensures_seq_right {A B} (m : M A) (k : M B) : ensures k -> ensures (m ;; k).
Proof. intros Hk. apply (ensures_bind_right m (fun _ => k)). intros _. exact Hk. Qed.

Lemma ensures_bind_left {A B} (m : M A) (f : A -> M B) :
  ensures m -> (forall a, preserves (f a)) -> ensures (bind m f).
Proof.
  intros Hm Hf w b w'. unfold bind. specialize (Hm w).
  destruct (m w) as [[a|err] w1]; [|discriminate].
  intros H. specialize (Hf a w1 (Hm a w1 eq_refl)). by rewrite H in Hf.
Qed.

Lemma ensures_seq_left {A B} (m : M A) (k : M B) :
  ensures m -> preserves k -> ensures (m ;; k).
Proof. intros Hm Hk. apply (ensures_bind_left m (fun _ => k)); auto. Qed.

Lemma ensures_setShellFatal b (m : M unit) : ensures m ->
  (forall v, preserves (modify (set_fatal v))) -> ensures (setShellFatal b m).
Proof.
  intros Hm Hf. unfold setShellFatal. apply ensures_bind_right. intros w0.
  apply ensures_seq_right, ensures_seq_left; [exact Hm | apply Hf].
Qed.

Lemma ensures_resolved_of {A} (m : M (promise A)) : ensures m -> ensures_resolved m.
Proof. intros H w a w'. apply H. Qed.

Lemma ensures_then {A B} (p : M (promise A)) (f : A -> M (promise B)) :
  (forall a, ensures (f a)) -> ensures_resolved (then_ p f).
Proof.
  intros Hf w b w'. unfold then_. destruct (p w) as [[[a|err]|err] w1]; try discriminate.
  specialize (Hf a w1).
  destruct (f a w1) as [[q|err] w2]; [|destruct (is_exit err); discriminate].
  intros [= -> ->]. by eapply Hf.
Qed.

Lemma ensures_thenResolve {A B} (p : M (promise A)) (v : B) :
  ensures_resolved p -> ensures_resolved (thenResolve p v).
Proof.
  intros Hp w b w'. unfold thenResolve, then_. specialize (Hp w).
  destruct (p w) as [[[a|err]|err] w1]; try discriminate.
  cbn. intros [= _ <-]. by eapply Hp.
Qed.

End CreateWrites.

Section CreateManifest.
Import Js Node Shell Regex Create Spec Sample Behaviour.

Variable e : env.
Variable root : string.
Variable B : string -> Prop.
Hypothesis HB : builder_confined e root B.
Hypothesis HnB : ~ B (studio_manifest_path root).

Lemma studio_manifest_not_refreshed : ~ refreshed_areas root (studio_manifest_path root).
Proof.
  unfold refreshed_areas, studio_manifest_path. intros H.
  destruct (String.eqb_spec root "") as [->|Hne].
  - vm_compute in H. intuition discriminate.
  - rewrite !join_snoc4, !join_snoc3, !join_pair in H.
    rewrite !(join2_app root) in H by (assumption || discriminate).
    repeat rewrite join2_app in H
      by (first [discriminate
                | apply join2_nonempty; discriminate
                | apply string_app_nonempty; let X := fresh in
                  intros X; vm_compute in X; discriminate]).
    rewrite !string_app_assoc in H.
    rewrite <- (string_app_nil_r root) in H at 2.
    rewrite !under_app in H.
    destruct H as [H|[H|[H|[H|[H|[H|[H|H]]]]]]]; try (vm_compute in H; discriminate).
    + apply (inj (String.append root)) in H. discriminate.
    + apply (glob_match_last _ _ "r") in H.
      * rewrite list_of_app, last_app in H. vm_compute in H. discriminate.
      * rewrite list_of_app, last_app. reflexivity.
      * discriminate.
    + apply (inj (String.append root)) in H. discriminate.
Qed.

Lemma preserves_frames {A} package_name activity (m : M A) :
  frames (update_area root B) m ->
  preserves (manifest_names root package_name activity) m.
Proof.
  intros Hm w (d & Hd & H). exists d. split; [|exact H].
  apply (Hm w _ _ Hd). intros [HF|HF]; [by apply studio_manifest_not_refreshed in HF|].
  by apply HnB.
Qed.

Lemma ensures_manifest_write package_name activity m :
  packageId (Manifest.doc m) = package_name ->
  Node.activityName (Manifest.doc m) = activity ->
  ensures (manifest_names root package_name activity)
    (Manifest.write (Some (studio_manifest_path root)) m).
Proof.
  intros H1 H2 w a w'. unfold Manifest.write. cbn [default].
  destruct (writable _ _); [|discriminate]. intros [= _ <-].
  exists (Manifest.doc m). split; [|by split]. apply lookup_insert_eq.
Qed.

(** When [create] resolves, the manifest of the new project names the
    package and the activity. *)
Lemma ensures_create p cfg o :
  relative (cwd e) (js_or p "CordovaExample") = root ->
  ensures_resolved
    (manifest_names root (js_or (packageName cfg) "my.cordova.project")
       (js_or (js_or_opt (android_activityName cfg)
                         (activityName (default no_options o))) "MainActivity"))
    (create e p cfg o).
Proof.
  intros Hp w v w'. unfold create. rewrite Hp. clear Hp.
  unfold bind at 1, existsSync. destruct (exists_ (files w) root); [discriminate|].
  revert w v w'. apply ensures_thenResolve, ensures_then. intros _.
  do 7 apply ensures_seq_right.
  apply ensures_seq_left.
  - apply ensures_setShellFatal.
    + do 13 apply ensures_seq_right. apply ensures_bind_right. intros m.
      apply ensures_seq_left.
      * by apply ensures_manifest_write.
      * apply preserves_frames, frames_seq;
          [by apply frames_copyScripts | by apply frames_copyBuildRules].
    + intros b. apply preserves_frames, frames_set_fatal.
  - apply preserves_frames.
    apply frames_seq; [by apply frames_writeProjectProperties|].
    apply frames_seq; [by apply frames_prepBuildFiles|].
    apply frames_seq; [apply frames_emit | apply frames_mret].
Qed.

End CreateManifest.

Section CreateResolved.
Import Js Node Shell Regex Create Spec Sample Behaviour.

(** X24.  When create resolves, the manifest of the new project, at
    app/src/main/AndroidManifest.xml below its path, is a manifest with
    the package name and the activity name create worked with: what
    runs after the manifest is written leaves it as it is.  The builder
    of the build files is taken not to write the manifest. *)
Theorem create_writes_manifest e p cfg o B w v :
  let project_path := relative (cwd e) (js_or p "CordovaExample") in
  builder_confined e project_path B ->
  ~ B (studio_manifest_path project_path) ->
  (create e p cfg o w).1 = Ret (Resolved v) ->
  exists d,
    files (create e p cfg o w).2 !! studio_manifest_path project_path
    = Some (File (Xml d))
    /\ packageId d = js_or (packageName cfg) "my.cordova.project"
    /\ Node.activityName d
       = js_or (js_or_opt (android_activityName cfg)
                          (activityName (default no_options o))) "MainActivity".
Proof.
  intros project_path HB HnB Hr.
  apply (ensures_create e project_path B HB HnB p cfg o eq_refl w v).
  apply run_eq, Hr.
Qed.

(** The same on the sample: the project created at proj. *)
Lemma create_writes_manifest_sample :
  exists d,
    files (create sample_env (Some "proj") config_CordovaActivity None (world0 store)).2
      !! "proj/app/src/main/AndroidManifest.xml"
    = Some (File (Xml d))
    /\ packageId d = "com.example.App" /\ Node.activityName d = "MainActivity".
Proof.
  apply (create_writes_manifest sample_env (Some "proj") config_CordovaActivity None
           settings_gradle (world0 store) "proj").
  - exact sample_builder_confined.
  - unfold settings_gradle. vm_compute. discriminate.
  - vm_compute. reflexivity.
Defined.

End CreateResolved.

(** * Reading back the references that were written *)
Section ReadBack.
Import Js Node Shell Regex Create Spec Sample PlatformApi Behaviour.

Variable fl : flags.

(** A run of literal characters is passed when it stands ahead. *)
Lemma step_literals (l : list ascii) : forall pre rest caps k,
  step fl (seqs (map Lit l)) (St pre (l ++ rest) caps) k
  = k (St (rev l ++ pre) rest caps).
Proof.
  induction l as [|c l IH]; intros pre rest caps k; [reflexivity|].
  cbn [map seqs foldr step]. unfold eat. cbn [st_rest app st_pre st_caps].
  rewrite Ascii.eqb_refl. fold (seqs (map Lit l)). rewrite IH.
  cbn [rev]. by rewrite <- app_assoc.
Qed.

(** A greedy star over one character class takes the whole run of
    such characters ahead, when what follows the star matches after
    the run. *)
Lemma star_loop_run (pr : ascii -> bool) (body : state -> (state -> option state) -> option state)
    (k : state -> option state) (l : list ascii) :
  (forall st k', body st k' = eat pr st k') ->
  Forall (fun c => pr c = true) l ->
  forall pre rest caps fuel x,
    (length l < fuel)%nat ->
    match rest with [] => True | c :: _ => pr c = false end ->
    k (St (rev l ++ pre) rest caps) = Some x ->
    star_loop body k fuel (St pre (l ++ rest) caps) = Some x.
Proof.
  intros Hb Hl. induction Hl as [|c l Hc Hl IH]; intros pre rest caps fuel x Hf Hr Hk.
  - destruct fuel as [|fuel]; [simpl in Hf; lia|]. cbn [star_loop app].
    rewrite Hb. unfold eat. cbn [st_rest].
    destruct rest as [|c rest]; [exact Hk|]. rewrite Hr. exact Hk.
  - destruct fuel as [|fuel]; [simpl in Hf; lia|]. cbn [star_loop app].
    rewrite Hb. unfold eat. cbn [st_rest st_pre st_caps]. rewrite Hc.
    cbn [length]. rewrite (proj2 (Nat.ltb_lt _ _)) by lia.
    rewrite (IH (c :: pre) rest caps fuel x); [reflexivity | simpl in Hf; lia | exact Hr|].
    cbn [rev] in Hk. by rewrite <- app_assoc in Hk.
Qed.

Lemma step_star_run neg items k l pre rest caps x :
  Forall (fun c => cls_mem neg items c = true) l ->
  match rest with [] => True | c :: _ => cls_mem neg items c = false end ->
  k (St (rev l ++ pre) rest caps) = Some x ->
  step fl (Star (Cls neg items)) (St pre (l ++ rest) caps) k = Some x.
Proof.
  intros Hl Hr Hk. cbn [step]. apply (star_loop_run (cls_mem neg items)); auto.
  cbn [st_rest]. rewrite length_app. lia.
Qed.

Lemma step_star_dot k l pre rest caps x :
  Forall (fun c => is_lineterm c = false) l ->
  match rest with [] => True | c :: _ => is_lineterm c = true end ->
  k (St (rev l ++ pre) rest caps) = Some x ->
  step fl (Star Dot) (St pre (l ++ rest) caps) k = Some x.
Proof.
  intros Hl Hr Hk. cbn [step].
  apply (star_loop_run (fun c => negb (is_lineterm c))); auto.
  - eapply Forall_impl; [exact Hl|]. by intros c ->.
  - cbn [st_rest]. rewrite length_app. lia.
  - destruct rest as [|c rest]; [exact I|]. by rewrite Hr.
Qed.

Lemma consumed_app (l rest : list ascii) : consumed (l ++ rest) rest = l.
Proof.
  unfold consumed. rewrite length_app.
  replace (length l + length rest - length rest)%nat with (length l) by lia.
  by rewrite take_app_length.
Qed.

End ReadBack.

Section ReadBackLines.
Import Js Node Shell Regex Create Spec Sample PlatformApi Behaviour.

Local Abbreviation mg := (Flags true true).

Lemma step_Seq fl r1 r2 st k :
  step fl (Seq r1 r2) st k = step fl r1 st (fun st' => step fl r2 st' k).
Proof. reflexivity. Qed.

Lemma step_Bol fl pre rest caps k :
  at_bol fl pre = true -> step fl Bol (St pre rest caps) k = k (St pre rest caps).
Proof. intros H. cbn [step st_pre]. by rewrite H. Qed.

Lemma step_Cls_hit fl neg items c pre rest caps k :
  cls_mem neg items c = true ->
  step fl (Cls neg items) (St pre (c :: rest) caps) k = k (St (c :: pre) rest caps).
Proof. intros H. cbn [step]. unfold eat. cbn [st_rest st_pre st_caps]. by rewrite H. Qed.

Lemma step_Lit_hit fl c pre rest caps k :
  step fl (Lit c) (St pre (c :: rest) caps) k = k (St (c :: pre) rest caps).
Proof. cbn [step]. unfold eat. cbn [st_rest st_pre st_caps]. by rewrite Ascii.eqb_refl. Qed.

Lemma step_Group fl n r st k :
  step fl (Group n r) st k
  = step fl r st (fun st' =>
      k (St (st_pre st') (st_rest st')
            (<[n := consumed (st_rest st) (st_rest st')]> (st_caps st')))).
Proof. reflexivity. Qed.

Lemma cls_digit c : cls_mem false [ClsD] c = is_digit c.
Proof. unfold cls_mem. cbn. by rewrite orb_false_r. Qed.

Lemma step_reference_line pre d ds p rest :
  at_bol mg pre = true ->
  Forall (fun c => is_digit c = true) (d :: ds) ->
  Forall (fun c => is_lineterm c = false) p ->
  step mg LIB_REF (St pre (reference_line (d :: ds) p ++ rest) ∅) Some
  = Some (St (rev (reference_line (d :: ds) p) ++ pre) rest {[ 1%nat := p ]}).
Proof.
  intros Hbol Hds Hp. unfold LIB_REF, reference_line.
  cbn [seqs foldr]. rewrite step_Seq, step_Bol by exact Hbol.
  rewrite step_Seq.
  change (St pre ?t ∅) with (St pre ([] ++ t) ∅).
  apply step_star_run; [constructor | reflexivity|].
  cbn [rev app]. rewrite step_Seq. unfold Str. rewrite <- !app_assoc.
  rewrite step_literals. unfold Plus. rewrite !step_Seq.
  apply Forall_cons in Hds as [Hd Hds]. cbn [app]. rewrite <- !app_assoc. cbn [app].
  rewrite step_Cls_hit by (by rewrite cls_digit).
  apply step_star_run.
  { eapply Forall_impl; [exact Hds|]. intros c Hc. by rewrite cls_digit. }
  { reflexivity. }
  cbv beta. rewrite step_Seq, step_Lit_hit, step_Seq, step_Group.
  cbn [st_rest st_pre st_caps]. rewrite <- !app_assoc. cbn [app].
  apply step_star_dot; [exact Hp | reflexivity|].
  cbn [st_rest st_pre st_caps]. rewrite consumed_app.
  rewrite step_Seq. cbn [step]. unfold eat. cbn [st_rest st_pre st_caps].
  change (cls_mem false [ClsS] LFc) with true. cbv iota.
  f_equal. f_equal.
  - generalize (list_ascii_of_string "android.library.reference."). intros L.
    repeat (rewrite ?rev_app_distr, <- ?app_assoc; cbn [rev app]). reflexivity.
Qed.

Lemma match_here_reference_line pre d ds p rest :
  at_bol mg pre = true ->
  Forall (fun c => is_digit c = true) (d :: ds) ->
  Forall (fun c => is_lineterm c = false) p ->
  match_here mg LIB_REF pre (reference_line (d :: ds) p ++ rest)
  = Some (Match pre (reference_line (d :: ds) p) rest {[ 1%nat := p ]}).
Proof.
  intros Hbol Hds Hp. unfold match_here.
  rewrite step_reference_line by assumption. cbn [st_rest st_caps].
  by rewrite consumed_app.
Qed.

Lemma match_here_nothing pre :
  at_bol mg pre = true -> match_here mg LIB_REF pre [] = None.
Proof.
  intros Hbol. unfold match_here, LIB_REF. cbn [seqs foldr].
  rewrite step_Seq, step_Bol by exact Hbol. reflexivity.
Qed.

Lemma list_reference_lines ps : forall i,
  list_ascii_of_string (reference_lines i ps) = lines_of i ps.
Proof.
  induction ps as [|p ps IH]; intros i; [reflexivity|].
  cbn [reference_lines lines_of]. unfold reference_line.
  rewrite !list_of_app, IH, <- !app_assoc. cbn [app]. rewrite <- !app_assoc.
  reflexivity.
Qed.

Lemma uint_digits (u : Decimal.uint) :
  Forall (fun c => is_digit c = true) (list_ascii_of_string (NilEmpty.string_of_uint u)).
Proof. induction u; cbn; constructor; auto. Qed.

Lemma show_nat_digits n :
  exists d ds, list_ascii_of_string (show_nat n) = d :: ds
               /\ Forall (fun c => is_digit c = true) (d :: ds).
Proof.
  pose proof (uint_digits (Nat.to_uint n)) as H. unfold show_nat.
  destruct (Nat.to_uint n) as [|u|u|u|u|u|u|u|u|u|u] eqn:E;
    try (eexists _, _; split; [reflexivity | exact H]).
  exfalso. pose proof (Unsigned.of_to n) as Hn. rewrite E in Hn.
  cbn in Hn. subst n. discriminate.
Qed.

Lemma matches_from_lines ps : forall i pre fuel,
  at_bol mg pre = true ->
  Forall (fun p => Forall (fun c => is_lineterm c = false) (list_ascii_of_string p)) ps ->
  (length ps < fuel)%nat ->
  map group1 (matches_from mg LIB_REF fuel pre (lines_of i ps)) = ps.
Proof.
  induction ps as [|p ps IH]; intros i pre fuel Hbol Hps Hf;
    (destruct fuel as [|fuel]; [simpl in Hf; lia|]).
  - cbn [lines_of matches_from search]. by rewrite match_here_nothing.
  - apply Forall_cons in Hps as [Hp Hps].
    destruct (show_nat_digits i) as (d & ds & Ei & Hds).
    cbn [lines_of matches_from]. rewrite Ei.
    assert (Hs : search mg LIB_REF pre
                   (reference_line (d :: ds) (list_ascii_of_string p) ++ lines_of (S i) ps)
                 = Some (Match pre (reference_line (d :: ds) (list_ascii_of_string p))
                           (lines_of (S i) ps) {[ 1%nat := list_ascii_of_string p ]})).
    { destruct (reference_line _ _ ++ _) eqn:E; cbn [search];
        rewrite <- ?E, match_here_reference_line by assumption; reflexivity. }
    rewrite Hs. cbn [m_text m_after m_before].
    unfold reference_line at 1. cbn [list_ascii_of_string app map].
    f_equal.
    + unfold group1. cbn [m_groups]. rewrite lookup_singleton_eq. cbn [default].
      apply string_of_list_ascii_of_string.
    + apply IH; [|exact Hps | simpl in Hf; lia].
      unfold reference_line.
      repeat (rewrite ?rev_app_distr, <- ?app_assoc; cbn [rev app]). reflexivity.
Qed.

(** What the reference lines capture is the paths they were written
    from. *)
Lemma matchAll_reference_lines i ps :
  Forall (fun p => Forall (fun c => is_lineterm c = false) (list_ascii_of_string p)) ps ->
  map group1 (matchAll mg LIB_REF (reference_lines i ps)) = ps.
Proof.
  intros Hps. unfold matchAll. cbv zeta. rewrite list_reference_lines.
  apply matches_from_lines; [reflexivity | exact Hps|].
  clear Hps. revert i. induction ps as [|p ps IH]; intros i; [simpl; lia|].
  cbn [lines_of length]. rewrite length_app. specialize (IH (S i)).
  unfold reference_line. rewrite length_app. cbn [length list_ascii_of_string]. lia.
Qed.

Lemma filter_all {A} (P : A -> Prop) `{forall x, Decision (P x)} (l : list A) :
  Forall P l -> filter P l = l.
Proof.
  induction 1 as [|x l Hx _ IH]; [reflexivity|].
  rewrite filter_cons_True by exact Hx. by rewrite IH.
Qed.

Lemma filter_none {A} (P : A -> Prop) `{forall x, Decision (P x)} (l : list A) :
  Forall (fun x => ~ P x) l -> filter P l = [].
Proof.
  induction 1 as [|x l Hx _ IH]; [reflexivity|].
  rewrite filter_cons_False by exact Hx. exact IH.
Qed.

Lemma nub_NoDup l : NoDup l -> nub l = l.
Proof.
  induction 1 as [|x l Hx Hl IH]; [reflexivity|]. cbn [nub]. rewrite IH. f_equal.
  apply filter_all. apply Forall_forall. intros y Hy ->. by apply Hx.
Qed.

(** X25.  What extractSubProjectPaths reads from a text of reference lines,
    such as writeProjectProperties appends, is the paths the lines
    were written from: all of them, each once, and in their order
    unless one of them is written like an array index.  The paths are
    distinct, none has a line break in it and none is __proto__. *)
Theorem extractSubProjectPaths_reads_back i ps :
  Forall (fun p => one_line p = true) ps -> NoDup ps -> "__proto__" ∉ ps ->
  extractSubProjectPaths (reference_lines i ps) ≡ₚ ps
  /\ (Forall (fun p => is_array_index p = false) ps ->
      extractSubProjectPaths (reference_lines i ps) = ps).
Proof.
  intros Hl Hn Hp. unfold extractSubProjectPaths.
  rewrite matchAll_reference_lines.
  2:{ eapply Forall_impl; [exact Hl|]. intros p H. unfold one_line in H.
      pose proof (proj1 (List.forallb_forall _ _) H) as H'.
      apply Forall_forall. intros c Hc.
      apply list_elem_of_In, H' in Hc. by apply negb_true_iff in Hc. }
  assert (Hf : filter (fun k => k ≠ "__proto__") ps = ps).
  { apply filter_all. apply Forall_forall. by intros p Hin ->. }
  split.
  - by rewrite Object_keys_perm, Hf, nub_NoDup.
  - intros Hi. unfold Object_keys. cbv zeta. rewrite Hf, nub_NoDup by exact Hn.
    rewrite filter_none, filter_all; [reflexivity | exact Hi|].
    eapply Forall_impl; [exact Hi|]. intros p ->. discriminate.
Qed.

Lemma extractSubProjectPaths_reads_back_sample :
  extractSubProjectPaths (reference_lines 1 ["CordovaLib"; "../plugin/lib"])
  ≡ₚ ["CordovaLib"; "../plugin/lib"]
  /\ (Forall (fun p => is_array_index p = false) ["CordovaLib"; "../plugin/lib"] ->
      extractSubProjectPaths (reference_lines 1 ["CordovaLib"; "../plugin/lib"])
      = ["CordovaLib"; "../plugin/lib"]).
Proof.
  apply extractSubProjectPaths_reads_back.
  - repeat constructor.
  - apply NoDup_ListNoDup. repeat constructor; simpl; intuition discriminate.
  - intros H. apply list_elem_of_In in H. simpl in H. intuition discriminate.
Defined.

End ReadBackLines.
